(** * GrokRiff notation engine: a shallow embedding of [grokmidi.py] and
      [midigimp.py], and the properties of the notation engine checked on it.

    Conventions of the embedding.
    - Python [str] values are [string]s; a character is a code point below
      256.  [upper] and [lower] map the ASCII letters only: for the other
      code points Python's case mapping never yields an ASCII character, and
      every comparison in the two programs is against ASCII constants.
    - Python [int] is [Z]; [//] and [%] with a positive divisor are [Z.div]
      and [Z.modulo].
    - Beat values (the Python floats [.5], [.25], [.125], [0.03] and the
      integers mixed with them) are exact rationals [Q], compared with [==].
    - A raised exception is a value of [exn].  Pure helpers return
      [result A]; methods that mutate the application return the state they
      leave behind together with an [outcome], since a Python exception does
      not roll back the assignments made before it.
    - The riff dictionaries are [gmap string val]; the dictionary objects
      live in a store addressed by location, so that two names for one
      object ([card.riff] and [song_data[t][i]]) see each other's writes. *)

From Stdlib Require Import ZArith QArith Lqa Ascii DecimalString.
From stdpp Require Import base option list strings gmap.

Open Scope Z_scope.

(** ** Exceptions and results *)

Inductive exn : Type :=
  | IndexError
  | KeyError
  | ValueError.

Inductive result (A : Type) : Type :=
  | Ok (a : A)
  | Raise (e : exn).
Arguments Ok {A} a.
Arguments Raise {A} e.

Definition bind {A B} (r : result A) (k : A → result B) : result B :=
  match r with
  | Ok a => k a
  | Raise e => Raise e
  end.

Notation "x ←? r ; k" := (bind r (fun x => k))
  (at level 100, r at next level, right associativity).

Fixpoint mapR {A B} (f : A → result B) (l : list A) : result (list B) :=
  match l with
  | [] => Ok []
  | a :: l' => b ←? f a; bs ←? mapR f l'; Ok (b :: bs)
  end.

(** ** Python string operations *)

Module Py.

Definition code (c : ascii) : N := N_of_ascii c.

Definition is_lower (c : ascii) : bool := (97 <=? code c)%N && (code c <=? 122)%N.
Definition is_upper (c : ascii) : bool := (65 <=? code c)%N && (code c <=? 90)%N.

Definition upper_char (c : ascii) : ascii :=
  if is_lower c then ascii_of_N (code c - 32) else c.
Definition lower_char (c : ascii) : ascii :=
  if is_upper c then ascii_of_N (code c + 32) else c.

Fixpoint upper (s : string) : string :=
  match s with
  | EmptyString => EmptyString
  | String c s' => String (upper_char c) (upper s')
  end.

Fixpoint lower (s : string) : string :=
  match s with
  | EmptyString => EmptyString
  | String c s' => String (lower_char c) (lower s')
  end.

(** [str.isspace] on one code point below 256. *)
Definition isspace (c : ascii) : bool :=
  let n := code c in
  ((9 <=? n) && (n <=? 13) || (28 <=? n) && (n <=? 32)
   || (n =? 133) || (n =? 160))%N.

Fixpoint lstrip (s : string) : string :=
  match s with
  | EmptyString => EmptyString
  | String c s' => if isspace c then lstrip s' else s
  end.

(** [rstrip]: a trailing run of whitespace is dropped. *)
Fixpoint rstrip (s : string) : string :=
  match s with
  | EmptyString => EmptyString
  | String c s' =>
      match rstrip s' with
      | EmptyString => if isspace c then EmptyString else String c EmptyString
      | r => String c r
      end
  end.

(** [s.strip()] *)
Definition strip (s : string) : string := rstrip (lstrip s).

(** [s.split(sep)] for a one-character separator: every occurrence
    splits, empty pieces are kept, the result is never empty. *)
Fixpoint split_on (sep : ascii) (s : string) : list string :=
  match s with
  | EmptyString => [EmptyString]
  | String c s' =>
      if Ascii.eqb c sep then EmptyString :: split_on sep s'
      else match split_on sep s' with
           | [] => [String c EmptyString]
           | w :: ws => String c w :: ws
           end
  end.

(** [s.split()]: split on runs of whitespace, no empty pieces.  [cur] is
    the word being read. *)
Fixpoint split_ws_go (cur : string) (s : string) : list string :=
  match s with
  | EmptyString => if String.eqb cur "" then [] else [cur]
  | String c s' =>
      if isspace c
      then (if String.eqb cur "" then split_ws_go "" s'
            else cur :: split_ws_go "" s')
      else split_ws_go (cur ++ String c EmptyString) s'
  end.

Definition split (s : string) : list string := split_ws_go "" s.

(** [sep.join(l)] *)
Fixpoint join (sep : string) (l : list string) : string :=
  match l with
  | [] => ""
  | [w] => w
  | w :: ws => w ++ sep ++ join sep ws
  end.

(** [s[0]] raises [IndexError] on the empty string. *)
Definition index0 (s : string) : result ascii :=
  match s with
  | EmptyString => Raise IndexError
  | String c _ => Ok c
  end.

(** [s[1:]] never raises. *)
Definition tail (s : string) : string :=
  match s with
  | EmptyString => EmptyString
  | String _ s' => s'
  end.

(** A dictionary literal with one-character keys, in written order. *)
Fixpoint lookup_char {V} (d : list (ascii * V)) (k : ascii) : option V :=
  match d with
  | [] => None
  | (k', v) :: d' => if Ascii.eqb k k' then Some v else lookup_char d' k
  end.

(** A dictionary literal with string keys. *)
Fixpoint lookup_str {V} (d : list (string * V)) (k : string) : option V :=
  match d with
  | [] => None
  | (k', v) :: d' => if String.eqb k k' then Some v else lookup_str d' k
  end.

(** [d[k]] raises [KeyError] on a miss. *)
Definition subscript {V} (d : list (ascii * V)) (k : ascii) : result V :=
  match lookup_char d k with
  | Some v => Ok v
  | None => Raise KeyError
  end.

(** [s.endswith(suffix)] *)
Definition endswith (s suffix : string) : bool :=
  let n := String.length s in
  let k := String.length suffix in
  if (n <? k)%nat then false
  else String.eqb (String.substring (n - k) k s) suffix.

(** [s[:-k]] for a positive [k]. *)
Definition drop_last (k : nat) (s : string) : string :=
  String.substring 0 (String.length s - k) s.

(** [l[k]] for a list and a [k] that is not negative. *)
Definition item {A} (l : list A) (k : nat) : result A :=
  match l !! k with
  | Some x => Ok x
  | None => Raise IndexError
  end.

(** [sub in s] for two texts. *)
Fixpoint contains (sub s : string) : bool :=
  String.prefix sub s
  || match s with
     | EmptyString => false
     | String _ s' => contains sub s'
     end.

(** [str(z)], which is also what an f-string writes for an [int]. *)
Definition str_int (z : Z) : string := NilZero.string_of_int (Z.to_int z).

Definition is_digit (c : ascii) : bool := (48 <=? code c)%N && (code c <=? 57)%N.

(** The digits of a decimal literal, most significant first; one [_] may
    stand between two digits.  [acc] is the value read so far, [n] the
    number of digits, and [prev] tells that the character before is a
    digit. *)
Fixpoint int_digits (acc n : Z) (prev : bool) (s : string) : option (Z * Z) :=
  match s with
  | EmptyString => if prev then Some (acc, n) else None
  | String c s' =>
      if is_digit c
      then int_digits (10 * acc + (Z.of_N (code c) - 48)) (n + 1) true s'
      else if Ascii.eqb c "_" && prev then int_digits acc n false s'
      else None
  end.

(** [int(s)] for a text: the whitespace around it is dropped, a sign may
    come first, then the digits.  Any other text raises [ValueError], and
    so does a literal of more than 4300 digits, the interpreter's default
    limit. *)
Definition int_ (s : string) : result Z :=
  let s := strip s in
  let '(neg, body) :=
    match s with
    | String c r =>
        if Ascii.eqb c "-" then (true, r)
        else if Ascii.eqb c "+" then (false, r)
        else (false, s)
    | EmptyString => (false, s)
    end in
  match int_digits 0 0 false body with
  | Some (z, n) =>
      if 4300 <? n then Raise ValueError
      else Ok (if neg : bool then - z else z)
  | None => Raise ValueError
  end.

End Py.

(** ** [grokmidi.py]: note helpers *)

(** One note handed to [MIDIFile.addNote(track, channel, pitch, time,
    duration, volume)]. *)
Record Note : Type := mkNote {
  n_track : nat;
  n_channel : Z;
  n_pitch : Z;
  n_time : Q;
  n_duration : Q;
  n_volume : Z
}.

(** A value stored in a riff dictionary. *)
Inductive val : Type :=
  | VNotes (l : list string)
  | VStr (s : string)
  | VInt (z : Z)
  | VBool (b : bool).

(** The typed view of a riff that the MIDI writers read. *)
Record Riff : Type := mkRiff {
  notes : list string;
  duration : string;
  c_scale : Z;
  strum : bool
}.

Module grokmidi.

Definition NOTE_MAP : list (ascii * Z) :=
  [("C"%char, 0); ("D"%char, 2); ("E"%char, 4); ("F"%char, 5);
   ("G"%char, 7); ("A"%char, 9); ("B"%char, 11)].

Definition ACC_MAP : list (ascii * Z) :=
  [("#"%char, 1); ("B"%char, -1); ("b"%char, -1)].

Definition DRUM_MAP : list (ascii * Z) :=
  [("K"%char, 35); ("S"%char, 38); ("H"%char, 42)].

(** [midi_from_str(note_str, c_scale)]; [None] is the rest. *)
Definition midi_from_str (note_str : string) (c_scale : Z) : result (option Z) :=
  if String.eqb (Py.upper note_str) "R" then Ok None
  else
    c0 ←? Py.index0 note_str;
    match Py.lookup_char DRUM_MAP (Py.upper_char c0) with
    | Some p => Ok (Some p)
    | None =>
        let letter := Py.upper_char c0 in
        let mod_ := Py.lower (Py.tail note_str) in
        base ←? Py.subscript NOTE_MAP letter;
        let base :=
          match mod_ with
          | String m _ =>
              match Py.lookup_char ACC_MAP m with
              | Some d => base + d
              | None => base
              end
          | EmptyString => base
          end in
        let base := base mod 12 in
        Ok (Some (c_scale + base))
    end.

(** [staff_pos(letter, c_scale)].  The drum test is on [letter] as
    given, the table lookup on [letter.upper()]; the callers pass one
    character. *)
Definition staff_pos (letter : ascii) (c_scale : Z) : result Z :=
  match Py.lookup_char DRUM_MAP letter with
  | Some _ => Ok 6
  | None =>
      let octave := c_scale / 12 in
      p ←? Py.subscript NOTE_MAP (Py.upper_char letter);
      Ok (p + (octave - 4) * 7)
  end.

(** [get_duration(val)]: [d.get(val, 1)]. *)
Definition durations : list (string * Q) :=
  [("1s", 4); ("2", 2); ("4s", 1); ("8s", 1 # 2); ("16s", 1 # 4);
   ("32s", 1 # 8)]%Q.

Definition get_duration (v : string) : Q :=
  default 1%Q (Py.lookup_str durations v).

(** *** The MIDI writer loop

    [export_midi] and [_play_midi] run the same loop for every track:
    [time_pos] starts at 0 and the notes are added to the [MIDIFile] in
    order.  The loop state is the list of notes added so far and
    [time_pos]; an exception of [midi_from_str] leaves the loop. *)

Definition channel_of (prog : Z) : Z := if prog =? 35 then 9 else 0.

(** [for j, p in enumerate(pitches)], from index [j] on. *)
Fixpoint add_notes (t_idx : nat) (prog : Z) (delay time_pos dur : Q)
    (j : nat) (pitches : list (option Z)) : list Note :=
  match pitches with
  | [] => []
  | None :: ps => add_notes t_idx prog delay time_pos dur (S j) ps
  | Some p :: ps =>
      let offset := (delay * inject_Z (Z.of_nat j))%Q in
      mkNote t_idx (channel_of prog) p (time_pos + offset)%Q dur 100
      :: add_notes t_idx prog delay time_pos dur (S j) ps
  end.

(** The notes one note group emits at [time_pos]. *)
Definition group_notes (t_idx : nat) (prog c_scale : Z) (delay dur : Q)
    (time_pos : Q) (ng : string) : result (list Note) :=
  let subs := Py.split_on "+" ng in
  pitches ←? mapR (fun s => midi_from_str s c_scale) subs;
  Ok (add_notes t_idx prog delay time_pos dur 0 pitches).

(** The body of [for ng in riff['notes']]. *)
Definition group_step (t_idx : nat) (prog c_scale : Z) (delay dur : Q)
    (st : list Note * Q) (ng : string) : result (list Note * Q) :=
  let '(added, time_pos) := st in
  if String.eqb (Py.upper ng) "R" then Ok (added, (time_pos + dur)%Q)
  else
    ns ←? group_notes t_idx prog c_scale delay dur time_pos ng;
    Ok (added ++ ns, (time_pos + dur)%Q).

Fixpoint foldR {A S} (f : S → A → result S) (st : S) (l : list A) : result S :=
  match l with
  | [] => Ok st
  | a :: l' => st' ←? f st a; foldR f st' l'
  end.

(** The body of [for card in ...]: one riff. *)
Definition riff_step (t_idx : nat) (prog c_scale : Z)
    (st : list Note * Q) (riff : Riff) : result (list Note * Q) :=
  match notes riff with
  | [] => Ok st
  | _ =>
      let dur := get_duration (duration riff) in
      let delay := (if strum riff then 3 # 100 else 0)%Q in
      foldR (group_step t_idx prog c_scale delay dur) st (notes riff)
  end.

(** One track: the notes added and the final [time_pos]. *)
Definition export_track (t_idx : nat) (prog c_scale : Z)
    (riffs : list Riff) : result (list Note * Q) :=
  foldR (riff_step t_idx prog c_scale) ([], 0%Q) riffs.

(** *** Riff cards

    The dictionaries are objects in [store], a map from locations to
    dictionaries; [riff] is the location of [card.riff], which is only
    ever mutated in place, and [song_data[t][i]] holds a location too.
    A new object takes a location that is not in use.  One card is
    followed: its history, entry and strum box are part of the state.  Of
    the two other cards of its track ([TrackRow.__init__] makes three)
    the state keeps the riff objects, in card order, in [others]; the
    cards of the other tracks only contribute their slots of
    [song_data]. *)

Definition riff_dict (r : Riff) : gmap string val :=
  <["notes" := VNotes (notes r)]>
    (<["duration" := VStr (duration r)]>
       (<["c_scale" := VInt (c_scale r)]>
          (<["strum" := VBool (strum r)]> ∅))).

Record RiffCard : Type := mkCard {
  track : nat;
  idx : nat;
  riff : nat;
  history : list (gmap string val);
  redo_stack : list (gmap string val);
  entry : string;
  strum_var : bool
}.

Record App : Type := mkApp {
  store : gmap nat (gmap string val);
  song_data : list (list nat);
  global_bpm : Z;
  is_drum : bool;
  card : RiffCard;
  others : nat * nat
}.

Inductive outcome : Type :=
  | Returned
  | Raised (e : exn).

Definition outcome_of {A} (r : result A) : outcome :=
  match r with
  | Ok _ => Returned
  | Raise e => Raised e
  end.

Definition the_riff (a : App) : gmap string val := store a !!! riff (card a).

Definition set_riff (a : App) (d : gmap string val) : App :=
  mkApp (<[riff (card a) := d]> (store a)) (song_data a) (global_bpm a)
        (is_drum a) (card a) (others a).

Definition set_card (a : App) (c : RiffCard) : App :=
  mkApp (store a) (song_data a) (global_bpm a) (is_drum a) c (others a).

(** The riff objects of the three cards of the track, in card order: the
    card followed sits at [idx]. *)
Definition row_riffs (a : App) : list nat :=
  let '(o1, o2) := others a in
  take (idx (card a)) [o1; o2] ++ riff (card a) :: drop (idx (card a)) [o1; o2].

(** A write to the riff object at [l], of any card. *)
Definition set_at (a : App) (l : nat) (d : gmap string val) : App :=
  mkApp (<[l := d]> (store a)) (song_data a) (global_bpm a) (is_drum a)
        (card a) (others a).

(** Typed reads of a riff dictionary; a dictionary of the program always
    has these entries, and one without them raises [KeyError]. *)
Definition get_notes (d : gmap string val) : result (list string) :=
  match d !! "notes" with
  | Some (VNotes l) => Ok l
  | _ => Raise KeyError
  end.

Definition get_c_scale (d : gmap string val) : result Z :=
  match d !! "c_scale" with
  | Some (VInt z) => Ok z
  | _ => Raise KeyError
  end.

Definition get_text (d : gmap string val) : result string :=
  match d !! "text" with
  | Some (VStr s) => Ok s
  | _ => Raise KeyError
  end.

Definition get_strum (d : gmap string val) : result bool :=
  match d !! "strum" with
  | Some (VBool b) => Ok b
  | _ => Raise KeyError
  end.

(** What [draw_staff] can raise on the card's riff: it draws, and reads
    [s[0]] and [staff_pos] of every subnote on the way. *)
Definition draw_sub (drum : bool) (c : Z) (s : string) : result unit :=
  c0 ←? Py.index0 s;
  if drum then Ok tt
  else _ ←? staff_pos (Py.upper_char c0) c; Ok tt.

Definition draw_group (drum : bool) (c : Z) (ng : string) : result unit :=
  if String.eqb (Py.upper ng) "R" then Ok tt
  else _ ←? mapR (draw_sub drum c) (Py.split_on "+" ng); Ok tt.

Definition draw_staff (a : App) : outcome :=
  outcome_of (ns ←? get_notes (the_riff a);
              c ←? get_c_scale (the_riff a);
              mapR (draw_group (is_drum a) c) ns).

(** [draw_staff] of any card of the track, on that card's riff [d]: the
    cards of one track share the instrument box. *)
Definition draw_riff (drum : bool) (d : gmap string val) : outcome :=
  outcome_of (ns ←? get_notes d;
              c ←? get_c_scale d;
              mapR (draw_group drum c) ns).

(** [RiffCard.save_state]: the snapshot is a copy of the riff with the
    entry text and the strum box added; it is appended to [history] and
    [redo_stack] is cleared. *)
Definition snapshot (a : App) : gmap string val :=
  <["strum" := VBool (strum_var (card a))]>
    (<["text" := VStr (entry (card a))]> (the_riff a)).

Definition save_state (a : App) : App :=
  let c := card a in
  set_card a (mkCard (track c) (idx c) (riff c)
                     (history c ++ [snapshot a]) []
                     (entry c) (strum_var c)).

(** [riff.update(prev)]: the entries of [prev] win. *)
Definition update (d prev : gmap string val) : gmap string val := prev ∪ d.

(** The tail of [undo] and [redo] once the state [st] to restore is
    known and the stacks are already changed: [riff.update(st)], the
    entry is emptied and filled with [st['text']], the strum box is set,
    the staff is redrawn.  Each step keeps the writes of the steps before
    it when it raises. *)
Definition restore (a : App) (st : gmap string val) : App * outcome :=
  let a1 := set_riff a (update (the_riff a) st) in
  let c := card a1 in
  let a2 := set_card a1 (mkCard (track c) (idx c) (riff c) (history c)
                                (redo_stack c) "" (strum_var c)) in
  match get_text st with
  | Raise e => (a2, Raised e)
  | Ok t =>
      let a3 := set_card a2 (mkCard (track c) (idx c) (riff c) (history c)
                                    (redo_stack c) t (strum_var c)) in
      match get_strum st with
      | Raise e => (a3, Raised e)
      | Ok b =>
          let a4 := set_card a3 (mkCard (track c) (idx c) (riff c)
                                        (history c) (redo_stack c) t b) in
          (a4, draw_staff a4)
      end
  end.

(** [l.pop()] on a non-empty list: the list without its last element,
    and that element. *)
Definition pop {A} (l : list A) : option (list A * A) :=
  match reverse l with
  | [] => None
  | x :: r => Some (reverse r, x)
  end.

(** [RiffCard.undo] *)
Definition undo (a : App) : App * outcome :=
  let c := card a in
  if decide (1 < length (history c))%nat then
    match pop (history c) with
    | None => (a, Raised IndexError)
    | Some (h, top) =>
        let a1 := set_card a (mkCard (track c) (idx c) (riff c) h
                                     (redo_stack c ++ [top])
                                     (entry c) (strum_var c)) in
        match last h with
        | None => (a1, Raised IndexError)
        | Some prev => restore a1 prev
        end
    end
  else (a, Returned).

(** [RiffCard.redo] *)
Definition redo (a : App) : App * outcome :=
  let c := card a in
  match pop (redo_stack c) with
  | None => (a, Returned)
  | Some (r, state) =>
      let a1 := set_card a (mkCard (track c) (idx c) (riff c)
                                   (history c ++ [state]) r
                                   (entry c) (strum_var c)) in
      restore a1 state
  end.

(** [song_data[t][i] = l] *)
Definition set_slot (sd : list (list nat)) (t i l : nat)
    : result (list (list nat)) :=
  match sd !! t with
  | None => Raise IndexError
  | Some row =>
      if decide (i < length row)%nat then Ok (<[t := <[i := l]> row]> sd)
      else Raise IndexError
  end.

(** [RiffCard.save_riff] *)
Definition save_riff (a : App) : App * outcome :=
  let a := save_state a in
  let c := card a in
  let txt := Py.strip (entry c) in
  if String.eqb txt "" then (a, Returned)
  else
    let notes := Py.split txt in
    let a := set_riff a (<["notes" := VNotes notes]> (the_riff a)) in
    let a := set_riff a (<["duration" := VStr "4s"]> (the_riff a)) in
    let a := set_riff a (<["strum" := VBool (strum_var c)]> (the_riff a)) in
    (* the copy is a new object; the slot now names it *)
    let l := fresh (dom (store a)) in
    match set_slot (song_data a) (track c) (idx c) l with
    | Raise e => (a, Raised e)
    | Ok sd =>
        let a := mkApp (<[l := the_riff a]> (store a)) sd (global_bpm a)
                       (is_drum a) (card a) (others a) in
        (a, draw_staff a)
    end.

(** The loop of [TrackRow.update_c_scale] over the riff objects of the
    track's cards: each gets the new anchor and its staff is redrawn; a
    [draw_staff] that raises ends the loop, and the cards after it keep
    their anchor. *)
Fixpoint update_cards (c_midi : Z) (cards : list nat) (a : App)
    : App * outcome :=
  match cards with
  | [] => (a, Returned)
  | l :: cards' =>
      let a := set_at a l (<["c_scale" := VInt c_midi]> (store a !!! l)) in
      match draw_riff (is_drum a) (store a !!! l) with
      | Returned => update_cards c_midi cards' a
      | Raised e => (a, Raised e)
      end
  end.

(** [TrackRow.update_c_scale] of the card's track; [c_midi] is the number
    in the label picked in the scale box. *)
Definition update_c_scale (c_midi : Z) (a : App) : App * outcome :=
  update_cards c_midi (row_riffs a) a.

(** The user types into the entry, or ticks the strum box. *)
Definition type_entry (s : string) (a : App) : App :=
  let c := card a in
  set_card a (mkCard (track c) (idx c) (riff c) (history c) (redo_stack c)
                     s (strum_var c)).

Definition tick_strum (b : bool) (a : App) : App :=
  let c := card a in
  set_card a (mkCard (track c) (idx c) (riff c) (history c) (redo_stack c)
                     (entry c) b).

(** [save_song]: the payload handed to [json.dump]. *)
Record Payload : Type := mkPayload {
  bpm : Z;
  tracks : list (list (gmap string val))
}.

Definition save_song (a : App) : Payload :=
  mkPayload (global_bpm a)
            ((fun row : list nat => (fun l => store a !!! l) <$> row)
               <$> song_data a).

(** The application as [CardWriterApp.__init__] leaves it: four tracks
    of three cards; [TrackRow.__init__] stores each card's own riff
    object into [song_data], so slot and card name one dictionary.  The
    card followed is card [i] of track [t]. *)
Definition empty_riff : Riff := mkRiff [] "4s" 60 false.

Definition init_app (t i : nat) (drum : bool) : App :=
  mkApp (list_to_map ((fun l => (l, riff_dict empty_riff)) <$> seq 0 12))
        [[0; 1; 2]; [3; 4; 5]; [6; 7; 8]; [9; 10; 11]]%nat
        120 drum
        (mkCard t i (3 * t + i) [] [] "" false)
        (match i with
         | 0 => (3 * t + 1, 3 * t + 2)
         | 1 => (3 * t, 3 * t + 2)
         | _ => (3 * t, 3 * t + 1)
         end)%nat.

(** The user's operations on the card, and on the scale box of its
    track. *)
Inductive op : Type :=
  | Type_ (s : string)
  | Tick (b : bool)
  | SaveRiff
  | Undo
  | Redo
  | CScale (c_midi : Z).

Definition step (a : App) (o : op) : App :=
  match o with
  | Type_ s => type_entry s a
  | Tick b => tick_strum b a
  | SaveRiff => fst (save_riff a)
  | Undo => fst (undo a)
  | Redo => fst (redo a)
  | CScale c => fst (update_c_scale c a)
  end.

Definition run (ops : list op) (a : App) : App := fold_left step ops a.

(** *** The other note helpers *)

(** [accidental_sym(note_str)]: the sign drawn before a note. *)
Definition accidental_sym (note_str : string) : string :=
  match note_str with
  | String _ (String c1 _) =>
      if existsb (Ascii.eqb c1) (String.list_ascii_of_string "#Bb")
      then (if Ascii.eqb c1 "#" then "#" else "b")
      else ""
  | _ => ""
  end.

Definition CHORD_LIB : list (string * list string) :=
  [("C", ["C"; "E"; "G"]); ("Cm", ["C"; "Eb"; "G"]);
   ("C7", ["C"; "E"; "G"; "Bb"]); ("Cm7", ["C"; "Eb"; "G"; "Bb"]);
   ("D", ["D"; "F#"; "A"]); ("Dm", ["D"; "F"; "A"]);
   ("G", ["G"; "B"; "D"]); ("Gm", ["G"; "Bb"; "D"]);
   ("Am", ["A"; "C"; "E"]); ("A7", ["A"; "C#"; "E"; "G"]);
   ("F", ["F"; "A"; "C"]); ("Fm", ["F"; "Ab"; "C"])].

(** *** [grokify_riff]

    The random module is an input: one [Draw] holds what one turn of the
    loop may ask of it, and [random.randint(4, 8)] is the number of
    draws.  [random.choice] takes the element at the drawn index, reduced
    to the length of the sequence. *)
Record Draw : Type := mkDraw {
  rest_roll : Q;
  chord_roll : Q;
  chord_pick : nat;
  letter_pick : nat;
  acc_roll : Q;
  acc_pick : nat
}.

Definition choice {A} (d : A) (l : list A) (k : nat) : A :=
  nth (k mod length l) l d.

Definition grokify_note (d : Draw) : string :=
  if Qlt_le_dec (rest_roll d) (15 # 100) then "R"
  else if Qlt_le_dec (chord_roll d) (3 # 10)
  then Py.join "+" (choice [] (map snd CHORD_LIB) (chord_pick d))
  else
    let letter :=
      String (choice "C"%char (String.list_ascii_of_string "CDEFGAB")
                (letter_pick d)) "" in
    if Qlt_le_dec (acc_roll d) (3 # 10)
    then (letter ++ choice "" ["#"; "b"] (acc_pick d))%string
    else letter.

Definition grokify_riff (draws : list Draw) : string :=
  Py.join " " (map grokify_note draws).

(** [RiffCard.grokify] *)
Definition grokify (draws : list Draw) (a : App) : App * outcome :=
  let a := save_state a in
  let riff := grokify_riff draws in
  let a := type_entry riff a in
  save_riff a.

(** *** The point-and-click editor

    The editor works on its own copy of the notes.  [on_click] gets the
    rounded coordinates of a click inside the axes; the staff is redrawn
    after the list is changed, so what drawing raises comes with the
    changed list. *)

(** [l[x] = v] with Python's negative indices. *)
Definition setitem {A} (l : list A) (x : Z) (v : A) : result (list A) :=
  let n := Z.of_nat (length l) in
  if (0 <=? x) && (x <? n) then Ok (<[Z.to_nat x := v]> l)
  else if (- n <=? x) && (x <? 0) then Ok (<[Z.to_nat (n + x) := v]> l)
  else Raise IndexError.

(** [s[k]] with Python's negative indices. *)
Definition getitem (s : string) (k : Z) : result ascii :=
  let n := Z.of_nat (String.length s) in
  let k' := if k <? 0 then n + k else k in
  if (0 <=? k') && (k' <? n)
  then match String.get (Z.to_nat k') s with
       | Some c => Ok c
       | None => Raise IndexError
       end
  else Raise IndexError.

Definition editor_draw (c : Z) (ns : list string) : outcome :=
  outcome_of (mapR (draw_group false c) ns).

Definition on_click (c : Z) (x y : Z) (ns : list string)
    : list string * outcome :=
  if (y <? 2) || (10 <? y) then (ns, Returned)
  else
    let rel := y - 6 in
    let step_ := rel mod 7 in
    let letters := "CDEFGAB" in
    match (if 0 <=? step_ then getitem letters step_
           else getitem letters (step_ + 7)) with
    | Raise e => (ns, Raised e)
    | Ok letter =>
        let note := String letter "" in
        if x <? Z.of_nat (length ns)
        then match setitem ns x note with
             | Raise e => (ns, Raised e)
             | Ok ns' => (ns', editor_draw c ns')
             end
        else let ns' := ns ++ [note] in (ns', editor_draw c ns')
    end.

(** [RiffCard.p2p_edit]: the snapshot, then the editor opens on a copy of
    the notes and draws them. *)
Definition p2p_edit (a : App) : App * result (list string) :=
  let a := save_state a in
  (a, ns ←? get_notes (the_riff a);
      c ←? get_c_scale (the_riff a);
      _ ←? mapR (draw_group false c) ns;
      Ok ns).

(** [P2PStaffEditor.done] with the editor's notes [ns]. *)
Definition p2p_done (ns : list string) (a : App) : App * outcome :=
  let a := set_riff a (<["notes" := VNotes ns]> (the_riff a)) in
  let a := type_entry (Py.join " " ns) a in
  (a, draw_staff a).

(** *** New song *)

(** New dictionary objects, one after the other. *)
Fixpoint alloc_row (st : gmap nat (gmap string val))
    (ds : list (gmap string val)) : gmap nat (gmap string val) * list nat :=
  match ds with
  | [] => (st, [])
  | d :: ds' =>
      let l := fresh (dom st) in
      let '(st', ls) := alloc_row (<[l := d]> st) ds' in
      (st', l :: ls)
  end.

Fixpoint alloc_rows (st : gmap nat (gmap string val))
    (rows : list (list (gmap string val)))
    : gmap nat (gmap string val) * list (list nat) :=
  match rows with
  | [] => (st, [])
  | r :: rows' =>
      let '(st1, ls) := alloc_row st r in
      let '(st2, lss) := alloc_rows st1 rows' in
      (st2, ls :: lss)
  end.

(** [card.riff.update(self.song_data[t][k])] for the cards of track [t]
    from card [k] on, [cards] being their riff objects. *)
Fixpoint reset_cards (t k : nat) (cards : list nat) (a : App)
    : App * outcome :=
  match cards with
  | [] => (a, Returned)
  | l :: cards' =>
      match song_data a !! t ≫= (.!! k) with
      | None => (a, Raised IndexError)
      | Some s =>
          reset_cards t (S k) cards'
            (set_at a l (update (store a !!! l) (store a !!! s)))
      end
  end.

(** [CardWriterApp.new_song]; [yes] is the answer to the dialog and
    [n_tracks] the number of track rows.  [song_data] becomes four rows of
    three new default riffs, then every card of every track is reset in
    track order: a fifth track has no row and raises.  The cards of the
    card's track are reset when their turn comes before that; of the card
    followed the history, the redo stack and the entry are emptied as
    well. *)
Definition new_song (yes : bool) (n_tracks : nat) (a : App) : App * outcome :=
  if yes then
    let '(st, sd) :=
      alloc_rows (store a)
        (replicate 4 (replicate 3 (riff_dict empty_riff))) in
    let a := mkApp st sd (global_bpm a) (is_drum a) (card a) (others a) in
    let c := card a in
    match reset_cards (track c) 0 (row_riffs a) a with
    | (a, Raised e) => (a, Raised e)
    | (a, Returned) =>
        let a := set_card a (mkCard (track c) (idx c) (riff c) [] [] ""
                                    (strum_var c)) in
        if decide (n_tracks ≤ 4)%nat then (a, Returned)
        else (a, Raised IndexError)
    end
  else (a, Returned).

(** *** All tracks

    [export_midi] and [_play_midi] go through the tracks in order; a track
    is its program, its scale anchor and the riffs of its cards. *)
Fixpoint export_tracks (t_idx : nat) (tracks : list (Z * Z * list Riff))
    : result (list Note) :=
  match tracks with
  | [] => Ok []
  | (prog, c, riffs) :: tracks' =>
      r ←? export_track t_idx prog c riffs;
      rest ←? export_tracks (S t_idx) tracks';
      Ok (fst r ++ rest)
  end.

Definition export_midi (tracks : list (Z * Z * list Riff)) : result (list Note) :=
  export_tracks 0 tracks.

End grokmidi.

(** ** [midigimp.py] *)

Module midigimp.

Definition note_map : list (ascii * Z) :=
  [("C"%char, 0); ("D"%char, 2); ("E"%char, 4); ("F"%char, 5);
   ("G"%char, 7); ("A"%char, 9); ("B"%char, 11)].

Definition pos_map : list (ascii * Z) :=
  [("C"%char, 0); ("D"%char, 1); ("E"%char, 2); ("F"%char, 3);
   ("G"%char, 4); ("A"%char, 5); ("B"%char, 6)].

(** [letter in 'ABCDEFG'] for a one-character [letter]. *)
Definition in_letters (letter : ascii) : bool :=
  existsb (Ascii.eqb letter) (String.list_ascii_of_string "ABCDEFG").

(** [modifier in ('#', 'b', '%')] *)
Definition in_modifiers (modifier : string) : bool :=
  String.eqb modifier "#" || String.eqb modifier "b"
  || String.eqb modifier "%".

(** [get_midi_note(note_str, octave)] *)
Definition get_midi_note (note_str : string) (octave : Z) : result (option Z) :=
  let note_str_upper := Py.upper note_str in
  if String.eqb note_str_upper "R" then Ok None
  else
    c0 ←? Py.index0 note_str;
    let letter := Py.upper_char c0 in
    let modifier := Py.lower (Py.tail note_str) in
    if negb (in_letters letter) then Raise ValueError
    else if negb (String.eqb modifier "") && negb (in_modifiers modifier)
    then Raise ValueError
    else
      base ←? Py.subscript note_map letter;
      let base :=
        if String.eqb modifier "#" then base + 1
        else if String.eqb modifier "b" || String.eqb modifier "%"
        then base - 1
        else base in
      let base := base mod 12 in
      Ok (Some ((octave + 1) * 12 + base)).

(** [get_staff_position(letter, octave)] *)
Definition get_staff_position (letter : ascii) (octave : Z) : result Z :=
  p ←? Py.subscript pos_map letter;
  Ok (p + (octave - 4) * 7).

Definition durations : list (string * Q) :=
  [("1s", 4); ("2", 2); ("4s", 1); ("8s", 1 # 2); ("16s", 1 # 4);
   ("32s", 1 # 8)]%Q.

Definition get_duration (value : string) : Q :=
  default 1%Q (Py.lookup_str durations value).

(** *** Committing a riff

    The widgets that matter are the notes entry and the three read-only
    boxes, each holding the text of its selection; the list box, which
    mirrors [riffs] as text, is left out. *)

Record Riff : Type := mkRiff {
  notes : list string;
  duration : string;
  octave : Z;
  instrument : Z
}.

Record MidiWriterApp : Type := mkApp {
  riffs : list Riff;
  editing_index : option nat;
  notes_entry : string;
  duration_combo : string;
  octave_combo : string;
  instrument_combo : string
}.

(** The choices of the octave and instrument boxes. *)
Definition octave_options : list string :=
  ["Low (2)"; "Mid-low (3)"; "Middle (4)"; "Mid-high (5)"; "High (6)";
   "Very High (7)"].

Definition instrument_options : list string :=
  ["Acoustic Grand Piano (0)"; "Bright Acoustic Piano (1)";
   "Electric Guitar (clean) (27)"; "Violin (40)"; "Synth Drum (118)"].

(** [combo.current(k)]: the box shows its [k]-th choice. *)
Definition current (values : list string) (k : nat) : string :=
  nth k values "".

(** The text handed to [messagebox.showerror]. *)
Inductive message : Type :=
  | EnterSomeNotes
  | InvalidNoteLetter (letter : ascii) (sub : string)
  | InvalidModifier (m : ascii) (sub : string)
  | NoteTooLong (sub : string).

Inductive outcome : Type :=
  | Saved
  | ShowError (m : message)
  | Raised (e : exn).

(** The checks on one subnote: [None] when it passes. *)
Definition check_sub (sub : string) : option outcome :=
  match sub with
  | EmptyString => Some (Raised IndexError)
  | String c0 rest =>
      let letter := Py.upper_char c0 in
      if negb (in_letters letter)
      then Some (ShowError (InvalidNoteLetter letter sub))
      else
        match rest with
        | EmptyString => None
        | String c1 rest' =>
            let m := Py.lower_char c1 in
            if negb (in_modifiers (String m EmptyString))
            then Some (ShowError (InvalidModifier m sub))
            else
              match rest' with
              | EmptyString => None
              | _ => Some (ShowError (NoteTooLong sub))
              end
        end
  end.

(** The first check that stops, in scan order. *)
Fixpoint first_stop {A} (f : A → option outcome) (l : list A) : option outcome :=
  match l with
  | [] => None
  | a :: l' =>
      match f a with
      | Some o => Some o
      | None => first_stop f l'
      end
  end.

Definition check_group (note_group : string) : option outcome :=
  if String.eqb (Py.upper note_group) "R" then None
  else first_stop check_sub (Py.split_on "+" note_group).

Definition validate (notes : list string) : option outcome :=
  first_stop check_group notes.

(** [int(octave_str.split('(')[1][0])]: the first character after the
    first parenthesis. *)
Definition parse_octave (octave_str : string) : result Z :=
  part ←? Py.item (Py.split_on "(" octave_str) 1;
  c ←? Py.index0 part;
  Py.int_ (String c EmptyString).

(** [int(instrument_str.split('(')[1][:-1])]: what stands between the
    first parenthesis and the second, less its last character. *)
Definition parse_instrument (instrument_str : string) : result Z :=
  part ←? Py.item (Py.split_on "(" instrument_str) 1;
  Py.int_ (Py.drop_last 1 part).

(** [_save_or_update_riff(add_new)]; the two numbers are read from the
    boxes before the notes are checked, and an exception there leaves
    the method with nothing written. *)
Definition _save_or_update_riff (add_new : bool) (a : MidiWriterApp)
    : MidiWriterApp * outcome :=
  let notes_str := Py.strip (notes_entry a) in
  if String.eqb notes_str "" then (a, ShowError EnterSomeNotes)
  else
    let duration := duration_combo a in
    match parse_octave (octave_combo a) with
    | Raise e => (a, Raised e)
    | Ok octave =>
        match parse_instrument (instrument_combo a) with
        | Raise e => (a, Raised e)
        | Ok instrument =>
            let notes := Py.split notes_str in
            match validate notes with
            | Some o => (a, o)
            | None =>
                let riff := mkRiff notes duration octave instrument in
                match add_new, editing_index a with
                | false, Some index =>
                    if decide (index < length (riffs a))%nat
                    then (mkApp (<[index := riff]> (riffs a)) None ""
                                (duration_combo a) (octave_combo a)
                                (instrument_combo a), Saved)
                    else (a, Raised IndexError)
                | _, _ =>
                    (mkApp (riffs a ++ [riff]) (editing_index a) ""
                           (duration_combo a) (octave_combo a)
                           (instrument_combo a), Saved)
                end
            end
        end
    end.

(** *** The other buttons *)

(** The choices of the duration box. *)
Definition duration_options : list string :=
  ["1s"; "2"; "4s"; "8s"; "16s"; "32s"].

(** [add_new_riff]: the form is reset to an empty entry, the third
    duration, the third octave and the first instrument. *)
Definition add_new_riff (a : MidiWriterApp) : MidiWriterApp :=
  mkApp (riffs a) None "" (current duration_options 2)
        (current octave_options 2) (current instrument_options 0).

Definition save_riff (a : MidiWriterApp) : MidiWriterApp * outcome :=
  _save_or_update_riff true a.

Definition update_riff (a : MidiWriterApp) : MidiWriterApp * outcome :=
  _save_or_update_riff false a.

(** [[opt for opt in options if f"({n})" in opt]] *)
Definition options_with (n : Z) (options : list string) : list string :=
  List.filter (Py.contains ("(" ++ Py.str_int n ++ ")")%string) options.

Inductive selection : Type :=
  | Done
  | SelectARiff.

(** [edit_riff]; [sel] is the selected line of the list box, if any.  An
    [IndexError] anywhere in the body shows "Select a riff to edit!" and
    keeps what was assigned before it. *)
Definition edit_riff (sel : option nat) (a : MidiWriterApp)
    : MidiWriterApp * selection :=
  match sel with
  | None => (a, SelectARiff)
  | Some index =>
      match riffs a !! index with
      | None => (a, SelectARiff)
      | Some riff =>
          let a1 := mkApp (riffs a) (Some index) (Py.join " " (notes riff))
                          (duration riff) (octave_combo a)
                          (instrument_combo a) in
          match options_with (octave riff) octave_options with
          | [] => (a1, SelectARiff)
          | octave_opt :: _ =>
              let a2 := mkApp (riffs a1) (editing_index a1) (notes_entry a1)
                              (duration_combo a1) octave_opt
                              (instrument_combo a1) in
              match options_with (instrument riff) instrument_options with
              | [] => (a2, SelectARiff)
              | instrument_opt :: _ =>
                  (mkApp (riffs a2) (editing_index a2) (notes_entry a2)
                         (duration_combo a2) (octave_combo a2)
                         instrument_opt, Done)
              end
          end
      end
  end.

(** [delete_riff]: [editing_index] is not touched. *)
Definition delete_riff (sel : option nat) (a : MidiWriterApp)
    : MidiWriterApp * selection :=
  match sel with
  | None => (a, SelectARiff)
  | Some index =>
      if decide (index < length (riffs a))%nat
      then (mkApp (delete index (riffs a)) (editing_index a) (notes_entry a)
                  (duration_combo a) (octave_combo a) (instrument_combo a),
            Done)
      else (a, SelectARiff)
  end.

(** *** Writing the riffs

    [export_midi] and [_play_preview] run the same loop over [riffs], on
    track 0 and channel 0 with volume 100.  An event is a program change or
    a note; the pitch is what [get_midi_note] returned. *)
Inductive event : Type :=
  | ProgramChange (time : Q) (program : Z)
  | AddNote (pitch : option Z) (time : Q) (dur : Q).

Definition group_step (oct : Z) (dur : Q) (st : list event * Q)
    (note_group : string) : result (list event * Q) :=
  let '(evs, time_pos) := st in
  if String.eqb (Py.upper note_group) "R" then Ok (evs, (time_pos + dur)%Q)
  else
    pitches ←? mapR (fun sub => get_midi_note sub oct)
                    (Py.split_on "+" note_group);
    Ok (evs ++ map (fun p => AddNote p time_pos dur) pitches,
        (time_pos + dur)%Q).

Definition riff_step (st : list event * Q * option Z) (riff : Riff)
    : result (list event * Q * option Z) :=
  let '(evs, time_pos, current_instrument) := st in
  let evs :=
    if bool_decide (current_instrument = Some (instrument riff)) then evs
    else evs ++ [ProgramChange time_pos (instrument riff)] in
  let dur := get_duration (duration riff) in
  st' ←? grokmidi.foldR (group_step (octave riff) dur) (evs, time_pos)
                        (notes riff);
  Ok (fst st', snd st', Some (instrument riff)).

Definition write_riffs (rs : list Riff) : result (list event * Q * option Z) :=
  grokmidi.foldR riff_step ([], 0%Q, None) rs.

(** [total_beats] of [_play_preview]: [sum(get_duration(r['duration']) *
    len(r['notes']) for r in self.riffs)]. *)
Definition total_beats (rs : list Riff) : Q :=
  fold_left
    (fun acc r =>
       (acc + get_duration (duration r)
              * inject_Z (Z.of_nat (length (notes r))))%Q)
    rs 0%Q.

(** [file_name] of [export_midi]: the name it opens for writing and shows
    in its message, from the text of the name entry. *)
Definition midi_file_name (entry : string) : string :=
  let file_name := Py.strip entry in
  let file_name :=
    if negb (Py.endswith file_name ".mid") then (file_name ++ ".mid")%string
    else file_name in
  if String.eqb file_name "" then "song.mid" else file_name.

(** [pdf_name] of [export_sheet]: the name it hands to [fig.savefig] and
    shows in its message.  Which file the figure library creates for a
    name is not part of the model. *)
Definition sheet_file_name (entry : string) : string :=
  let file_name := Py.strip entry in
  let file_name :=
    if Py.endswith file_name ".mid" then Py.drop_last 4 file_name
    else file_name in
  (file_name ++ ".pdf")%string.

(** The application when it opens, and the user's operations; in the
    octave and instrument boxes the user picks a choice by its place in
    the list. *)
Definition init_app : MidiWriterApp :=
  mkApp [] None "" (current duration_options 2) (current octave_options 2)
        (current instrument_options 0).

Inductive op : Type :=
  | NewRiff
  | TypeNotes (s : string)
  | PickDuration (d : string)
  | PickOctave (k : nat)
  | PickInstrument (k : nat)
  | SaveRiff
  | UpdateRiff
  | EditRiff (sel : option nat)
  | DeleteRiff (sel : option nat).

Definition step (a : MidiWriterApp) (o : op) : MidiWriterApp :=
  match o with
  | NewRiff => add_new_riff a
  | TypeNotes s =>
      mkApp (riffs a) (editing_index a) s (duration_combo a) (octave_combo a)
            (instrument_combo a)
  | PickDuration d =>
      mkApp (riffs a) (editing_index a) (notes_entry a) d (octave_combo a)
            (instrument_combo a)
  | PickOctave k =>
      match octave_options !! k with
      | Some opt =>
          mkApp (riffs a) (editing_index a) (notes_entry a) (duration_combo a)
                opt (instrument_combo a)
      | None => a
      end
  | PickInstrument k =>
      match instrument_options !! k with
      | Some opt =>
          mkApp (riffs a) (editing_index a) (notes_entry a) (duration_combo a)
                (octave_combo a) opt
      | None => a
      end
  | SaveRiff => fst (save_riff a)
  | UpdateRiff => fst (update_riff a)
  | EditRiff sel => fst (edit_riff sel a)
  | DeleteRiff sel => fst (delete_riff sel a)
  end.

Definition run (ops : list op) (a : MidiWriterApp) : MidiWriterApp :=
  fold_left step ops a.

(** *** The sheet

    What [_generate_sheet_figure] computes before it draws: the staff
    position of every subnote of every note group, riff by riff; a rest
    has none. *)
Definition sheet_group (oct : Z) (note_group : string) : result (list Z) :=
  if String.eqb (Py.upper note_group) "R" then Ok []
  else
    mapR (fun sub => c0 ←? Py.index0 sub;
                     get_staff_position (Py.upper_char c0) oct)
         (Py.split_on "+" note_group).

Definition sheet_riff (riff : Riff) : result (list (list Z)) :=
  mapR (sheet_group (octave riff)) (notes riff).

Definition sheet_positions (rs : list Riff) : result (list (list (list Z))) :=
  mapR sheet_riff rs.

End midigimp.

(** * Properties *)

(** ** Vocabulary of the specification *)

(** The seven note letters. *)
Definition note_letters : list ascii :=
  ["C"; "D"; "E"; "F"; "G"; "A"; "B"]%char.

(** A letter of either case is a note letter. *)
Definition is_note_letter (L : ascii) : Prop := Py.upper_char L ∈ note_letters.

Inductive accidental : Type := Sharp | Flat | Natural.

(** The semitone shift of an accidental. *)
Definition shift (acc : accidental) : Z :=
  match acc with
  | Sharp => 1
  | Flat => -1
  | Natural => 0
  end.

(** The written forms of an accidental, of either case. *)
Definition written (acc : accidental) : list string :=
  match acc with
  | Sharp => ["#"]
  | Flat => ["b"; "B"]
  | Natural => [""]
  end.

(** [letterSemitone]: semitones above C. *)
Definition letterSemitone (L : ascii) : Z :=
  default 0 (Py.lookup_char
               [("C", 0); ("D", 2); ("E", 4); ("F", 5); ("G", 7); ("A", 9);
                ("B", 11)]%char (Py.upper_char L)).

(** [diatonicIndex]: C,D,E,F,G,A,B to 0..6. *)
Definition diatonicIndex (L : ascii) : Z :=
  default 0 (Py.lookup_char
               [("C", 0); ("D", 1); ("E", 2); ("F", 3); ("G", 4); ("A", 5);
                ("B", 6)]%char (Py.upper_char L)).

(** The codes of the duration table. *)
Definition duration_codes : list string := ["1s"; "2"; "4s"; "8s"; "16s"; "32s"].

(** The letters of the drum alphabet. *)
Definition drum_letters : list ascii := ["K"; "S"; "H"]%char.

(** A subnote the grammar knows: the rest, or a text whose first letter,
    of either case, is a note letter or a drum letter (what follows the
    letter is tolerated). *)
Definition known_letter (c : ascii) : bool :=
  existsb (Ascii.eqb (Py.upper_char c)) (note_letters ++ drum_letters).

Definition known_sub (s : string) : bool :=
  String.eqb (Py.upper s) "R"
  || match s with
     | EmptyString => false
     | String c _ => known_letter c
     end.

(** A token is a rest, a note or drum hit, or a chord of them joined by
    [+]; a phrase is well formed when all its tokens are. *)
Definition known_token (ng : string) : bool :=
  forallb known_sub (Py.split_on "+" ng).

Definition well_formed (r : Riff) : bool := forallb known_token (notes r).

(** The beats of a phrase: [beatLength(duration)] once per token; and of a
    track: the phrases in order. *)
Definition sumQ (l : list Q) : Q := fold_right Qplus 0%Q l.

Definition riff_beats (r : Riff) : Q :=
  sumQ (map (fun _ => grokmidi.get_duration (duration r)) (notes r)).

Definition track_beats (riffs : list Riff) : Q := sumQ (map riff_beats riffs).

(** A dictionary that [save_state] can have made: it carries the entry
    text and the strum box. *)
Definition is_snapshot (st : gmap string val) : Prop :=
  ∃ (t : string) (b : bool),
    grokmidi.get_text st = Ok t ∧ grokmidi.get_strum st = Ok b.

(** The card shows the state [st]: every entry of [st] is in the riff,
    the entry widget holds its text and the strum box its flag. *)
Definition restored (st : gmap string val) (a : grokmidi.App) : Prop :=
  st ⊆ grokmidi.the_riff a
  ∧ grokmidi.get_text st = Ok (grokmidi.entry (grokmidi.card a))
  ∧ grokmidi.get_strum st = Ok (grokmidi.strum_var (grokmidi.card a)).

(** The four fields of a phrase record in the save file. *)
Definition schema : gset string :=
  {[ "notes"; "duration"; "c_scale"; "strum" ]}.

(** A session on a fresh card of a pitched track: three texts committed
    one after the other, and the snapshots this leaves in [history]. *)
Definition three_commits : grokmidi.App :=
  grokmidi.run
    [grokmidi.Type_ "C"; grokmidi.SaveRiff; grokmidi.Type_ "D";
     grokmidi.SaveRiff; grokmidi.Type_ "E"; grokmidi.SaveRiff]
    (grokmidi.init_app 0 0 false).

Definition snap (ns : list string) (t : string) : gmap string val :=
  <["strum" := VBool false]>
    (<["text" := VStr t]> (grokmidi.riff_dict (mkRiff ns "4s" 60 false))).

(** A card whose riff plays eighth notes, as a riff read from a saved
    document can, with [text] in its entry. *)
Definition eighths_card (text : string) : grokmidi.App :=
  grokmidi.mkApp {[ 0%nat := grokmidi.riff_dict (mkRiff ["C"; "D"] "8s" 60 false) ]}
                 [[0%nat]] 120 false
                 (grokmidi.mkCard 0 0 0 [] [] text false) (1%nat, 2%nat).

(** Operations other than undo and redo. *)
Definition plain (o : grokmidi.op) : bool :=
  match o with
  | grokmidi.Undo | grokmidi.Redo => false
  | _ => true
  end.

(** Every phrase record of the payload has exactly the schema's fields. *)
Definition records_ok (p : grokmidi.Payload) : Prop :=
  ∀ (row : list (gmap string val)) (rec : gmap string val),
    row ∈ grokmidi.tracks p → rec ∈ row → dom rec = schema.

(** The riff of the card and every dictionary that [song_data] names have
    exactly the schema's fields. *)
Definition schema_kept (a : grokmidi.App) : Prop :=
  dom (grokmidi.the_riff a) = schema
  ∧ ∀ (row : list nat) (l : nat),
      row ∈ grokmidi.song_data a → l ∈ row →
      dom (grokmidi.store a !!! l) = schema.

(** The semitone shift that goes with a drawn accidental sign. *)
Definition sym_shift (sym : string) : Z :=
  if String.eqb sym "#" then 1 else if String.eqb sym "b" then -1 else 0.

(** The pitches of the drum table. *)
Definition drum_pitches : list Z := [35; 38; 42].

(** A word: not empty and free of whitespace. *)
Definition is_word (w : string) : bool :=
  negb (String.eqb w "")
  && forallb (fun c => negb (Py.isspace c)) (String.list_ascii_of_string w).

(** A note of track [t] with program [prog]: it carries the track's index,
    the percussion channel 9 when the program is 35 and channel 0
    otherwise, and velocity 100. *)
Definition routed (t : nat) (prog : Z) (e : Note) : Prop :=
  n_track e = t ∧ n_channel e = grokmidi.channel_of prog ∧ n_volume e = 100.

(** A text free of whitespace. *)
Definition nospace (w : string) : Prop :=
  forallb (fun c => negb (Py.isspace c)) (String.list_ascii_of_string w) = true.

(** Every token [grokify_riff] can write: the rest, the chords of the
    library joined by [+], and the seven letters bare, sharp or flat. *)
Definition grokify_tokens : list string :=
  ["R"]
  ++ map (fun ch => Py.join "+" (snd ch)) grokmidi.CHORD_LIB
  ++ flat_map
       (fun L => [String L ""; String L "#"; String L "b"])
       (String.list_ascii_of_string "CDEFGAB").

(** The record of card [i] of track [t] in a payload, and a field of it. *)
Definition record_at (p : grokmidi.Payload) (t i : nat)
    : option (gmap string val) :=
  match grokmidi.tracks p !! t with
  | Some row => row !! i
  | None => None
  end.

Definition field_at (p : grokmidi.Payload) (t i : nat) (k : string)
    : option val :=
  match record_at p t i with
  | Some rec => rec !! k
  | None => None
  end.

(** A riff as a commit of [midigimp.py] stores it: its notes are a
    non-empty list of words that pass the checks. *)
Definition committed (r : midigimp.Riff) : Prop :=
  midigimp.validate (midigimp.notes r) = None
  ∧ midigimp.notes r ≠ []
  ∧ Forall (fun w => is_word w = true) (midigimp.notes r).

(** An event with a pitch to play: a program change, or a note whose pitch
    is a number. *)
Definition pitched (e : midigimp.event) : Prop :=
  match e with
  | midigimp.ProgramChange _ _ => True
  | midigimp.AddNote p _ _ => is_Some p
  end.

(** The octaves and the instruments a commit of [midigimp.py] can store:
    the numbers its two boxes give when their choices are read. *)
Definition stored_octaves : list Z := [2; 3; 4; 5; 6; 7].
Definition stored_instruments : list Z := [0; 1; 40; 118].

Definition storable (r : midigimp.Riff) : Prop :=
  midigimp.octave r ∈ stored_octaves
  ∧ midigimp.instrument r ∈ stored_instruments.

(** The two boxes show choices of their lists. *)
Definition boxes_ok (a : midigimp.MidiWriterApp) : Prop :=
  midigimp.octave_combo a ∈ midigimp.octave_options
  ∧ midigimp.instrument_combo a ∈ midigimp.instrument_options.

(** ** Helper lemmas *)

Ltac in_list :=
  vm_compute; repeat first [ apply list_elem_of_here | apply list_elem_of_further ].


(** The string helpers on sample texts. *)
Example strip_sample : Py.strip "  C  E+G " = "C  E+G".
Proof. reflexivity. Qed.

Example split_sample : Py.split " C  R E+G " = ["C"; "R"; "E+G"].
Proof. reflexivity. Qed.

Example split_on_sample : Py.split_on "+" "E+G+" = ["E"; "G"; ""].
Proof. reflexivity. Qed.

Example upper_sample : Py.upper "c#b" = "C#B".
Proof. reflexivity. Qed.

Lemma note_letter_cases (L : ascii) :
  is_note_letter L →
  L ∈ ["C"; "D"; "E"; "F"; "G"; "A"; "B";
       "c"; "d"; "e"; "f"; "g"; "a"; "b"]%char.
Proof.
  unfold is_note_letter, note_letters.
  destruct L as [[] [] [] [] [] [] [] []]; vm_compute;
    intros H; repeat (apply elem_of_cons in H as [H|H]; [discriminate H|]);
    try (by apply elem_of_nil in H);
    repeat first [ by apply list_elem_of_here | apply list_elem_of_further ].
Qed.

Lemma written_cases (acc : accidental) (txt : string) :
  txt ∈ written acc →
  (acc = Sharp ∧ txt = "#") ∨ (acc = Flat ∧ (txt = "b" ∨ txt = "B"))
  ∨ (acc = Natural ∧ txt = "").
Proof.
  destruct acc; cbn; intros H;
    repeat (apply elem_of_cons in H as [H|H]; [subst; tauto|]);
    by apply elem_of_nil in H.
Qed.

(** The pitch of a note letter with an accidental, as [midi_from_str]
    computes it. *)
Lemma midi_from_str_note (L : ascii) (acc : accidental) (txt : string) (n : Z) :
  is_note_letter L → txt ∈ written acc →
  grokmidi.midi_from_str (String L txt) n
  = Ok (Some (n + (letterSemitone L + shift acc) mod 12)).
Proof.
  intros HL Ht. apply note_letter_cases in HL. apply written_cases in Ht.
  repeat (apply elem_of_cons in HL as [HL|HL]);
    try (by apply elem_of_nil in HL); subst L;
    destruct Ht as [[-> ->]|[[-> [->| ->]]|[-> ->]]]; reflexivity.
Qed.

(** [get_midi_note] of [midigimp.py] computes the same pitch, its anchor
    being [(octave + 1) * 12]. *)
Lemma get_midi_note_note (L : ascii) (acc : accidental) (txt : string) (o : Z) :
  is_note_letter L → txt ∈ written acc →
  midigimp.get_midi_note (String L txt) o
  = Ok (Some ((o + 1) * 12 + (letterSemitone L + shift acc) mod 12)).
Proof.
  intros HL Ht. apply note_letter_cases in HL. apply written_cases in Ht.
  repeat (apply elem_of_cons in HL as [HL|HL]);
    try (by apply elem_of_nil in HL); subst L;
    destruct Ht as [[-> ->]|[[-> [->| ->]]|[-> ->]]]; reflexivity.
Qed.

(** ** Pitch resolution *)

(** C1: for a note letter [L] of either case, an optional accidental
    ([#], or [b] of either case) and an anchor [n], [midi_from_str] returns
    [n + base] where [base] is [letterSemitone L] shifted by the accidental
    and reduced modulo 12 into [0,12); so "C", "C#" and "Cb" at anchor 60
    give 60, 61 and 71. *)
Theorem C1_resolve_pitch :
  (∀ (L : ascii) (acc : accidental) (txt : string) (n : Z),
      is_note_letter L → txt ∈ written acc →
      ∃ base : Z,
        base = (letterSemitone L + shift acc) mod 12 ∧ 0 ≤ base < 12 ∧
        grokmidi.midi_from_str (String L txt) n = Ok (Some (n + base)))
  ∧ grokmidi.midi_from_str "C" 60 = Ok (Some 60)
  ∧ grokmidi.midi_from_str "C#" 60 = Ok (Some 61)
  ∧ grokmidi.midi_from_str "Cb" 60 = Ok (Some 71).
Proof.
  split; [|by repeat split].
  intros L acc txt n HL Ht. eexists. split; [reflexivity|]. split.
  - apply Z.mod_pos_bound. lia.
  - by apply midi_from_str_note.
Qed.

Lemma C1_resolve_pitch_witness :
  is_note_letter "b" ∧ "B" ∈ written Flat
  ∧ ∃ base : Z,
      base = (letterSemitone "b" + shift Flat) mod 12 ∧ 0 ≤ base < 12 ∧
      grokmidi.midi_from_str "bB" 48 = Ok (Some (48 + base)).
Proof.
  assert (H1 : is_note_letter "b") by (unfold is_note_letter; in_list).
  assert (H2 : "B" ∈ written Flat) by in_list.
  split; [exact H1|]. split; [exact H2|].
  exact (proj1 C1_resolve_pitch "b"%char Flat "B" 48 H1 H2).
Defined.

(** C9: the pitch class of a resolved note does not change when the anchor
    moves up one octave. *)
Theorem C9_octave_invariance (L : ascii) (acc : accidental) (txt : string) (n : Z) :
  is_note_letter L → txt ∈ written acc →
  ∃ p q : Z,
    grokmidi.midi_from_str (String L txt) n = Ok (Some p)
    ∧ grokmidi.midi_from_str (String L txt) (n + 12) = Ok (Some q)
    ∧ p mod 12 = q mod 12.
Proof.
  intros HL Ht. do 2 eexists.
  split; [by apply midi_from_str_note|].
  split; [by apply midi_from_str_note|].
  set (b := (letterSemitone L + shift acc) mod 12).
  replace (n + 12 + b) with (n + b + 1 * 12) by lia.
  by rewrite Z_mod_plus_full.
Qed.

Lemma C9_octave_invariance_witness :
  is_note_letter "F" ∧ "#" ∈ written Sharp
  ∧ ∃ p q : Z,
      grokmidi.midi_from_str "F#" 36 = Ok (Some p)
      ∧ grokmidi.midi_from_str "F#" (36 + 12) = Ok (Some q)
      ∧ p mod 12 = q mod 12.
Proof.
  assert (H1 : is_note_letter "F") by (unfold is_note_letter; in_list).
  assert (H2 : "#" ∈ written Sharp) by in_list.
  split; [exact H1|]. split; [exact H2|].
  exact (C9_octave_invariance "F"%char Sharp "#" 36 H1 H2).
Defined.

(** The same invariance for [get_midi_note], one octave being one step of
    its [octave] argument. *)
Lemma get_midi_note_octave (L : ascii) (acc : accidental) (txt : string) (o : Z) :
  is_note_letter L → txt ∈ written acc →
  ∃ p q : Z,
    midigimp.get_midi_note (String L txt) o = Ok (Some p)
    ∧ midigimp.get_midi_note (String L txt) (o + 1) = Ok (Some q)
    ∧ q = p + 12.
Proof.
  intros HL Ht. do 2 eexists.
  split; [by apply get_midi_note_note|].
  split; [by apply get_midi_note_note|]. lia.
Qed.

(** ** Durations *)

Lemma get_duration_miss (v : string) :
  v ∉ duration_codes → grokmidi.get_duration v = 1%Q.
Proof.
  intros Hv. unfold grokmidi.get_duration, grokmidi.durations. cbn.
  repeat match goal with
         | |- context [String.eqb v ?k] =>
             destruct (String.eqb_spec v k) as [->|_];
             [exfalso; apply Hv; in_list|]
         end.
  reflexivity.
Qed.

(** C8: [get_duration] maps the six codes to 4, 2, 1, 1/2, 1/4 and 1/8
    beats and every other string to 1; it is a total function, so no
    input raises. *)
Theorem C8_beat_length :
  grokmidi.get_duration "1s" = 4%Q
  ∧ grokmidi.get_duration "2" = 2%Q
  ∧ grokmidi.get_duration "4s" = 1%Q
  ∧ grokmidi.get_duration "8s" = (1 # 2)%Q
  ∧ grokmidi.get_duration "16s" = (1 # 4)%Q
  ∧ grokmidi.get_duration "32s" = (1 # 8)%Q
  ∧ (∀ v : string, v ∉ duration_codes → grokmidi.get_duration v = 1%Q)
  ∧ grokmidi.get_duration "unknown" = 1%Q.
Proof.
  repeat split; try reflexivity. apply get_duration_miss.
Qed.

Lemma C8_beat_length_witness :
  ("whole" ∉ duration_codes) ∧ grokmidi.get_duration "whole" = 1%Q.
Proof.
  assert (H : "whole" ∉ duration_codes).
  { intros H. unfold duration_codes in H.
    repeat (apply elem_of_cons in H as [H|H]; [discriminate H|]).
    by apply elem_of_nil in H. }
  split; [exact H|].
  exact (proj1 (proj2 (proj2 (proj2 (proj2 (proj2 (proj2 C8_beat_length))))))
           "whole" H).
Defined.

(** The two programs carry the same table. *)
Lemma get_duration_same (v : string) :
  midigimp.get_duration v = grokmidi.get_duration v.
Proof. reflexivity. Qed.

(** ** Staff positions *)

(** [staff_pos] of a note letter: the entry of [NOTE_MAP] plus seven per
    octave above octave 4, the octave being [c_scale // 12]. *)
Lemma staff_pos_note (L : ascii) (n : Z) :
  is_note_letter L →
  grokmidi.staff_pos L n = Ok (letterSemitone L + (n / 12 - 4) * 7).
Proof.
  intros HL. apply note_letter_cases in HL.
  repeat (apply elem_of_cons in HL as [HL|HL]);
    try (by apply elem_of_nil in HL); subst L; reflexivity.
Qed.

(** [get_staff_position] of [midigimp.py] is the diatonic formula on its
    [octave] argument. *)
Lemma get_staff_position_diatonic (L : ascii) (o : Z) :
  L ∈ note_letters →
  midigimp.get_staff_position L o = Ok (diatonicIndex L + (o - 4) * 7).
Proof.
  unfold note_letters. intros HL.
  repeat (apply elem_of_cons in HL as [HL|HL]);
    try (by apply elem_of_nil in HL); subst L; reflexivity.
Qed.

(** At anchor 60 the octave is 5, so C sits seven steps above the origin;
    the claimed positions 0 and 7 for anchors 60 and 72 are not what the
    formula gives. *)
Lemma C2_counterexample :
  grokmidi.staff_pos "C" 60 = Ok (diatonicIndex "C" + (60 / 12 - 4) * 7)
  ∧ grokmidi.staff_pos "C" 60 ≠ Ok 0
  ∧ grokmidi.staff_pos "C" 72 ≠ Ok 7.
Proof. repeat split; discriminate. Qed.

(** C2 (amended): with [octaveOf n = n / 12] and octave 4 the origin, C at
    anchor [n] is at [diatonicIndex C + (n / 12 - 4) * 7], that is 0, 7 and
    14 at anchors 48, 60 and 72; and for every note letter one octave up
    is exactly seven steps up. *)
Theorem C2_staff_position :
  (∀ n : Z,
      grokmidi.staff_pos "C" n = Ok (diatonicIndex "C" + (n / 12 - 4) * 7))
  ∧ grokmidi.staff_pos "C" 48 = Ok 0
  ∧ grokmidi.staff_pos "C" 60 = Ok 7
  ∧ grokmidi.staff_pos "C" 72 = Ok 14
  ∧ (∀ (L : ascii) (n : Z),
        is_note_letter L →
        ∃ p : Z, grokmidi.staff_pos L n = Ok p
                 ∧ grokmidi.staff_pos L (n + 12) = Ok (p + 7)).
Proof.
  repeat split; try reflexivity.
  intros L n HL. eexists. split; [by apply staff_pos_note|].
  rewrite staff_pos_note by done. f_equal.
  replace (n + 12) with (n + 1 * 12) by lia.
  rewrite Z_div_plus_full by lia. lia.
Qed.

Lemma C2_staff_position_witness :
  is_note_letter "g"
  ∧ ∃ p : Z, grokmidi.staff_pos "g" 60 = Ok p
             ∧ grokmidi.staff_pos "g" (60 + 12) = Ok (p + 7).
Proof.
  assert (H : is_note_letter "g") by (unfold is_note_letter; in_list).
  split; [exact H|].
  exact (proj2 (proj2 (proj2 (proj2 C2_staff_position))) "g"%char 60 H).
Defined.

(** The table [staff_pos] indexes is the semitone table: D lands two steps
    above C where the diatonic index puts it one step above. *)
Lemma staff_pos_semitone_table :
  grokmidi.staff_pos "D" 48 = Ok 2
  ∧ midigimp.get_staff_position "D" 4 = Ok 1
  ∧ diatonicIndex "D" + (48 / 12 - 4) * 7 = 1.
Proof. by repeat split. Qed.

(** ** The timeline *)

Lemma known_letter_cases (c : ascii) :
  known_letter c = true →
  Py.upper_char c ∈ (note_letters ++ drum_letters).
Proof.
  unfold known_letter. intros H. apply existsb_exists in H as (x & Hx & E).
  apply Ascii.eqb_eq in E. subst x. by apply list_elem_of_In.
Qed.

(** [midi_from_str] returns on every known subnote. *)
Lemma midi_from_str_total (s : string) (c : Z) :
  known_sub s = true → ∃ p, grokmidi.midi_from_str s c = Ok p.
Proof.
  unfold known_sub, grokmidi.midi_from_str. intros H.
  destruct (String.eqb (Py.upper s) "R"); [by eexists|].
  destruct s as [|c0 rest]; [discriminate H|]. cbn in H.
  apply known_letter_cases in H. cbn [Py.index0 bind Py.tail].
  set (u := Py.upper_char c0) in *. clearbody u.
  unfold note_letters, drum_letters in H. cbn in H.
  repeat (apply elem_of_cons in H as [H|H]);
    try (by apply elem_of_nil in H); subst u; cbn;
    first [ by eexists
          | destruct (Py.lower rest) as [|m ?];
            [by eexists
            |destruct (Py.lookup_char grokmidi.ACC_MAP m); by eexists] ].
Qed.

Lemma mapR_total {A B} (f : A → result B) (l : list A) :
  (∀ x, x ∈ l → ∃ y, f x = Ok y) →
  ∃ ys, mapR f l = Ok ys ∧ length ys = length l.
Proof.
  induction l as [|a l IH]; intros H; cbn.
  - by exists [].
  - destruct (H a) as [b Hb]; [apply list_elem_of_here|].
    destruct IH as (bs & Hbs & Hlen).
    { intros x Hx. apply H. by apply list_elem_of_further. }
    rewrite Hb, Hbs. cbn. exists (b :: bs). split; [done|]. cbn. by rewrite Hlen.
Qed.

Section timeline.
Variables (t_idx : nat) (prog c_scale : Z).

(** A known token moves the cursor by [dur], once, whatever it emits. *)
Lemma group_step_cursor (delay dur : Q) (added : list Note) (tp : Q)
    (ng : string) :
  known_token ng = true →
  ∃ added',
    grokmidi.group_step t_idx prog c_scale delay dur (added, tp) ng
    = Ok (added', (tp + dur)%Q).
Proof.
  intros H. unfold grokmidi.group_step.
  destruct (String.eqb (Py.upper ng) "R"); [by eexists|].
  unfold grokmidi.group_notes.
  destruct (mapR_total (fun s => grokmidi.midi_from_str s c_scale)
              (Py.split_on "+" ng)) as (ps & Hps & _).
  { intros s Hs. apply midi_from_str_total.
    unfold known_token in H. rewrite forallb_forall in H.
    apply H. by apply list_elem_of_In. }
  rewrite Hps. cbn. by eexists.
Qed.

Lemma groups_cursor (delay dur : Q) (ngs : list string) :
  forallb known_token ngs = true →
  ∀ (added : list Note) (tp : Q),
  ∃ added' tp',
    grokmidi.foldR (grokmidi.group_step t_idx prog c_scale delay dur)
      (added, tp) ngs = Ok (added', tp')
    ∧ (tp' == tp + sumQ (map (fun _ => dur) ngs))%Q.
Proof.
  induction ngs as [|ng ngs IH]; intros H added tp; cbn [grokmidi.foldR].
  - exists added, tp. split; [done|]. unfold sumQ. cbn. lra.
  - cbn in H. apply andb_true_iff in H as [Hng Hngs].
    destruct (group_step_cursor delay dur added tp ng Hng) as [added1 E1].
    rewrite E1. cbn [bind].
    destruct (IH Hngs added1 (tp + dur)%Q) as (added' & tp' & E & Htp).
    exists added', tp'. split; [done|].
    rewrite Htp. unfold sumQ. cbn. lra.
Qed.

Lemma riff_step_cursor (r : Riff) :
  well_formed r = true →
  ∀ (added : list Note) (tp : Q),
  ∃ added' tp',
    grokmidi.riff_step t_idx prog c_scale (added, tp) r = Ok (added', tp')
    ∧ (tp' == tp + riff_beats r)%Q.
Proof.
  intros H added tp. unfold grokmidi.riff_step, riff_beats.
  destruct (notes r) as [|ng ngs] eqn:E.
  - exists added, tp. split; [done|]. unfold sumQ. cbn. lra.
  - apply groups_cursor. unfold well_formed in H. by rewrite E in H.
Qed.

Lemma riffs_cursor (riffs : list Riff) :
  forallb well_formed riffs = true →
  ∀ (added : list Note) (tp : Q),
  ∃ added' tp',
    grokmidi.foldR (grokmidi.riff_step t_idx prog c_scale) (added, tp) riffs
    = Ok (added', tp')
    ∧ (tp' == tp + track_beats riffs)%Q.
Proof.
  induction riffs as [|r riffs IH]; intros H added tp; cbn [grokmidi.foldR].
  - exists added, tp. split; [done|]. unfold track_beats, sumQ. cbn. lra.
  - cbn in H. apply andb_true_iff in H as [Hr Hrs].
    destruct (riff_step_cursor r Hr added tp) as (a1 & tp1 & E1 & H1).
    rewrite E1. cbn [bind].
    destruct (IH Hrs a1 tp1) as (added' & tp' & E & Htp).
    exists added', tp'. split; [done|].
    rewrite Htp, H1. unfold track_beats, sumQ. cbn. lra.
Qed.

End timeline.

(** C3: on a track of well-formed phrases the writer loop returns, and its
    final [time_pos] is the sum of [get_duration(duration)] over every
    token of every phrase in order: a rest, a note and a chord each count
    once. *)
Theorem C3_track_cursor (t_idx : nat) (prog c_scale : Z) (riffs : list Riff) :
  forallb well_formed riffs = true →
  ∃ (added : list Note) (time_pos : Q),
    grokmidi.export_track t_idx prog c_scale riffs = Ok (added, time_pos)
    ∧ (time_pos == track_beats riffs)%Q.
Proof.
  intros H. unfold grokmidi.export_track.
  destruct (riffs_cursor t_idx prog c_scale riffs H [] 0%Q)
    as (added & tp & E & Htp).
  exists added, tp. split; [done|]. rewrite Htp. lra.
Qed.

Lemma C3_track_cursor_witness :
  forallb well_formed
    [mkRiff ["C"; "R"; "E+G"] "4s" 60 false;
     mkRiff ["c#"; "r"; "K+S+H"; "Bb+D+F"] "8s" 60 true] = true
  ∧ ∃ (added : list Note) (time_pos : Q),
      grokmidi.export_track 0 0 60
        [mkRiff ["C"; "R"; "E+G"] "4s" 60 false;
         mkRiff ["c#"; "r"; "K+S+H"; "Bb+D+F"] "8s" 60 true]
      = Ok (added, time_pos)
      ∧ (time_pos
         == track_beats
              [mkRiff ["C"; "R"; "E+G"] "4s" 60 false;
               mkRiff ["c#"; "r"; "K+S+H"; "Bb+D+F"] "8s" 60 true])%Q.
Proof.
  split; [vm_compute; reflexivity|].
  apply (C3_track_cursor 0 0 60). vm_compute. reflexivity.
Defined.

(** The cursor of the specification's example: three quarter-note tokens
    end at beat 3 with three notes, none inside the rest's beat. *)
Example timeline_example :
  grokmidi.export_track 0 0 60 [mkRiff ["C"; "R"; "E+G"] "4s" 60 false]
  = Ok ([mkNote 0 0 60 0 1 100; mkNote 0 0 64 2 1 100;
         mkNote 0 0 67 2 1 100], 3%Q).
Proof. reflexivity. Qed.

(** ** Strummed chords *)

Lemma mapR_Forall2 {A B} (f : A → result B) (l : list A) (ys : list B) :
  Forall2 (fun x y => f x = Ok y) l ys → mapR f l = Ok ys.
Proof.
  induction 1 as [|x y l ys Hxy _ IH]; cbn; [done|].
  by rewrite Hxy, IH.
Qed.

(** With no rest among the pitches, the note at position [j] of the chord
    starts [delay * j] after [time_pos]. *)
Lemma add_notes_lookup (t_idx : nat) (prog : Z) (delay tp dur : Q)
    (ps : list Z) :
  ∀ (j0 j : nat) (p : Z),
    ps !! j = Some p →
    grokmidi.add_notes t_idx prog delay tp dur j0 (Some <$> ps) !! j
    = Some (mkNote t_idx (grokmidi.channel_of prog) p
              (tp + delay * inject_Z (Z.of_nat (j0 + j)))%Q dur 100).
Proof.
  induction ps as [|p0 ps IH]; intros j0 j p Hj; [done|].
  rewrite fmap_cons. cbn [grokmidi.add_notes].
  destruct j as [|j].
  - rewrite lookup_cons. cbn in Hj. injection Hj as ->.
    by rewrite Nat.add_0_r.
  - rewrite lookup_cons. cbn in Hj.
    rewrite (IH (S j0) j p Hj). by rewrite Nat.add_succ_r.
Qed.

Lemma add_notes_length (t_idx : nat) (prog : Z) (delay tp dur : Q)
    (ps : list Z) (j0 : nat) :
  length (grokmidi.add_notes t_idx prog delay tp dur j0 (Some <$> ps))
  = length ps.
Proof.
  revert j0. induction ps as [|p ps IH]; intros j0; cbn; [done|].
  by rewrite IH.
Qed.

(** A rest is a single letter: it has no [+], so it is never a chord. *)
Lemma rest_split (ng : string) :
  String.eqb (Py.upper ng) "R" = true → Py.split_on "+" ng = [ng].
Proof.
  intros H. apply String.eqb_eq in H.
  destruct ng as [|c [|c' rest]]; try discriminate H.
  cbn in H. injection H as H. cbn.
  destruct (Ascii.eqb_spec c "+") as [->|_]; [discriminate H|done].
Qed.

(** No duration is shorter than a thirty-second note. *)
Lemma get_duration_lower (v : string) : (1 # 8 <= grokmidi.get_duration v)%Q.
Proof.
  unfold grokmidi.get_duration, grokmidi.durations. cbn.
  repeat match goal with
         | |- context [String.eqb v ?k] => destruct (String.eqb v k)
         end; cbn; lra.
Qed.

(** The loop over a list that ends with [l2] runs [l1] first. *)
Lemma foldR_app {A S} (f : S → A → result S) (l1 l2 : list A) (st : S) :
  grokmidi.foldR f st (l1 ++ l2)
  = (st' ←? grokmidi.foldR f st l1; grokmidi.foldR f st' l2).
Proof.
  revert st. induction l1 as [|a l1 IH]; intros st; cbn; [done|].
  destruct (f st a) as [st1|e]; cbn; [apply IH|done].
Qed.

(** Known tokens only add notes to those already written, and move the
    cursor by the duration once each. *)
Lemma groups_emit (t_idx : nat) (prog anchor : Z) (delay dur : Q)
    (ngs : list string) :
  forallb known_token ngs = true →
  ∀ (added : list Note) (tp : Q),
  ∃ (new : list Note) (tp' : Q),
    grokmidi.foldR (grokmidi.group_step t_idx prog anchor delay dur)
      (added, tp) ngs = Ok (added ++ new, tp')
    ∧ (tp' == tp + dur * inject_Z (Z.of_nat (length ngs)))%Q.
Proof.
  induction ngs as [|ng ngs IH]; intros H added tp; cbn [grokmidi.foldR].
  - exists [], tp. rewrite app_nil_r. split; [done|]. cbn. ring.
  - cbn in H. apply andb_true_iff in H as [Hng Hngs].
    assert (E1 : ∃ new1,
               grokmidi.group_step t_idx prog anchor delay dur (added, tp) ng
               = Ok (added ++ new1, (tp + dur)%Q)).
    { unfold grokmidi.group_step.
      destruct (String.eqb (Py.upper ng) "R");
        [exists []; by rewrite app_nil_r|].
      unfold grokmidi.group_notes.
      destruct (mapR_total (fun s => grokmidi.midi_from_str s anchor)
                  (Py.split_on "+" ng)) as (ps & Hps & _).
      { intros s Hs. apply midi_from_str_total.
        unfold known_token in Hng. rewrite forallb_forall in Hng.
        apply Hng. by apply list_elem_of_In. }
      rewrite Hps. cbn. by eexists. }
    destruct E1 as [new1 E1]. rewrite E1. cbn [bind].
    destruct (IH Hngs (added ++ new1) (tp + dur)%Q) as (new & tp' & E & Htp).
    exists (new1 ++ new), tp'. rewrite app_assoc. split; [done|].
    rewrite Htp. cbn [length]. rewrite Nat2Z.inj_succ. unfold Z.succ.
    rewrite inject_Z_plus. change (inject_Z 1) with 1%Q. ring.
Qed.

(** C6: in a phrase whose strum flag is set, the loop of [_play_midi] and
    [export_midi] over the phrase emits a chord token as follows.  Let
    [cursor] be where the loop stands when it reaches the token, that is
    where the phrase cut before the token ends: [get_duration(duration)]
    times the number of tokens before it, after the cursor the phrase
    started at.  Then the [j]-th subnote of the chord starts at [cursor +
    0.03 * j] and every note lasts [get_duration(duration)]; for three
    subnotes the second and third start strictly after the first and
    strictly before the first's start plus the duration, whatever the
    duration code. *)
Theorem C6_strum_offsets (t_idx : nat) (prog anchor : Z) (r : Riff)
    (added : list Note) (tp : Q) (pre post : list string) (ng : string)
    (ps : list Z) :
  strum r = true →
  notes r = pre ++ ng :: post →
  forallb known_token pre = true →
  forallb known_token post = true →
  (1 < length ps)%nat →
  Forall2 (fun s p => grokmidi.midi_from_str s anchor = Ok (Some p))
    (Py.split_on "+" ng) ps →
  let dur := grokmidi.get_duration (duration r) in
  ∃ (before evs after : list Note) (cursor tp' : Q),
    grokmidi.riff_step t_idx prog anchor (added, tp)
      (mkRiff pre (duration r) (c_scale r) (strum r))
    = Ok (added ++ before, cursor)
    ∧ (cursor == tp + dur * inject_Z (Z.of_nat (length pre)))%Q
    ∧ grokmidi.riff_step t_idx prog anchor (added, tp) r
      = Ok (added ++ before ++ evs ++ after, tp')
    ∧ length evs = length ps
    ∧ (∀ (j : nat) (p : Z),
          ps !! j = Some p →
          evs !! j
          = Some (mkNote t_idx (grokmidi.channel_of prog) p
                    (cursor + (3 # 100) * inject_Z (Z.of_nat j))%Q dur 100))
    ∧ (∀ e0 e1 e2 : Note,
          evs = [e0; e1; e2] →
          (n_time e0 < n_time e1 ∧ n_time e1 < n_time e0 + dur
           ∧ n_time e0 < n_time e2 ∧ n_time e2 < n_time e0 + dur)%Q).
Proof.
  intros Hs Hn Hpre Hpost Hlen HF dur.
  pose proof (get_duration_lower (duration r)) as Hd. fold dur in Hd.
  assert (Hrest : String.eqb (Py.upper ng) "R" = false).
  { destruct (String.eqb (Py.upper ng) "R") eqn:E; [|done].
    apply rest_split in E. rewrite E in HF.
    apply Forall2_length in HF. cbn in HF. lia. }
  destruct (groups_emit t_idx prog anchor (3 # 100) dur pre Hpre added tp)
    as (before & cursor & Epre & Hcur).
  set (evs := grokmidi.add_notes t_idx prog (3 # 100) cursor dur 0
                (Some <$> ps)).
  destruct (groups_emit t_idx prog anchor (3 # 100) dur post Hpost
              (added ++ before ++ evs) (cursor + dur)%Q)
    as (after & tp' & Epost & _).
  assert (Eng : grokmidi.group_step t_idx prog anchor (3 # 100) dur
                  (added ++ before, cursor) ng
                = Ok (added ++ before ++ evs, (cursor + dur)%Q)).
  { unfold grokmidi.group_step, grokmidi.group_notes. rewrite Hrest.
    rewrite (mapR_Forall2 _ _ (Some <$> ps)).
    2:{ clear -HF. induction HF; [constructor|].
        rewrite fmap_cons. by constructor. }
    cbn [bind]. by rewrite <- app_assoc. }
  assert (Hlook : ∀ (j : nat) (p : Z),
             ps !! j = Some p →
             evs !! j
             = Some (mkNote t_idx (grokmidi.channel_of prog) p
                       (cursor + (3 # 100) * inject_Z (Z.of_nat j))%Q dur 100)).
  { intros j p Hj. unfold evs.
    by rewrite (add_notes_lookup _ _ _ _ _ _ 0 j p Hj). }
  exists before, evs, after, cursor, tp'.
  split.
  { unfold grokmidi.riff_step. cbn [notes duration strum]. rewrite Hs.
    fold dur. destruct pre as [|ng0 pre]; exact Epre. }
  split; [exact Hcur|]. split.
  { unfold grokmidi.riff_step. rewrite Hn, Hs. fold dur.
    destruct (pre ++ ng :: post) as [|x l] eqn:E;
      [by destruct pre|]. rewrite <- E.
    rewrite foldR_app, Epre. cbn [bind grokmidi.foldR]. rewrite Eng.
    cbn [bind]. rewrite Epost. by rewrite <- !app_assoc. }
  split; [apply add_notes_length|]. split; [exact Hlook|].
  clearbody dur. intros e0 e1 e2 E.
  assert (L3 : length ps = 3%nat).
  { unfold evs in E. apply (f_equal length) in E.
    by rewrite add_notes_length in E. }
  destruct ps as [|p0 [|p1 [|p2 [|? ?]]]]; try discriminate L3.
  pose proof (Hlook 0%nat p0 eq_refl) as H0.
  pose proof (Hlook 1%nat p1 eq_refl) as H1.
  pose proof (Hlook 2%nat p2 eq_refl) as H2.
  rewrite E in H0, H1, H2.
  injection H0 as ->. injection H1 as ->. injection H2 as ->.
  cbv [n_time Z.of_nat Pos.of_succ_nat Pos.succ inject_Z].
  repeat split; lra.
Qed.

Lemma C6_strum_offsets_witness :
  strum (mkRiff ["C"; "R"; "C+E+G"; "D"] "32s" 60 true) = true
  ∧ notes (mkRiff ["C"; "R"; "C+E+G"; "D"] "32s" 60 true)
    = ["C"; "R"] ++ "C+E+G" :: ["D"]
  ∧ forallb known_token ["C"; "R"] = true
  ∧ forallb known_token ["D"] = true
  ∧ (1 < length [60; 64; 67])%nat
  ∧ Forall2 (fun s p => grokmidi.midi_from_str s 60 = Ok (Some p))
      (Py.split_on "+" "C+E+G") [60; 64; 67]
  ∧ ∃ (before evs after : list Note) (cursor tp' : Q),
      grokmidi.riff_step 0 0 60 ([], 0%Q) (mkRiff ["C"; "R"] "32s" 60 true)
      = Ok ([] ++ before, cursor)
      ∧ (cursor == 0 + (1 # 8) * inject_Z (Z.of_nat 2))%Q
      ∧ grokmidi.riff_step 0 0 60 ([], 0%Q)
          (mkRiff ["C"; "R"; "C+E+G"; "D"] "32s" 60 true)
        = Ok ([] ++ before ++ evs ++ after, tp')
      ∧ length evs = 3%nat
      ∧ (∀ (j : nat) (p : Z),
            [60; 64; 67] !! j = Some p →
            evs !! j
            = Some (mkNote 0 0 p (cursor + (3 # 100) * inject_Z (Z.of_nat j))%Q
                      (1 # 8) 100))
      ∧ (∀ e0 e1 e2 : Note,
            evs = [e0; e1; e2] →
            (n_time e0 < n_time e1 ∧ n_time e1 < n_time e0 + (1 # 8)
             ∧ n_time e0 < n_time e2 ∧ n_time e2 < n_time e0 + (1 # 8))%Q).
Proof.
  assert (H1 : strum (mkRiff ["C"; "R"; "C+E+G"; "D"] "32s" 60 true) = true)
    by reflexivity.
  assert (H2 : notes (mkRiff ["C"; "R"; "C+E+G"; "D"] "32s" 60 true)
               = ["C"; "R"] ++ "C+E+G" :: ["D"]) by reflexivity.
  assert (H3 : forallb known_token ["C"; "R"] = true)
    by (vm_compute; reflexivity).
  assert (H4 : forallb known_token ["D"] = true) by (vm_compute; reflexivity).
  assert (H5 : (1 < length [60; 64; 67])%nat) by (simpl; lia).
  assert (H6 : Forall2 (fun s p => grokmidi.midi_from_str s 60 = Ok (Some p))
                 (Py.split_on "+" "C+E+G") [60; 64; 67]).
  { vm_compute Py.split_on. repeat constructor. }
  split; [exact H1|]. split; [exact H2|]. split; [exact H3|].
  split; [exact H4|]. split; [exact H5|]. split; [exact H6|].
  exact (C6_strum_offsets 0 0 60 (mkRiff ["C"; "R"; "C+E+G"; "D"] "32s" 60 true)
           [] 0%Q ["C"; "R"] ["D"] "C+E+G" [60; 64; 67] H1 H2 H3 H4 H5 H6).
Defined.

(** The strummed chord of the sample phrase, as the loop writes it: the
    three notes start at beats 0.25, 0.28 and 0.31. *)
Example strummed_sample :
  grokmidi.export_track 0 0 60 [mkRiff ["C"; "R"; "C+E+G"] "32s" 60 true]
  = Ok ([mkNote 0 0 60 (0 + (3 # 100) * inject_Z 0) (1 # 8) 100;
         mkNote 0 0 60 (0 + (1 # 8) + (1 # 8) + (3 # 100) * inject_Z 0)
           (1 # 8) 100;
         mkNote 0 0 64 (0 + (1 # 8) + (1 # 8) + (3 # 100) * inject_Z 1)
           (1 # 8) 100;
         mkNote 0 0 67 (0 + (1 # 8) + (1 # 8) + (3 # 100) * inject_Z 2)
           (1 # 8) 100],
        (0 + (1 # 8) + (1 # 8) + (1 # 8))%Q).
Proof. reflexivity. Qed.

(** ** Edit history *)

Section history.
Import grokmidi.

Lemma the_riff_set_riff (a : App) (d : gmap string val) :
  the_riff (set_riff a d) = d.
Proof. unfold the_riff, set_riff. cbn. apply lookup_total_insert_eq. Qed.

(** What [restore] leaves when the state carries its text and flag. *)
Lemma restore_snapshot (a : App) (st : gmap string val) (t : string) (b : bool) :
  get_text st = Ok t → get_strum st = Ok b →
  fst (restore a st)
  = mkApp (<[riff (card a) := update (the_riff a) st]> (store a))
          (song_data a) (global_bpm a) (is_drum a)
          (mkCard (track (card a)) (idx (card a)) (riff (card a))
                  (history (card a)) (redo_stack (card a)) t b)
          (others a).
Proof. intros Ht Hb. unfold restore. by rewrite Ht, Hb. Qed.

Lemma restore_restored (a : App) (st : gmap string val) :
  is_snapshot st →
  restored st (fst (restore a st))
  ∧ the_riff (fst (restore a st)) = update (the_riff a) st
  ∧ history (card (fst (restore a st))) = history (card a)
  ∧ redo_stack (card (fst (restore a st))) = redo_stack (card a).
Proof.
  intros (t & b & Ht & Hb). rewrite (restore_snapshot a st t b Ht Hb).
  unfold restored, the_riff. cbn. rewrite lookup_total_insert_eq.
  repeat split; try done. apply map_union_subseteq_l.
Qed.

Lemma pop_snoc {A} (l : list A) (x : A) : pop (l ++ [x]) = Some (l, x).
Proof. unfold pop. by rewrite reverse_snoc, reverse_involutive. Qed.

Lemma pop_nil {A} : pop (@nil A) = None.
Proof. reflexivity. Qed.

(** [undo] with two entries or more: the top goes to [redo_stack] and
    the entry below it is restored. *)
Lemma undo_pops (a : App) (h : list (gmap string val))
    (prev top : gmap string val) :
  history (card a) = h ++ [prev; top] →
  undo a
  = restore (set_card a (mkCard (track (card a)) (idx (card a))
                                (riff (card a)) (h ++ [prev])
                                (redo_stack (card a) ++ [top])
                                (entry (card a)) (strum_var (card a))))
            prev.
Proof.
  intros H. unfold undo. rewrite H.
  rewrite decide_True by (rewrite length_app; cbn; lia).
  replace (h ++ [prev; top]) with ((h ++ [prev]) ++ [top])
    by (by rewrite <- app_assoc).
  rewrite pop_snoc. by rewrite last_snoc.
Qed.

Lemma undo_short (a : App) :
  (length (history (card a)) ≤ 1)%nat → undo a = (a, Returned).
Proof. intros H. unfold undo. by rewrite decide_False by lia. Qed.

Lemma redo_pops (a : App) (r : list (gmap string val)) (st : gmap string val) :
  redo_stack (card a) = r ++ [st] →
  redo a
  = restore (set_card a (mkCard (track (card a)) (idx (card a))
                                (riff (card a)) (history (card a) ++ [st]) r
                                (entry (card a)) (strum_var (card a))))
            st.
Proof. intros H. unfold redo. by rewrite H, pop_snoc. Qed.

Lemma snapshot_is_snapshot (a : App) : is_snapshot (snapshot a).
Proof.
  exists (entry (card a)), (strum_var (card a)).
  unfold get_text, get_strum, snapshot. by simplify_map_eq.
Qed.

End history.

(** C4: [undo] changes nothing when [history] has at most one entry, and
    otherwise moves the top of [history] to [redo_stack] and restores the
    entry below it; [redo] changes nothing when [redo_stack] is empty, and
    otherwise moves its top back onto [history] and restores it;
    [save_state] pushes the snapshot and clears [redo_stack].  So with
    snapshots S0, S1, S2 taken in that order, undo restores S1, a second
    undo S0, a third changes nothing, and redo then restores S1. *)
Theorem C4_undo_redo :
  (∀ a : grokmidi.App,
      (length (grokmidi.history (grokmidi.card a)) ≤ 1)%nat →
      grokmidi.undo a = (a, grokmidi.Returned))
  ∧ (∀ (a : grokmidi.App) (h : list (gmap string val))
       (prev top : gmap string val),
        grokmidi.history (grokmidi.card a) = h ++ [prev; top] →
        is_snapshot prev →
        let a' := fst (grokmidi.undo a) in
        grokmidi.history (grokmidi.card a') = h ++ [prev]
        ∧ grokmidi.redo_stack (grokmidi.card a')
          = grokmidi.redo_stack (grokmidi.card a) ++ [top]
        ∧ grokmidi.the_riff a' = grokmidi.update (grokmidi.the_riff a) prev
        ∧ restored prev a')
  ∧ (∀ a : grokmidi.App,
        grokmidi.redo_stack (grokmidi.card a) = [] →
        grokmidi.redo a = (a, grokmidi.Returned))
  ∧ (∀ (a : grokmidi.App) (r : list (gmap string val))
       (st : gmap string val),
        grokmidi.redo_stack (grokmidi.card a) = r ++ [st] →
        is_snapshot st →
        let a' := fst (grokmidi.redo a) in
        grokmidi.redo_stack (grokmidi.card a') = r
        ∧ grokmidi.history (grokmidi.card a')
          = grokmidi.history (grokmidi.card a) ++ [st]
        ∧ grokmidi.the_riff a' = grokmidi.update (grokmidi.the_riff a) st
        ∧ restored st a')
  ∧ (∀ a : grokmidi.App,
        grokmidi.redo_stack (grokmidi.card (grokmidi.save_state a)) = []
        ∧ grokmidi.history (grokmidi.card (grokmidi.save_state a))
          = grokmidi.history (grokmidi.card a) ++ [grokmidi.snapshot a]
        ∧ is_snapshot (grokmidi.snapshot a))
  ∧ (∀ (a : grokmidi.App) (S0 S1 S2 : gmap string val),
        grokmidi.history (grokmidi.card a) = [S0; S1; S2] →
        grokmidi.redo_stack (grokmidi.card a) = [] →
        is_snapshot S0 → is_snapshot S1 →
        let a1 := fst (grokmidi.undo a) in
        let a2 := fst (grokmidi.undo a1) in
        let a3 := fst (grokmidi.undo a2) in
        let a4 := fst (grokmidi.redo a3) in
        restored S1 a1 ∧ restored S0 a2 ∧ a3 = a2 ∧ restored S1 a4).
Proof.
  assert (U : ∀ (a : grokmidi.App) (h : list (gmap string val))
                (prev top : gmap string val),
             grokmidi.history (grokmidi.card a) = h ++ [prev; top] →
             is_snapshot prev →
             let a' := fst (grokmidi.undo a) in
             grokmidi.history (grokmidi.card a') = h ++ [prev]
             ∧ grokmidi.redo_stack (grokmidi.card a')
               = grokmidi.redo_stack (grokmidi.card a) ++ [top]
             ∧ grokmidi.the_riff a' = grokmidi.update (grokmidi.the_riff a) prev
             ∧ restored prev a').
  { intros a h prev top H Hs a'. subst a'. rewrite (undo_pops a h prev top H).
    destruct (restore_restored
                (grokmidi.set_card a
                   (grokmidi.mkCard (grokmidi.track (grokmidi.card a))
                      (grokmidi.idx (grokmidi.card a))
                      (grokmidi.riff (grokmidi.card a)) (h ++ [prev])
                      (grokmidi.redo_stack (grokmidi.card a) ++ [top])
                      (grokmidi.entry (grokmidi.card a))
                      (grokmidi.strum_var (grokmidi.card a)))) prev Hs)
      as (R & E & Hh & Hr).
    by rewrite Hh, Hr, E. }
  assert (R : ∀ (a : grokmidi.App) (r : list (gmap string val))
                (st : gmap string val),
             grokmidi.redo_stack (grokmidi.card a) = r ++ [st] →
             is_snapshot st →
             let a' := fst (grokmidi.redo a) in
             grokmidi.redo_stack (grokmidi.card a') = r
             ∧ grokmidi.history (grokmidi.card a')
               = grokmidi.history (grokmidi.card a) ++ [st]
             ∧ grokmidi.the_riff a' = grokmidi.update (grokmidi.the_riff a) st
             ∧ restored st a').
  { intros a r st H Hs a'. subst a'. rewrite (redo_pops a r st H).
    destruct (restore_restored
                (grokmidi.set_card a
                   (grokmidi.mkCard (grokmidi.track (grokmidi.card a))
                      (grokmidi.idx (grokmidi.card a))
                      (grokmidi.riff (grokmidi.card a))
                      (grokmidi.history (grokmidi.card a) ++ [st]) r
                      (grokmidi.entry (grokmidi.card a))
                      (grokmidi.strum_var (grokmidi.card a)))) st Hs)
      as (Rs & E & Hh & Hr).
    by rewrite Hh, Hr, E. }
  split; [exact undo_short|]. split; [exact U|].
  split; [by intros a H; unfold grokmidi.redo; rewrite H|].
  split; [exact R|].
  split; [intros a; repeat split; apply snapshot_is_snapshot|].
  intros a S0 S1 S2 H Hr Hs0 Hs1 a1 a2 a3 a4.
  destruct (U a [S0] S1 S2 H Hs1) as (Hh1 & Hr1 & _ & Re1). fold a1 in Hh1, Hr1, Re1.
  destruct (U a1 [] S0 S1 Hh1 Hs0) as (Hh2 & Hr2 & _ & Re2). fold a2 in Hh2, Hr2, Re2.
  assert (E3 : a3 = a2).
  { unfold a3. rewrite undo_short; [done|]. rewrite Hh2. cbn. lia. }
  rewrite Hr1, Hr in Hr2. cbn in Hr2. rewrite <- E3 in Hr2.
  destruct (R a3 [S2] S1 Hr2 Hs1) as (_ & _ & _ & Re4).
  split; [exact Re1|]. split; [exact Re2|]. split; [exact E3|]. exact Re4.
Qed.

Lemma C4_undo_redo_witness :
  grokmidi.history (grokmidi.card three_commits)
  = [snap [] "C"; snap ["C"] "D"; snap ["D"] "E"]
  ∧ grokmidi.redo_stack (grokmidi.card three_commits) = []
  ∧ is_snapshot (snap [] "C") ∧ is_snapshot (snap ["C"] "D")
  ∧ (let a1 := fst (grokmidi.undo three_commits) in
     let a2 := fst (grokmidi.undo a1) in
     let a3 := fst (grokmidi.undo a2) in
     let a4 := fst (grokmidi.redo a3) in
     restored (snap ["C"] "D") a1 ∧ restored (snap [] "C") a2 ∧ a3 = a2
     ∧ restored (snap ["C"] "D") a4).
Proof.
  assert (H : grokmidi.history (grokmidi.card three_commits)
              = [snap [] "C"; snap ["C"] "D"; snap ["D"] "E"])
    by (vm_compute; reflexivity).
  assert (Hr : grokmidi.redo_stack (grokmidi.card three_commits) = [])
    by (vm_compute; reflexivity).
  assert (H0 : is_snapshot (snap [] "C"))
    by (exists "C", false; split; vm_compute; reflexivity).
  assert (H1 : is_snapshot (snap ["C"] "D"))
    by (exists "D", false; split; vm_compute; reflexivity).
  split; [exact H|]. split; [exact Hr|]. split; [exact H0|].
  split; [exact H1|].
  exact (proj2 (proj2 (proj2 (proj2 (proj2 C4_undo_redo))))
           three_commits (snap [] "C") (snap ["C"] "D") (snap ["D"] "E")
           H Hr H0 H1).
Defined.

(** ** Committing a text *)

Section commit.
Import grokmidi.

Lemma the_riff_save_state (a : App) : the_riff (save_state a) = the_riff a.
Proof. reflexivity. Qed.

(** A blank entry: [save_riff] takes its snapshot and returns. *)
Lemma save_riff_blank (a : App) :
  Py.strip (entry (card a)) = "" →
  save_riff a = (save_state a, Returned).
Proof.
  intros H. unfold save_riff.
  change (entry (card (save_state a))) with (entry (card a)).
  by rewrite H.
Qed.

(** Any other entry: the riff gets the words of the text, the duration
    ["4s"] and the strum box, whatever happens afterwards. *)
Lemma save_riff_writes (a : App) :
  Py.strip (entry (card a)) ≠ "" →
  the_riff (fst (save_riff a))
  = <["strum" := VBool (strum_var (card a))]>
      (<["duration" := VStr "4s"]>
         (<["notes" := VNotes (Py.split (Py.strip (entry (card a))))]>
            (the_riff a))).
Proof.
  intros H. unfold save_riff.
  change (entry (card (save_state a))) with (entry (card a)).
  change (strum_var (card (save_state a))) with (strum_var (card a)).
  change (track (card (save_state a))) with (track (card a)).
  change (idx (card (save_state a))) with (idx (card a)).
  destruct (String.eqb_spec (Py.strip (entry (card a))) "") as [E|_]; [done|].
  rewrite !the_riff_set_riff.
  match goal with
  | |- context [set_slot ?sd ?t ?i ?l] => destruct (set_slot sd t i l)
  end; cbn [fst].
  - unfold the_riff at 1. cbn [store card riff set_riff].
    match goal with
    | |- context [<[?l := ?d]> (<[?r := ?d']> ?m) !!! ?r'] =>
        destruct (decide (l = r)) as [->|Hne]
    end.
    + by rewrite lookup_total_insert_eq.
    + rewrite lookup_total_insert_ne by done.
      by rewrite lookup_total_insert_eq.
  - by rewrite the_riff_set_riff.
Qed.

End commit.

(** A text of blanks is not the empty text, yet [save_riff] returns before
    it writes the riff: the eighth-note duration stays. *)
Lemma C10_counterexample :
  grokmidi.entry (grokmidi.card (eighths_card " ")) ≠ ""
  ∧ grokmidi.the_riff (eighths_card " ") !! "duration" = Some (VStr "8s")
  ∧ grokmidi.the_riff (fst (grokmidi.save_riff (eighths_card " "))) !! "duration"
    = Some (VStr "8s").
Proof. split; [discriminate|]. split; vm_compute; reflexivity. Qed.

(** C10 (amended): when the entry text is not blank, that is not empty
    once stripped, [save_riff] leaves the riff's duration at ["4s"]
    whatever it was before. *)
Theorem C10_commit_resets_duration (a : grokmidi.App) :
  Py.strip (grokmidi.entry (grokmidi.card a)) ≠ "" →
  grokmidi.the_riff (fst (grokmidi.save_riff a)) !! "duration"
  = Some (VStr "4s").
Proof.
  intros H. rewrite (save_riff_writes a H). by simplify_map_eq.
Qed.

Lemma C10_commit_resets_duration_witness :
  Py.strip (grokmidi.entry (grokmidi.card (eighths_card " E G "))) ≠ ""
  ∧ grokmidi.the_riff (fst (grokmidi.save_riff (eighths_card " E G ")))
      !! "duration" = Some (VStr "4s").
Proof.
  assert (H : Py.strip (grokmidi.entry (grokmidi.card (eighths_card " E G ")))
              ≠ "") by (vm_compute; discriminate).
  split; [exact H|].
  exact (C10_commit_resets_duration (eighths_card " E G ") H).
Defined.

(** ** Unknown letters at commit *)

(** [midigimp.py] checks before it commits: whenever
    [_save_or_update_riff] does not save, it leaves the application as it
    was. *)
Lemma midigimp_commit_or_unchanged (add_new : bool) (a : midigimp.MidiWriterApp) :
  snd (midigimp._save_or_update_riff add_new a) ≠ midigimp.Saved →
  fst (midigimp._save_or_update_riff add_new a) = a.
Proof.
  unfold midigimp._save_or_update_riff.
  destruct (String.eqb _ ""); [done|].
  destruct (midigimp.parse_octave _); [|done].
  destruct (midigimp.parse_instrument _); [|done].
  destruct (midigimp.validate _); [done|].
  destruct add_new, (midigimp.editing_index a) as [index|]; cbn; try done.
  destruct (decide _); cbn; done.
Qed.

(** A subnote whose first letter is not one of A to G stops the check,
    and the message names the letter and the subnote. *)
Lemma midigimp_check_sub_letter (c : ascii) (rest : string) :
  midigimp.in_letters (Py.upper_char c) = false →
  midigimp.check_sub (String c rest)
  = Some (midigimp.ShowError
            (midigimp.InvalidNoteLetter (Py.upper_char c) (String c rest))).
Proof. intros H. unfold midigimp.check_sub. by rewrite H. Qed.

(** Nothing is saved unless every subnote of every token that is not a
    rest starts with one of A to G. *)
Lemma midigimp_saved_letters (add_new : bool) (a : midigimp.MidiWriterApp) :
  snd (midigimp._save_or_update_riff add_new a) = midigimp.Saved →
  ∀ ng sub : string,
    ng ∈ Py.split (Py.strip (midigimp.notes_entry a)) →
    String.eqb (Py.upper ng) "R" = false →
    sub ∈ Py.split_on "+" ng →
    ∃ (c : ascii) (rest : string),
      sub = String c rest ∧ midigimp.in_letters (Py.upper_char c) = true.
Proof.
  unfold midigimp._save_or_update_riff.
  destruct (String.eqb _ ""); [done|].
  destruct (midigimp.parse_octave _); [|done].
  destruct (midigimp.parse_instrument _); [|done].
  destruct (midigimp.validate _) as [o|] eqn:V.
  { cbn. intros ->. exfalso. revert V. unfold midigimp.validate.
    generalize (Py.split (Py.strip (midigimp.notes_entry a))).
    induction l as [|g l IH]; cbn; [done|].
    destruct (midigimp.check_group g) as [o|] eqn:G; [|done].
    intros [= ->]. unfold midigimp.check_group in G.
    destruct (String.eqb (Py.upper g) "R"); [done|].
    revert G. generalize (Py.split_on "+" g).
    induction l0 as [|s l0 IH0]; cbn; [done|].
    destruct (midigimp.check_sub s) as [o|] eqn:C; [|done].
    intros [= ->]. unfold midigimp.check_sub in C.
    destruct s as [|c0 [|c1 [|? ?]]]; try done;
      destruct (negb (midigimp.in_letters _)); try done;
      destruct (negb (midigimp.in_modifiers _)); done. }
  intros _ ng sub Hng Hr Hsub. revert V ng Hng Hr sub Hsub.
  unfold midigimp.validate.
  generalize (Py.split (Py.strip (midigimp.notes_entry a))).
  induction l as [|g l IH]; cbn; intros V ng Hng Hr sub Hsub.
  { by apply elem_of_nil in Hng. }
  destruct (midigimp.check_group g) as [o|] eqn:G; [done|].
  apply elem_of_cons in Hng as [->|Hng]; [|by eapply IH].
  unfold midigimp.check_group in G. rewrite Hr in G.
  clear -G Hsub. revert G sub Hsub. generalize (Py.split_on "+" g).
  induction l as [|s l IH]; cbn; intros G sub Hsub.
  { by apply elem_of_nil in Hsub. }
  destruct (midigimp.check_sub s) as [o|] eqn:C; [done|].
  apply elem_of_cons in Hsub as [->|Hsub]; [|by eapply IH].
  unfold midigimp.check_sub in C. destruct s as [|c rest]; [done|].
  exists c, rest. split; [done|].
  change (midigimp.in_letters (Py.upper_char c) = true).
  destruct (midigimp.in_letters (Py.upper_char c)); [done|].
  cbn in C. discriminate C.
Qed.

(** The letter X typed alone into [midigimp.py], the two boxes showing
    choices that read as numbers: the error is shown and nothing
    changes. *)
Example midigimp_rejects_X (a : midigimp.MidiWriterApp) (o p : Z) :
  midigimp.notes_entry a = "C X" →
  midigimp.parse_octave (midigimp.octave_combo a) = Ok o →
  midigimp.parse_instrument (midigimp.instrument_combo a) = Ok p →
  midigimp._save_or_update_riff true a
  = (a, midigimp.ShowError (midigimp.InvalidNoteLetter "X" "X")).
Proof.
  intros H Ho Hp. unfold midigimp._save_or_update_riff. by rewrite H, Ho, Hp.
Qed.

(** C5 at the failing input: [save_riff] of [grokmidi.py] with the entry
    text "X" on a fresh card.  No check is made: the riff and the record in
    [song_data] now hold the token X; on a pitched track the only signal is
    the [KeyError] that drawing raises after the writes, and on a drum
    track there is none. *)
Theorem C5_save_riff_unchecked :
  let a := grokmidi.type_entry "X" (grokmidi.init_app 0 0 false) in
  let d := grokmidi.type_entry "X" (grokmidi.init_app 0 0 true) in
  grokmidi.the_riff a !! "notes" = Some (VNotes [])
  ∧ grokmidi.the_riff (fst (grokmidi.save_riff a)) !! "notes"
    = Some (VNotes ["X"])
  ∧ (∃ rec : gmap string val,
        grokmidi.tracks (grokmidi.save_song (fst (grokmidi.save_riff a)))
          !! 0%nat ≫= (.!! 0%nat) = Some rec
        ∧ rec !! "notes" = Some (VNotes ["X"]))
  ∧ snd (grokmidi.save_riff a) = grokmidi.Raised KeyError
  ∧ grokmidi.the_riff (fst (grokmidi.save_riff d)) !! "notes"
    = Some (VNotes ["X"])
  ∧ snd (grokmidi.save_riff d) = grokmidi.Returned
  ∧ grokmidi.export_track 0 0 60 [mkRiff ["X"] "4s" 60 false] = Raise KeyError.
Proof.
  cbv zeta. split; [vm_compute; reflexivity|].
  split; [vm_compute; reflexivity|].
  split.
  { exists (grokmidi.riff_dict (mkRiff ["X"] "4s" 60 false)).
    split; vm_compute; reflexivity. }
  repeat split; vm_compute; reflexivity.
Qed.

(** ** The save file *)

(** C7 at the failing input.  On a fresh card, whose riff is the very
    dictionary [song_data] names, two commits and an undo: [riff.update]
    copies the snapshot's [text] into that dictionary, and [save_song]
    writes it.  And when the slot holds a copy: commit C, commit D, undo,
    commit E; the copy made by the last commit carries the [text] that the
    undo left in the riff. *)
Theorem C7_text_reaches_save_file :
  let a := grokmidi.run [grokmidi.SaveRiff; grokmidi.SaveRiff; grokmidi.Undo]
             (grokmidi.init_app 0 0 false) in
  let b := grokmidi.run
             [grokmidi.Type_ "C"; grokmidi.SaveRiff; grokmidi.Type_ "D";
              grokmidi.SaveRiff; grokmidi.Undo; grokmidi.Type_ "E";
              grokmidi.SaveRiff]
             (grokmidi.init_app 0 0 false) in
  (∃ rec : gmap string val,
      grokmidi.tracks (grokmidi.save_song a) !! 0%nat ≫= (.!! 0%nat) = Some rec
      ∧ rec !! "text" = Some (VStr "")
      ∧ dom rec ≠ schema)
  ∧ (∃ rec : gmap string val,
        grokmidi.tracks (grokmidi.save_song b) !! 0%nat ≫= (.!! 0%nat)
        = Some rec
        ∧ rec !! "notes" = Some (VNotes ["E"])
        ∧ rec !! "text" = Some (VStr "C")
        ∧ dom rec ≠ schema).
Proof.
  assert (N : ∀ rec : gmap string val, is_Some (rec !! "text") → dom rec ≠ schema).
  { intros rec Hs E. apply elem_of_dom in Hs. rewrite E in Hs.
    unfold schema in Hs.
    repeat (apply elem_of_union in Hs as [Hs|Hs]);
      apply elem_of_singleton in Hs; discriminate Hs. }
  cbv zeta. split.
  - exists (snap [] "").
    split; [vm_compute; reflexivity|]. split; [vm_compute; reflexivity|].
    apply N. eexists. vm_compute. reflexivity.
  - exists (<["text" := VStr "C"]>
              (grokmidi.riff_dict (mkRiff ["E"] "4s" 60 false))).
    split; [vm_compute; reflexivity|]. split; [vm_compute; reflexivity|].
    split; [vm_compute; reflexivity|].
    apply N. eexists. vm_compute. reflexivity.
Qed.

(** Without undo and redo the records keep the schema: the leak above is
    the work of [riff.update] alone. *)
Section schema.
Import grokmidi.

Lemma elem_of_list_insert_inv {A} (l : list A) (i : nat) (x y : A) :
  x ∈ <[i := y]> l → x = y ∨ x ∈ l.
Proof.
  revert i. induction l as [|z l IH]; intros i H; [by right|].
  destruct i as [|i]; cbn in H.
  - apply elem_of_cons in H as [->|H]; [by left|].
    right. by apply list_elem_of_further.
  - apply elem_of_cons in H as [->|H]; [right; apply list_elem_of_here|].
    destruct (IH i H) as [->|H']; [by left|].
    right. by apply list_elem_of_further.
Qed.

Lemma schema_in_store (m : gmap nat (gmap string val)) (l : nat) :
  dom (m !!! l) = schema → l ∈ dom m.
Proof.
  intros H. destruct (m !! l) as [d|] eqn:E; [by eapply elem_of_dom_2|].
  rewrite lookup_total_alt, E in H. cbn in H. rewrite dom_empty_L in H.
  assert (Hn : "notes" ∈ schema)
    by (unfold schema; rewrite !elem_of_union, !elem_of_singleton; tauto).
  rewrite <- H in Hn. by apply elem_of_empty in Hn.
Qed.

Lemma schema_insert (d : gmap string val) (k : string) (v : val) :
  k ∈ schema → dom d = schema → dom (<[k := v]> d) = schema.
Proof.
  intros Hk Hd. rewrite dom_insert_L, Hd.
  apply set_eq. intros x. rewrite elem_of_union, elem_of_singleton.
  split; [intros [->|]; done|tauto].
Qed.

Lemma schema_kept_set_riff (a : App) (d : gmap string val) :
  schema_kept a → dom d = schema → schema_kept (set_riff a d).
Proof.
  intros [_ Hs] Hd. split; [by rewrite the_riff_set_riff|].
  intros row l Hrow Hl. unfold set_riff. cbn.
  destruct (decide (riff (card a) = l)) as [->|Hne].
  - by rewrite lookup_total_insert_eq.
  - rewrite lookup_total_insert_ne by done. by eapply Hs.
Qed.

Lemma schema_kept_set_card (a : App) (c : RiffCard) :
  schema_kept a → riff c = riff (card a) → schema_kept (set_card a c).
Proof.
  intros [Hr Hs] E. split; [|exact Hs].
  unfold the_riff, set_card. cbn. by rewrite E.
Qed.

Lemma schema_kept_save_riff (a : App) :
  schema_kept a → schema_kept (fst (save_riff a)).
Proof.
  intros K.
  assert (K0 : schema_kept (save_state a)) by (by apply schema_kept_set_card).
  unfold save_riff. destruct (String.eqb _ ""); [exact K0|].
  set (n := <["notes" := _]> _).
  assert (K1 : schema_kept (set_riff (save_state a) n)).
  { apply schema_kept_set_riff; [done|]. apply schema_insert; [|apply K0].
    unfold schema. rewrite !elem_of_union, !elem_of_singleton. tauto. }
  set (a1 := set_riff (save_state a) n) in *.
  set (du := <["duration" := _]> _).
  assert (K2 : schema_kept (set_riff a1 du)).
  { apply schema_kept_set_riff; [done|]. apply schema_insert; [|apply K1].
    unfold schema. rewrite !elem_of_union, !elem_of_singleton. tauto. }
  set (a2 := set_riff a1 du) in *.
  set (su := <["strum" := _]> _).
  assert (K3 : schema_kept (set_riff a2 su)).
  { apply schema_kept_set_riff; [done|]. apply schema_insert; [|apply K2].
    unfold schema. rewrite !elem_of_union, !elem_of_singleton. tauto. }
  set (a3 := set_riff a2 su) in *.
  destruct (set_slot _ _ _ _) as [sd|e] eqn:S; cbn [fst]; [|exact K3].
  destruct K3 as [Kr Ks].
  assert (Hf : fresh (dom (store a3)) ∉ dom (store a3)) by apply is_fresh.
  set (l := fresh (dom (store a3))) in *.
  assert (Hr : riff (card a3) ≠ l).
  { intros E. apply Hf. rewrite <- E. by apply schema_in_store. }
  split.
  - unfold the_riff at 1. cbn. by rewrite lookup_total_insert_ne.
  - intros row l' Hrow Hl'. cbn in Hrow |- *.
    unfold set_slot in S.
    destruct (song_data a3 !! track _) as [row0|] eqn:E0; [|done].
    destruct (decide _); [|done]. injection S as <-.
    destruct (decide (l = l')) as [<-|Hne];
      [by rewrite lookup_total_insert_eq|].
    rewrite lookup_total_insert_ne by done.
    apply elem_of_list_insert_inv in Hrow as [->|Hrow]; [|by eapply Ks].
    apply elem_of_list_insert_inv in Hl' as [->|Hl']; [done|].
    eapply Ks; [|done]. by eapply list_elem_of_lookup_2.
Qed.

Lemma schema_kept_set_at (a : App) (l : nat) (c : Z) :
  schema_kept a →
  schema_kept (set_at a l (<["c_scale" := VInt c]> (store a !!! l))).
Proof.
  intros [Hr Hs].
  assert (Hc : "c_scale" ∈ schema)
    by (unfold schema; rewrite !elem_of_union, !elem_of_singleton; tauto).
  split.
  - unfold the_riff, set_at. cbn.
    destruct (decide (l = riff (card a))) as [->|Hne].
    + rewrite lookup_total_insert_eq. by apply schema_insert.
    + by rewrite lookup_total_insert_ne.
  - intros row l' Hrow Hl'. cbn in Hrow |- *.
    destruct (decide (l = l')) as [->|Hne].
    + rewrite lookup_total_insert_eq. apply schema_insert; [done|].
      by eapply Hs.
    + rewrite lookup_total_insert_ne by done. by eapply Hs.
Qed.

Lemma schema_kept_update_cards (c : Z) (cards : list nat) :
  ∀ a : App, schema_kept a → schema_kept (fst (update_cards c cards a)).
Proof.
  induction cards as [|l cards IH]; intros a K; cbn [update_cards]; [done|].
  destruct (draw_riff _ _); [apply IH|cbn [fst]]; by apply schema_kept_set_at.
Qed.

Lemma schema_kept_step (a : App) (o : op) :
  plain o = true → schema_kept a → schema_kept (step a o).
Proof.
  intros Hp K. destruct o; try discriminate Hp; cbn [step].
  - by apply schema_kept_set_card.
  - by apply schema_kept_set_card.
  - by apply schema_kept_save_riff.
  - by apply schema_kept_update_cards.
Qed.

Lemma schema_kept_run (ops : list op) (a : App) :
  forallb plain ops = true → schema_kept a → schema_kept (run ops a).
Proof.
  revert a. induction ops as [|o ops IH]; intros a Hp K; [done|].
  cbn in Hp. apply andb_true_iff in Hp as [Ho Hops].
  cbn. apply IH; [done|]. by apply schema_kept_step.
Qed.

Lemma schema_kept_records (a : App) : schema_kept a → records_ok (save_song a).
Proof.
  intros [_ Ks] row rec Hrow Hrec. cbn in Hrow.
  apply list_elem_of_fmap in Hrow as (ls & -> & Hls).
  apply list_elem_of_fmap in Hrec as (l & -> & Hl). by eapply Ks.
Qed.

Lemma schema_kept_init (t i : nat) (drum : bool) :
  (t < 4)%nat → (i < 3)%nat → schema_kept (init_app t i drum).
Proof.
  intros Ht Hi.
  assert (D : dom (riff_dict empty_riff) = schema) by (vm_compute; reflexivity).
  assert (L : ∀ l : nat, (l < 12)%nat → store (init_app t i drum) !!! l
                                     = riff_dict empty_riff).
  { intros l Hl. cbn [store init_app].
    rewrite lookup_total_alt.
    rewrite (elem_of_list_to_map_1 _ l (riff_dict empty_riff)); [done| |].
    - change (NoDup (seq 0 12)). apply NoDup_seq.
    - apply list_elem_of_fmap. exists l. split; [done|].
      apply elem_of_seq. lia. }
  split.
  - unfold the_riff. cbn [card riff init_app]. rewrite L by lia. exact D.
  - intros row l Hrow Hl. rewrite L; [exact D|].
    cbn in Hrow.
    repeat (apply elem_of_cons in Hrow as [->|Hrow]);
      try (by apply elem_of_nil in Hrow);
      repeat (apply elem_of_cons in Hl as [->|Hl]);
      try (by apply elem_of_nil in Hl); lia.
Qed.

(** From the start of the application, any run of typing, ticking,
    commits and scale changes leaves only schema records to save. *)
Lemma plain_runs_save_schema (t i : nat) (drum : bool) (ops : list op) :
  (t < 4)%nat → (i < 3)%nat → forallb plain ops = true →
  records_ok (save_song (run ops (init_app t i drum))).
Proof.
  intros Ht Hi Hp. apply schema_kept_records, schema_kept_run; [done|].
  by apply schema_kept_init.
Qed.

End schema.

(** * Further properties of the two programs *)

(** ** Pitches: trailing text, errors, drums *)

Lemma acc_lookup_sym (c0 c1 : ascii) (rest : string) :
  default 0 (Py.lookup_char grokmidi.ACC_MAP (Py.lower_char c1))
  = sym_shift (grokmidi.accidental_sym (String c0 (String c1 rest))).
Proof. destruct c1 as [[] [] [] [] [] [] [] []]; reflexivity. Qed.

Lemma midi_from_str_second (L c1 : ascii) (rest : string) (n : Z) :
  is_note_letter L →
  grokmidi.midi_from_str (String L (String c1 rest)) n
  = Ok (Some (n + (letterSemitone L
                   + default 0 (Py.lookup_char grokmidi.ACC_MAP
                                  (Py.lower_char c1))) mod 12)).
Proof.
  intros HL. apply note_letter_cases in HL.
  repeat (apply elem_of_cons in HL as [HL|HL]);
    try (by apply elem_of_nil in HL); subst L;
    unfold grokmidi.midi_from_str; cbn -[Py.lower_char grokmidi.ACC_MAP Z.modulo];
    by destruct (Py.lookup_char grokmidi.ACC_MAP (Py.lower_char c1)).
Qed.

(** X1: whatever follows a note letter, the pitch [midi_from_str] returns
    is the anchor plus the letter's semitone, shifted as the sign that
    [accidental_sym] draws says and reduced modulo 12: only the second
    character counts, and the pitch stays within the octave above the
    anchor. *)
Theorem accidental_sign_matches_pitch (L : ascii) (rest : string) (n : Z) :
  is_note_letter L →
  ∃ base : Z,
    base = (letterSemitone L
            + sym_shift (grokmidi.accidental_sym (String L rest))) mod 12
    ∧ 0 ≤ base < 12
    ∧ grokmidi.midi_from_str (String L rest) n = Ok (Some (n + base)).
Proof.
  intros HL. eexists. split; [reflexivity|].
  split; [apply Z.mod_pos_bound; lia|].
  destruct rest as [|c1 rest].
  - assert (Hw : "" ∈ written Natural) by in_list.
    rewrite (midi_from_str_note L Natural "" n HL Hw). reflexivity.
  - rewrite (midi_from_str_second L c1 rest n HL).
    by rewrite (acc_lookup_sym L c1 rest).
Qed.

Lemma accidental_sign_matches_pitch_witness :
  is_note_letter "e"
  ∧ ∃ base : Z,
      base = (letterSemitone "e"
              + sym_shift (grokmidi.accidental_sym "eBmaj7")) mod 12
      ∧ 0 ≤ base < 12
      ∧ grokmidi.midi_from_str "eBmaj7" 60 = Ok (Some (60 + base)).
Proof.
  assert (H : is_note_letter "e") by (unfold is_note_letter; in_list).
  split; [exact H|].
  exact (accidental_sign_matches_pitch "e"%char "Bmaj7" 60 H).
Defined.

Lemma unknown_letter_lookups (u : ascii) :
  existsb (Ascii.eqb u) (note_letters ++ drum_letters) = false →
  Py.lookup_char grokmidi.DRUM_MAP u = None
  ∧ Py.lookup_char grokmidi.NOTE_MAP u = None.
Proof.
  destruct u as [[] [] [] [] [] [] [] []]; vm_compute; intros H;
    first [discriminate H | by split].
Qed.

(** X2: what [midi_from_str] raises.  The empty text raises [IndexError];
    any other text raises [KeyError] exactly when it is not a rest and its
    first letter is neither a note letter nor a drum letter; every other
    text returns. *)
Theorem midi_from_str_errors (s : string) (n : Z) :
  (s = "" → grokmidi.midi_from_str s n = Raise IndexError)
  ∧ (s ≠ "" → known_sub s = false →
     grokmidi.midi_from_str s n = Raise KeyError)
  ∧ (known_sub s = true → ∃ p, grokmidi.midi_from_str s n = Ok p).
Proof.
  split; [by intros ->|]. split; [|apply midi_from_str_total].
  intros Hne H. destruct s as [|c rest]; [done|].
  unfold known_sub in H. apply orb_false_iff in H as [HR HK].
  unfold grokmidi.midi_from_str. rewrite HR. cbn [Py.index0 bind].
  destruct (unknown_letter_lookups (Py.upper_char c) HK) as [-> HN].
  unfold Py.subscript. by rewrite HN.
Qed.

Lemma midi_from_str_errors_witness :
  ("Zb" ≠ "" ∧ known_sub "Zb" = false
   ∧ grokmidi.midi_from_str "Zb" 60 = Raise KeyError)
  ∧ (known_sub "hat" = true ∧ ∃ p, grokmidi.midi_from_str "hat" 60 = Ok p).
Proof.
  assert (H1 : "Zb" ≠ "") by discriminate.
  assert (H2 : known_sub "Zb" = false) by reflexivity.
  assert (H3 : known_sub "hat" = true) by reflexivity.
  split.
  - split; [exact H1|]. split; [exact H2|].
    exact (proj1 (proj2 (midi_from_str_errors "Zb" 60)) H1 H2).
  - split; [exact H3|].
    exact (proj2 (proj2 (midi_from_str_errors "hat" 60)) H3).
Defined.

(** X3: a text that starts with a drum letter, of either case, resolves to
    that drum's pitch whatever follows the letter and whatever the anchor,
    and its staff position is the middle line whatever the anchor. *)
Theorem drum_hit_fixed_pitch (c : ascii) (rest : string) :
  Py.upper_char c ∈ drum_letters →
  ∃ p : Z,
    p ∈ drum_pitches
    ∧ Py.lookup_char grokmidi.DRUM_MAP (Py.upper_char c) = Some p
    ∧ (∀ n : Z, grokmidi.midi_from_str (String c rest) n = Ok (Some p))
    ∧ (∀ n : Z, grokmidi.staff_pos (Py.upper_char c) n = Ok 6).
Proof.
  intros H. unfold grokmidi.midi_from_str, grokmidi.staff_pos.
  cbn [Py.upper Py.index0 bind].
  set (u := Py.upper_char c) in *. clearbody u.
  unfold drum_letters in H.
  repeat (apply elem_of_cons in H as [H|H]);
    try (by apply elem_of_nil in H); subst u.
  - exists 35. split; [in_list|]. by repeat split.
  - exists 38. split; [in_list|]. by repeat split.
  - exists 42. split; [in_list|]. by repeat split.
Qed.

Lemma drum_hit_fixed_pitch_witness :
  Py.upper_char "s" ∈ drum_letters
  ∧ ∃ p : Z,
      p ∈ drum_pitches
      ∧ Py.lookup_char grokmidi.DRUM_MAP (Py.upper_char "s") = Some p
      ∧ (∀ n : Z, grokmidi.midi_from_str "snare" n = Ok (Some p))
      ∧ (∀ n : Z, grokmidi.staff_pos (Py.upper_char "s") n = Ok 6).
Proof.
  assert (H : Py.upper_char "s" ∈ drum_letters) by in_list.
  split; [exact H|].
  exact (drum_hit_fixed_pitch "s"%char "nare" H).
Defined.

(** ** Routing of the notes *)

Lemma foldR_invariant {A S} (f : S → A → result S) (P : S → Prop) (l : list A) :
  (∀ st a st', P st → f st a = Ok st' → P st') →
  ∀ st st', P st → grokmidi.foldR f st l = Ok st' → P st'.
Proof.
  intros Hf. induction l as [|a l IH]; intros st st' HP H; cbn in H.
  - by injection H as <-.
  - destruct (f st a) as [st1|e] eqn:E; [|discriminate H].
    cbn in H. eapply IH; [|exact H]. by eapply Hf.
Qed.

Lemma add_notes_routed (t : nat) (prog : Z) (delay tp dur : Q)
    (ps : list (option Z)) :
  ∀ j : nat,
    Forall (routed t prog) (grokmidi.add_notes t prog delay tp dur j ps).
Proof.
  induction ps as [|[p|] ps IH]; intros j; cbn.
  - constructor.
  - constructor; [by repeat split|apply IH].
  - apply IH.
Qed.

Lemma export_track_routed (t : nat) (prog c : Z) (riffs : list Riff)
    (added : list Note) (tp : Q) :
  grokmidi.export_track t prog c riffs = Ok (added, tp) →
  Forall (routed t prog) added.
Proof.
  unfold grokmidi.export_track. intros H.
  apply (foldR_invariant (grokmidi.riff_step t prog c)
           (fun st => Forall (routed t prog) (fst st)) riffs) in H;
    [exact H| |by constructor].
  intros [a0 t0] r [a1 t1] HP. unfold grokmidi.riff_step.
  destruct (notes r) as [|ng ngs]; [by intros [= <- <-]|].
  apply (foldR_invariant _ (fun st => Forall (routed t prog) (fst st))); [|exact HP].
  clear. intros [a0 t0] ng [a1 t1] HP. unfold grokmidi.group_step.
  destruct (String.eqb _ "R"); [by intros [= <- <-]|].
  unfold grokmidi.group_notes.
  destruct (mapR _ _) as [ps|e]; [|discriminate]. cbn.
  intros [= <- <-]. cbn in *. apply Forall_app. split; [exact HP|].
  apply add_notes_routed.
Qed.

Lemma export_tracks_routed (tracks : list (Z * Z * list Riff)) :
  ∀ (k : nat) (ns : list Note),
    grokmidi.export_tracks k tracks = Ok ns →
    ∀ e : Note, e ∈ ns →
    ∃ (prog c : Z) (riffs : list Riff),
      (k ≤ n_track e)%nat
      ∧ tracks !! (n_track e - k)%nat = Some (prog, c, riffs)
      ∧ routed (n_track e) prog e.
Proof.
  induction tracks as [|[[prog c] riffs] tracks IH]; intros k ns H e He; cbn in H.
  - injection H as <-. by apply elem_of_nil in He.
  - destruct (grokmidi.export_track k prog c riffs) as [[added tp]|x] eqn:E;
      [|discriminate H].
    cbn in H.
    destruct (grokmidi.export_tracks (S k) tracks) as [rest|x] eqn:E';
      [|discriminate H].
    cbn in H. injection H as <-.
    apply elem_of_app in He as [He|He].
    + pose proof (export_track_routed k prog c riffs added tp E) as HF.
      rewrite Forall_forall in HF. pose proof (HF e He) as R.
      destruct R as (Rt & Rc & Rv). exists prog, c, riffs.
      rewrite Rt, Nat.sub_diag. by repeat split.
    + destruct (IH (S k) rest E' e He) as (p' & c' & r' & Hk & Hl & R).
      exists p', c', r'. split; [lia|]. split; [|exact R].
      replace (n_track e - k)%nat with (S (n_track e - S k)) by lia.
      exact Hl.
Qed.

(** X4: in what [export_midi] hands to the MIDI file, every note belongs
    to one of the tracks, sits on channel 9 when that track's program is 35
    and on channel 0 otherwise, and has velocity 100: the channel depends
    on the track alone. *)
Theorem export_midi_routing (tracks : list (Z * Z * list Riff))
    (ns : list Note) (e : Note) :
  grokmidi.export_midi tracks = Ok ns → e ∈ ns →
  ∃ (prog c : Z) (riffs : list Riff),
    tracks !! n_track e = Some (prog, c, riffs)
    ∧ n_channel e = (if prog =? 35 then 9 else 0)
    ∧ n_volume e = 100.
Proof.
  intros H He.
  destruct (export_tracks_routed tracks 0 ns H e He)
    as (prog & c & riffs & _ & Hl & _ & Hc & Hv).
  exists prog, c, riffs. rewrite Nat.sub_0_r in Hl. by repeat split.
Qed.

Lemma export_midi_routing_witness :
  grokmidi.export_midi
    [(0, 60, [mkRiff ["C"; "R"] "4s" 60 false]);
     (35, 60, [mkRiff ["K"] "8s" 60 false])]
  = Ok [mkNote 0 0 60 0 1 100; mkNote 1 9 35 0 (1 # 2) 100]
  ∧ mkNote 1 9 35 0 (1 # 2) 100
    ∈ [mkNote 0 0 60 0 1 100; mkNote 1 9 35 0 (1 # 2) 100]
  ∧ ∃ (prog c : Z) (riffs : list Riff),
      [(0, 60, [mkRiff ["C"; "R"] "4s" 60 false]);
       (35, 60, [mkRiff ["K"] "8s" 60 false])]
        !! n_track (mkNote 1 9 35 0 (1 # 2) 100)
      = Some (prog, c, riffs)
      ∧ n_channel (mkNote 1 9 35 0 (1 # 2) 100)
        = (if prog =? 35 then 9 else 0)
      ∧ n_volume (mkNote 1 9 35 0 (1 # 2) 100) = 100.
Proof.
  assert (H : grokmidi.export_midi
                [(0, 60, [mkRiff ["C"; "R"] "4s" 60 false]);
                 (35, 60, [mkRiff ["K"] "8s" 60 false])]
              = Ok [mkNote 0 0 60 0 1 100; mkNote 1 9 35 0 (1 # 2) 100])
    by (vm_compute; reflexivity).
  assert (He : mkNote 1 9 35 0 (1 # 2) 100
               ∈ [mkNote 0 0 60 0 1 100; mkNote 1 9 35 0 (1 # 2) 100])
    by (apply list_elem_of_further, list_elem_of_here).
  split; [exact H|]. split; [exact He|].
  exact (export_midi_routing _ _ _ H He).
Defined.

(** ** A commit that draws also exports *)

Lemma mapR_Ok_inv {A B} (f : A → result B) (l : list A) (ys : list B) :
  mapR f l = Ok ys → ∀ x, x ∈ l → ∃ y, f x = Ok y.
Proof.
  revert ys. induction l as [|a l IH]; intros ys H x Hx.
  - by apply elem_of_nil in Hx.
  - cbn in H. destruct (f a) as [b|e] eqn:E; [|discriminate H]. cbn in H.
    destruct (mapR f l) as [bs|e] eqn:E'; [|discriminate H].
    apply elem_of_cons in Hx as [->|Hx]; [by eexists|]. by eapply IH.
Qed.

Lemma draw_sub_known (c : Z) (s : string) (u : unit) :
  grokmidi.draw_sub false c s = Ok u → known_sub s = true.
Proof.
  destruct s as [|c0 rest]; [discriminate|].
  intros H. unfold known_sub. apply orb_true_iff. right.
  unfold grokmidi.draw_sub in H. cbn [Py.index0 bind] in H.
  destruct c0 as [[] [] [] [] [] [] [] []];
    first [reflexivity | cbn in H; discriminate H].
Qed.

Lemma draw_group_known (c : Z) (ng : string) (u : unit) :
  grokmidi.draw_group false c ng = Ok u → known_token ng = true.
Proof.
  unfold grokmidi.draw_group, known_token. intros H.
  destruct (String.eqb (Py.upper ng) "R") eqn:E.
  - rewrite (rest_split ng E). cbn. unfold known_sub. by rewrite E.
  - destruct (mapR _ _) as [us|e] eqn:M; [|discriminate H].
    apply forallb_forall. intros s Hs. apply list_elem_of_In in Hs.
    destruct (mapR_Ok_inv _ _ _ M s Hs) as [[] Hu]. by eapply draw_sub_known.
Qed.

(** X5: on a pitched track, when [draw_staff] returns on the card's riff,
    the MIDI writer returns on that riff's notes as well, for every track
    index, program, anchor, duration code and strum flag: a riff that was
    drawn without an error is exported without one. *)
Theorem drawn_riff_exports (a : grokmidi.App) (ns : list string)
    (t : nat) (prog c : Z) (d : string) (c0 : Z) (sb : bool) :
  grokmidi.is_drum a = false →
  grokmidi.get_notes (grokmidi.the_riff a) = Ok ns →
  grokmidi.draw_staff a = grokmidi.Returned →
  ∃ (added : list Note) (tp : Q),
    grokmidi.export_track t prog c [mkRiff ns d c0 sb] = Ok (added, tp).
Proof.
  intros Hd Hn H. unfold grokmidi.draw_staff in H. rewrite Hn, Hd in H.
  cbn [bind] in H.
  destruct (grokmidi.get_c_scale _) as [cs|e]; [|discriminate H].
  cbn [bind] in H.
  destruct (mapR _ ns) as [us|e] eqn:M; [|discriminate H].
  assert (W : forallb well_formed [mkRiff ns d c0 sb] = true).
  { cbn. rewrite andb_true_r. apply forallb_forall. intros ng Hng.
    apply list_elem_of_In in Hng.
    destruct (mapR_Ok_inv _ _ _ M ng Hng) as [[] Hu].
    by eapply draw_group_known. }
  destruct (riffs_cursor t prog c _ W [] 0%Q) as (added & tp & E & _).
  by exists added, tp.
Qed.

Lemma drawn_riff_exports_witness :
  grokmidi.is_drum three_commits = false
  ∧ grokmidi.get_notes (grokmidi.the_riff three_commits) = Ok ["E"]
  ∧ grokmidi.draw_staff three_commits = grokmidi.Returned
  ∧ ∃ (added : list Note) (tp : Q),
      grokmidi.export_track 2 27 48 [mkRiff ["E"] "8s" 60 true]
      = Ok (added, tp).
Proof.
  assert (H1 : grokmidi.is_drum three_commits = false) by reflexivity.
  assert (H2 : grokmidi.get_notes (grokmidi.the_riff three_commits) = Ok ["E"])
    by (vm_compute; reflexivity).
  assert (H3 : grokmidi.draw_staff three_commits = grokmidi.Returned)
    by (vm_compute; reflexivity).
  split; [exact H1|]. split; [exact H2|]. split; [exact H3|].
  exact (drawn_riff_exports three_commits ["E"] 2 27 48 "8s" 60 true H1 H2 H3).
Defined.

(** ** How commits, undo and redo compose *)

Section compose.
Import grokmidi.

Lemma save_riff_card (a : App) : card (fst (save_riff a)) = card (save_state a).
Proof.
  unfold save_riff. destruct (String.eqb _ ""); [done|].
  by destruct (set_slot _ _ _ _).
Qed.

Lemma undo_restores_below (a : App) (h : list (gmap string val))
    (prev top : gmap string val) :
  history (card a) = h ++ [prev; top] → is_snapshot prev →
  history (card (fst (undo a))) = h ++ [prev]
  ∧ redo_stack (card (fst (undo a))) = redo_stack (card a) ++ [top]
  ∧ the_riff (fst (undo a)) = update (the_riff a) prev
  ∧ restored prev (fst (undo a)).
Proof.
  intros H Hs. rewrite (undo_pops a h prev top H).
  match goal with
  | |- context [restore ?b prev] =>
      destruct (restore_restored b prev Hs) as (R & E & Hh & Hr)
  end.
  by rewrite Hh, Hr, E.
Qed.

Lemma redo_restores_top (a : App) (r : list (gmap string val))
    (st : gmap string val) :
  redo_stack (card a) = r ++ [st] → is_snapshot st →
  redo_stack (card (fst (redo a))) = r
  ∧ history (card (fst (redo a))) = history (card a) ++ [st]
  ∧ the_riff (fst (redo a)) = update (the_riff a) st
  ∧ restored st (fst (redo a)).
Proof.
  intros H Hs. rewrite (redo_pops a r st H).
  match goal with
  | |- context [restore ?b st] =>
      destruct (restore_restored b st Hs) as (R & E & Hh & Hr)
  end.
  by rewrite Hh, Hr, E.
Qed.

End compose.

(** X6: [save_riff] always takes its snapshot first: whatever the entry
    holds, blank or not, and whether or not the later steps raise, the
    card's history grows by exactly the snapshot of the state before the
    commit and the redo stack is left empty. *)
Theorem commit_always_snapshots (a : grokmidi.App) :
  grokmidi.history (grokmidi.card (fst (grokmidi.save_riff a)))
  = grokmidi.history (grokmidi.card a) ++ [grokmidi.snapshot a]
  ∧ grokmidi.redo_stack (grokmidi.card (fst (grokmidi.save_riff a))) = [].
Proof. by rewrite save_riff_card. Qed.

(** X7: the first commit on a card cannot be undone: with an empty
    history, [undo] right after [save_riff] changes nothing, since the only
    snapshot is the one the commit has just pushed. *)
Theorem first_commit_not_undone (a : grokmidi.App) :
  grokmidi.history (grokmidi.card a) = [] →
  grokmidi.undo (fst (grokmidi.save_riff a))
  = (fst (grokmidi.save_riff a), grokmidi.Returned).
Proof.
  intros H. apply undo_short. rewrite save_riff_card.
  cbn [grokmidi.save_state grokmidi.set_card grokmidi.card grokmidi.history].
  rewrite H. cbn. lia.
Qed.

Lemma first_commit_not_undone_witness :
  grokmidi.history
    (grokmidi.card (grokmidi.type_entry "C E" (grokmidi.init_app 1 2 false)))
  = []
  ∧ grokmidi.undo
      (fst (grokmidi.save_riff
              (grokmidi.type_entry "C E" (grokmidi.init_app 1 2 false))))
    = (fst (grokmidi.save_riff
              (grokmidi.type_entry "C E" (grokmidi.init_app 1 2 false))),
       grokmidi.Returned).
Proof.
  assert (H : grokmidi.history
                (grokmidi.card
                   (grokmidi.type_entry "C E" (grokmidi.init_app 1 2 false)))
              = []) by reflexivity.
  split; [exact H|]. exact (first_commit_not_undone _ H).
Defined.

(** X8: undo does not go back one commit but two.  On a card with an
    empty history, after the texts [t1] and [t2] are committed one after
    the other, [undo] puts [t1] back into the entry and gives every field
    the riff had before the first commit the value it had then; the notes
    of [t1] are not what it restores. *)
Theorem undo_goes_back_two_commits (a : grokmidi.App) (t1 t2 : string) :
  grokmidi.history (grokmidi.card a) = [] →
  let a1 := fst (grokmidi.save_riff (grokmidi.type_entry t1 a)) in
  let a2 := fst (grokmidi.save_riff (grokmidi.type_entry t2 a1)) in
  let a3 := fst (grokmidi.undo a2) in
  grokmidi.entry (grokmidi.card a3) = t1
  ∧ grokmidi.history (grokmidi.card a3)
    = [grokmidi.snapshot (grokmidi.type_entry t1 a)]
  ∧ ∀ (k : string) (v : val),
      k ≠ "text" → k ≠ "strum" →
      grokmidi.the_riff a !! k = Some v → grokmidi.the_riff a3 !! k = Some v.
Proof.
  intros H a1 a2 a3.
  set (s0 := grokmidi.snapshot (grokmidi.type_entry t1 a)).
  assert (H1 : grokmidi.history (grokmidi.card a1) = [s0]).
  { unfold a1. rewrite save_riff_card.
    cbn [grokmidi.save_state grokmidi.set_card grokmidi.card grokmidi.history
         grokmidi.type_entry].
    by rewrite H. }
  assert (H2 : grokmidi.history (grokmidi.card a2)
               = [] ++ [s0; grokmidi.snapshot (grokmidi.type_entry t2 a1)]).
  { unfold a2. rewrite save_riff_card.
    cbn [grokmidi.save_state grokmidi.set_card grokmidi.card grokmidi.history
         grokmidi.type_entry].
    by rewrite H1. }
  destruct (undo_restores_below a2 [] s0 _ H2 (snapshot_is_snapshot _))
    as (Hh & _ & Hr & (_ & Ht & _)).
  fold a3 in Hh, Hr, Ht.
  split.
  { unfold s0, grokmidi.get_text, grokmidi.snapshot in Ht.
    simplify_map_eq. done. }
  split; [exact Hh|].
  intros k v Hk1 Hk2 Hv. rewrite Hr. unfold grokmidi.update.
  apply lookup_union_Some_l. unfold s0, grokmidi.snapshot.
  by rewrite !lookup_insert_ne.
Qed.

Lemma undo_goes_back_two_commits_witness :
  grokmidi.history (grokmidi.card (grokmidi.init_app 0 0 false)) = []
  ∧ (let a1 := fst (grokmidi.save_riff
                      (grokmidi.type_entry "C" (grokmidi.init_app 0 0 false))) in
     let a2 := fst (grokmidi.save_riff (grokmidi.type_entry "D" a1)) in
     let a3 := fst (grokmidi.undo a2) in
     grokmidi.entry (grokmidi.card a3) = "C"
     ∧ grokmidi.history (grokmidi.card a3)
       = [grokmidi.snapshot
            (grokmidi.type_entry "C" (grokmidi.init_app 0 0 false))]
     ∧ ∀ (k : string) (v : val),
         k ≠ "text" → k ≠ "strum" →
         grokmidi.the_riff (grokmidi.init_app 0 0 false) !! k = Some v →
         grokmidi.the_riff a3 !! k = Some v).
Proof.
  assert (H : grokmidi.history (grokmidi.card (grokmidi.init_app 0 0 false))
              = []) by reflexivity.
  split; [exact H|].
  exact (undo_goes_back_two_commits (grokmidi.init_app 0 0 false) "C" "D" H).
Defined.

(** X9: redo after undo does not bring back the riff as it was before the
    undo: it restores the snapshot that undo popped, which holds the state
    before the last edit.  Both stacks are as before the undo. *)
Theorem redo_after_undo (a : grokmidi.App) (h : list (gmap string val))
    (prev top : gmap string val) :
  grokmidi.history (grokmidi.card a) = h ++ [prev; top] →
  is_snapshot prev → is_snapshot top →
  let a2 := fst (grokmidi.redo (fst (grokmidi.undo a))) in
  grokmidi.history (grokmidi.card a2) = grokmidi.history (grokmidi.card a)
  ∧ grokmidi.redo_stack (grokmidi.card a2)
    = grokmidi.redo_stack (grokmidi.card a)
  ∧ grokmidi.the_riff a2
    = grokmidi.update (grokmidi.update (grokmidi.the_riff a) prev) top
  ∧ restored top a2.
Proof.
  intros H Hp Ht a2.
  destruct (undo_restores_below a h prev top H Hp) as (Hh & Hr & Hu & _).
  destruct (redo_restores_top (fst (grokmidi.undo a)) _ top Hr Ht)
    as (Hr2 & Hh2 & Hu2 & R).
  fold a2 in Hr2, Hh2, Hu2, R.
  split; [by rewrite Hh2, Hh, H, <- app_assoc|].
  split; [exact Hr2|]. split; [by rewrite Hu2, Hu|exact R].
Qed.

Lemma redo_after_undo_witness :
  grokmidi.history (grokmidi.card three_commits)
  = [snap [] "C"] ++ [snap ["C"] "D"; snap ["D"] "E"]
  ∧ is_snapshot (snap ["C"] "D") ∧ is_snapshot (snap ["D"] "E")
  ∧ (let a2 := fst (grokmidi.redo (fst (grokmidi.undo three_commits))) in
     grokmidi.history (grokmidi.card a2)
     = grokmidi.history (grokmidi.card three_commits)
     ∧ grokmidi.redo_stack (grokmidi.card a2)
       = grokmidi.redo_stack (grokmidi.card three_commits)
     ∧ grokmidi.the_riff a2
       = grokmidi.update
           (grokmidi.update (grokmidi.the_riff three_commits)
              (snap ["C"] "D"))
           (snap ["D"] "E")
     ∧ restored (snap ["D"] "E") a2).
Proof.
  assert (H : grokmidi.history (grokmidi.card three_commits)
              = [snap [] "C"] ++ [snap ["C"] "D"; snap ["D"] "E"])
    by (vm_compute; reflexivity).
  assert (H1 : is_snapshot (snap ["C"] "D"))
    by (exists "D", false; split; vm_compute; reflexivity).
  assert (H2 : is_snapshot (snap ["D"] "E"))
    by (exists "E", false; split; vm_compute; reflexivity).
  split; [exact H|]. split; [exact H1|]. split; [exact H2|].
  exact (redo_after_undo three_commits [snap [] "C"] (snap ["C"] "D")
           (snap ["D"] "E") H H1 H2).
Defined.

(** ** Words, [split] and [join] *)

Section words.
Local Open Scope string_scope.

Lemma sapp_cons (c : ascii) (s t : string) : String c s ++ t = String c (s ++ t).
Proof. reflexivity. Qed.

Lemma sapp_nil_l (s : string) : "" ++ s = s.
Proof. reflexivity. Qed.

Lemma sapp_nil_r (s : string) : s ++ "" = s.
Proof. induction s as [|c s IH]; [done|]. by rewrite sapp_cons, IH. Qed.

Lemma sapp_assoc (s t u : string) : (s ++ t) ++ u = s ++ (t ++ u).
Proof. induction s as [|c s IH]; [done|]. by rewrite !sapp_cons, IH. Qed.

Lemma sapp_nonempty_r (s t : string) : t ≠ "" → s ++ t ≠ "".
Proof. by destruct s, t. Qed.

Lemma nospace_cons (c : ascii) (w : string) :
  nospace (String c w) ↔ Py.isspace c = false ∧ nospace w.
Proof.
  unfold nospace. cbn. rewrite andb_true_iff, negb_true_iff. done.
Qed.

Lemma nospace_snoc (w : string) (c : ascii) :
  nospace w → Py.isspace c = false → nospace (w ++ String c "").
Proof.
  induction w as [|c' w IH]; intros Hw Hc.
  - apply nospace_cons. by split.
  - rewrite sapp_cons. apply nospace_cons in Hw as [Hc' Hw].
    apply nospace_cons. split; [done|]. by apply IH.
Qed.

Lemma is_word_spec (w : string) : is_word w = true ↔ w ≠ "" ∧ nospace w.
Proof.
  unfold is_word, nospace. rewrite andb_true_iff, negb_true_iff.
  by rewrite String.eqb_neq.
Qed.

(** Every piece that [split] returns is a word. *)
Lemma split_go_words (s : string) :
  ∀ cur : string,
    nospace cur → Forall (fun w => is_word w = true) (Py.split_ws_go cur s).
Proof.
  induction s as [|c s IH]; intros cur Hc; cbn.
  - destruct (String.eqb_spec cur ""); [constructor|].
    constructor; [|constructor]. by apply is_word_spec.
  - destruct (Py.isspace c) eqn:E.
    + destruct (String.eqb_spec cur ""); [by apply IH|].
      constructor; [by apply is_word_spec|by apply IH].
    + apply IH. by apply nospace_snoc.
Qed.

Lemma split_words (s : string) : Forall (fun w => is_word w = true) (Py.split s).
Proof. by apply split_go_words. Qed.

(** A non-blank text splits into at least one piece. *)
Lemma split_go_nonempty (s : string) :
  ∀ cur : string, Py.split_ws_go cur s = [] → cur = "" ∧ Py.lstrip s = "".
Proof.
  induction s as [|c s IH]; intros cur H; cbn in H |- *.
  - by destruct (String.eqb_spec cur "").
  - destruct (Py.isspace c) eqn:E.
    + destruct (String.eqb_spec cur ""); [|done]. split; [done|]. by eapply IH.
    + apply IH in H as [H _]. by destruct cur.
Qed.

Lemma rstrip_empty_lstrip (s : string) : Py.rstrip s = "" → Py.lstrip s = "".
Proof.
  induction s as [|c s IH]; [done|]. cbn.
  destruct (Py.rstrip s) eqn:E; [|done].
  destruct (Py.isspace c); [by intros _; apply IH|done].
Qed.

Lemma lstrip_rstrip_empty (s : string) : Py.lstrip s = "" → Py.rstrip s = "".
Proof.
  induction s as [|c s IH]; [done|]. cbn.
  destruct (Py.isspace c) eqn:E; [|done].
  intros H. by rewrite (IH H).
Qed.

End words.

Section round_trip.
Local Open Scope string_scope.

Lemma rstrip_nonblank (u : string) :
  Py.rstrip u ≠ "" → Py.lstrip (Py.rstrip u) ≠ "".
Proof.
  induction u as [|c u IH]; [done|]. cbn.
  destruct (Py.rstrip u) as [|c' r] eqn:E.
  - destruct (Py.isspace c) eqn:Ec; [done|]. intros _. cbn. by rewrite Ec.
  - intros _. cbn. destruct (Py.isspace c); [|done]. by apply IH.
Qed.

(** A text that is not blank splits into at least one word. *)
Lemma split_strip_nonempty (e : string) :
  Py.strip e ≠ "" → Py.split (Py.strip e) ≠ [].
Proof.
  intros H E. apply split_go_nonempty in E as [_ E].
  unfold Py.strip in *. by apply rstrip_nonblank in H.
Qed.

Lemma rstrip_word (w : string) : nospace w → Py.rstrip w = w.
Proof.
  induction w as [|c w IH]; [done|]. intros [Hc Hw]%nospace_cons. cbn.
  rewrite (IH Hw). destruct w; [by rewrite Hc|done].
Qed.

Lemma rstrip_app (w t : string) :
  Py.rstrip t ≠ "" → Py.rstrip (w ++ t) = w ++ Py.rstrip t.
Proof.
  intros Ht. induction w as [|c w IH]; [done|].
  rewrite !sapp_cons. cbn. rewrite IH.
  destruct (w ++ Py.rstrip t) eqn:E; [|done].
  by apply (sapp_nonempty_r w) in Ht.
Qed.

Lemma join_head (w : string) (ws : list string) :
  w ≠ "" → ∃ c r, w = String c r ∧ ∃ r', Py.join " " (w :: ws) = String c r'.
Proof.
  destruct w as [|c r]; [done|]. intros _. exists c, r. split; [done|].
  destruct ws; cbn; eauto.
Qed.

Lemma rstrip_join (ws : list string) :
  Forall (fun w => is_word w = true) ws →
  Py.rstrip (Py.join " " ws) = Py.join " " ws.
Proof.
  induction 1 as [|w ws Hw Hws IH]; [done|].
  apply is_word_spec in Hw as [Hne Hw].
  destruct ws as [|w2 ws]; [by apply rstrip_word|].
  change (Py.join " " (w :: w2 :: ws)) with (w ++ " " ++ Py.join " " (w2 :: ws)).
  assert (N : Py.join " " (w2 :: ws) ≠ "").
  { apply Forall_cons in Hws as [H2 _]. apply is_word_spec in H2 as [H2 _].
    destruct (join_head w2 ws H2) as (c & r & _ & r' & ->). done. }
  set (J := Py.join " " (w2 :: ws)) in *.
  assert (RJ : Py.rstrip J = J) by (by apply IH).
  assert (R2 : Py.rstrip (" " ++ J) = " " ++ J).
  { rewrite rstrip_app; by rewrite RJ. }
  rewrite rstrip_app; rewrite R2; [done|]. by apply sapp_nonempty_r.
Qed.

Lemma strip_join (ws : list string) :
  Forall (fun w => is_word w = true) ws →
  Py.strip (Py.join " " ws) = Py.join " " ws.
Proof.
  intros H. unfold Py.strip.
  assert (L : Py.lstrip (Py.join " " ws) = Py.join " " ws).
  { destruct H as [|w ws Hw _]; [done|].
    apply is_word_spec in Hw as [Hne Hw].
    destruct (join_head w ws Hne) as (c & r & -> & r' & ->).
    apply nospace_cons in Hw as [Hc _]. cbn. by rewrite Hc. }
  rewrite L. by apply rstrip_join.
Qed.

Lemma split_go_word (w : string) :
  nospace w → ∀ cur s : string,
  Py.split_ws_go cur (w ++ s) = Py.split_ws_go (cur ++ w) s.
Proof.
  induction w as [|c w IH]; intros Hw cur s.
  - by rewrite sapp_nil_r.
  - apply nospace_cons in Hw as [Hc Hw]. rewrite sapp_cons. cbn.
    rewrite Hc, (IH Hw). f_equal. by rewrite sapp_assoc.
Qed.

(** [split] undoes [join] on words. *)
Lemma split_join (ws : list string) :
  Forall (fun w => is_word w = true) ws → Py.split (Py.join " " ws) = ws.
Proof.
  unfold Py.split. induction 1 as [|w ws Hw Hws IH]; [done|].
  apply is_word_spec in Hw as [Hne Hw].
  destruct ws as [|w2 ws].
  - cbn [Py.join]. rewrite <- (sapp_nil_r w) at 1.
    rewrite (split_go_word w Hw), sapp_nil_l. cbn.
    by destruct (String.eqb_spec w "").
  - change (Py.join " " (w :: w2 :: ws)) with (w ++ " " ++ Py.join " " (w2 :: ws)).
    rewrite (split_go_word w Hw), sapp_nil_l.
    change (" " ++ Py.join " " (w2 :: ws))
      with (String " " (Py.join " " (w2 :: ws))).
    cbn [Py.split_ws_go].
    change (Py.isspace " ") with true. cbn iota.
    destruct (String.eqb_spec w ""); [done|]. by rewrite IH.
Qed.

End round_trip.

(** X10: what a commit stores.  When the entry is not blank, the notes
    [save_riff] writes into the riff are a non-empty list of words, none
    empty and none holding whitespace, and joining them with single blanks
    and splitting again gives the same list. *)
Theorem commit_stores_words (a : grokmidi.App) :
  Py.strip (grokmidi.entry (grokmidi.card a)) ≠ "" →
  ∃ ns : list string,
    grokmidi.the_riff (fst (grokmidi.save_riff a)) !! "notes"
    = Some (VNotes ns)
    ∧ ns ≠ []
    ∧ Forall (fun w => is_word w = true) ns
    ∧ Py.split (Py.join " " ns) = ns.
Proof.
  intros H. exists (Py.split (Py.strip (grokmidi.entry (grokmidi.card a)))).
  split; [rewrite (save_riff_writes a H); by simplify_map_eq|].
  split; [by apply split_strip_nonempty|].
  split; [apply split_words|]. apply split_join, split_words.
Qed.

Lemma commit_stores_words_witness :
  Py.strip (grokmidi.entry (grokmidi.card (eighths_card "  C#   E+G ")))
  ≠ ""
  ∧ ∃ ns : list string,
      grokmidi.the_riff (fst (grokmidi.save_riff (eighths_card "  C#   E+G ")))
        !! "notes" = Some (VNotes ns)
      ∧ ns ≠ []
      ∧ Forall (fun w => is_word w = true) ns
      ∧ Py.split (Py.join " " ns) = ns.
Proof.
  assert (H : Py.strip
                (grokmidi.entry (grokmidi.card (eighths_card "  C#   E+G ")))
              ≠ "") by (vm_compute; discriminate).
  split; [exact H|]. exact (commit_stores_words _ H).
Defined.

(** X11: the notes of a point-and-click session survive the next commit.
    [done] writes the editor's notes into the riff and their joined text
    into the entry; when the notes are words, a [save_riff] after it
    leaves exactly these notes in the riff. *)
Theorem p2p_done_then_commit (a : grokmidi.App) (ns : list string) :
  Forall (fun w => is_word w = true) ns →
  grokmidi.the_riff (fst (grokmidi.save_riff (fst (grokmidi.p2p_done ns a))))
    !! "notes" = Some (VNotes ns).
Proof.
  intros H. set (b := fst (grokmidi.p2p_done ns a)).
  assert (Eb : grokmidi.entry (grokmidi.card b) = Py.join " " ns) by reflexivity.
  assert (Rb : grokmidi.the_riff b !! "notes" = Some (VNotes ns)).
  { unfold b, grokmidi.p2p_done. cbn [fst].
    change (grokmidi.the_riff (grokmidi.type_entry ?s ?x))
      with (grokmidi.the_riff x).
    rewrite the_riff_set_riff. by simplify_map_eq. }
  destruct (String.eqb_spec (Py.strip (grokmidi.entry (grokmidi.card b))) "")
    as [E|E].
  - by rewrite (save_riff_blank b E).
  - rewrite (save_riff_writes b E), Eb, (strip_join ns H), (split_join ns H).
    by simplify_map_eq.
Qed.

Lemma p2p_done_then_commit_witness :
  Forall (fun w => is_word w = true) ["C"; "E+G"; "R"]
  ∧ grokmidi.the_riff
      (fst (grokmidi.save_riff
              (fst (grokmidi.p2p_done ["C"; "E+G"; "R"] three_commits))))
      !! "notes" = Some (VNotes ["C"; "E+G"; "R"]).
Proof.
  assert (H : Forall (fun w => is_word w = true) ["C"; "E+G"; "R"])
    by (repeat constructor).
  split; [exact H|]. exact (p2p_done_then_commit three_commits _ H).
Defined.

(** ** Clicks in the editor *)

Lemma mapR_list {A B} (f : A → result B) (l l' : list A) (ys : list B) :
  mapR f l = Ok ys →
  (∀ x, x ∈ l' → x ∈ l ∨ ∃ y, f x = Ok y) →
  ∃ ys', mapR f l' = Ok ys'.
Proof.
  intros H Hl. destruct (mapR_total f l') as (ys' & E & _); [|by eexists].
  intros x Hx. destruct (Hl x Hx) as [Hin|Hy]; [|done].
  by eapply mapR_Ok_inv.
Qed.

Lemma draw_note_letter (c : Z) (L : ascii) :
  L ∈ note_letters → ∃ u, grokmidi.draw_group false c (String L "") = Ok u.
Proof.
  unfold note_letters. intros H.
  repeat (apply elem_of_cons in H as [->|H]); try (by apply elem_of_nil in H);
    by eexists.
Qed.

(** X12: a click in the editor, at column [x] not negative and height [y],
    never raises on a list that draws.  Outside the heights 2 to 10 it
    changes nothing; inside, it writes one note letter, the one whose
    diatonic index is [(y - 6) mod 7], over the token at [x] when there is
    one and at the end of the list otherwise, and the list still draws. *)
Theorem on_click_writes_letter (c x y : Z) (ns : list string) :
  0 ≤ x → grokmidi.editor_draw c ns = grokmidi.Returned →
  ∃ L : ascii,
    L ∈ note_letters ∧ diatonicIndex L = (y - 6) mod 7
    ∧ grokmidi.on_click c x y ns
      = (if (y <? 2) || (10 <? y) then ns
         else if x <? Z.of_nat (length ns)
              then <[Z.to_nat x := String L ""]> ns
              else ns ++ [String L ""],
         grokmidi.Returned).
Proof.
  intros Hx Hd.
  assert (Hs : 0 ≤ (y - 6) mod 7 < 7) by (apply Z.mod_pos_bound; lia).
  assert (D : ∀ (L : ascii) (ns' : list string),
             L ∈ note_letters →
             (∀ w, w ∈ ns' → w ∈ ns ∨ w = String L "") →
             grokmidi.editor_draw c ns' = grokmidi.Returned).
  { intros L ns' HL Hin. unfold grokmidi.editor_draw in *.
    destruct (mapR (grokmidi.draw_group false c) ns) as [us|e] eqn:M;
      [|discriminate Hd].
    destruct (mapR_list _ ns ns' us M) as [us' ->]; [|done].
    intros w Hw. destruct (Hin w Hw) as [?| ->]; [by left|right].
    by apply draw_note_letter. }
  assert (G : ∃ L : ascii,
             L ∈ note_letters ∧ diatonicIndex L = (y - 6) mod 7
             ∧ (if 0 <=? (y - 6) mod 7
                then grokmidi.getitem "CDEFGAB" ((y - 6) mod 7)
                else grokmidi.getitem "CDEFGAB" ((y - 6) mod 7 + 7)) = Ok L).
  { set (s := (y - 6) mod 7) in *. clearbody s.
    assert (s = 0 ∨ s = 1 ∨ s = 2 ∨ s = 3 ∨ s = 4 ∨ s = 5 ∨ s = 6) as
      [-> | [-> | [-> | [-> | [-> | [-> | ->]]]]]] by lia.
    - exists "C"%char. split; [in_list|done].
    - exists "D"%char. split; [in_list|done].
    - exists "E"%char. split; [in_list|done].
    - exists "F"%char. split; [in_list|done].
    - exists "G"%char. split; [in_list|done].
    - exists "A"%char. split; [in_list|done].
    - exists "B"%char. split; [in_list|done]. }
  destruct G as (L & HL & HI & HG). exists L. split; [done|]. split; [done|].
  unfold grokmidi.on_click. destruct ((y <? 2) || (10 <? y)); [done|].
  rewrite HG. destruct (x <? Z.of_nat (length ns)) eqn:E.
  - unfold grokmidi.setitem. apply Z.ltb_lt in E.
    rewrite (proj2 (Z.leb_le 0 x) Hx), (proj2 (Z.ltb_lt _ _) E). cbn [andb].
    rewrite (D L); [done|done|].
    intros w Hw. apply elem_of_list_insert_inv in Hw as [->|Hw];
      [by right|by left].
  - rewrite (D L); [done|done|].
    intros w Hw. apply elem_of_app in Hw as [Hw|Hw]; [by left|].
    apply list_elem_of_singleton in Hw. by right.
Qed.

Lemma on_click_writes_letter_witness :
  0 ≤ 1 ∧ grokmidi.editor_draw 60 ["C"; "D"; "K"] = grokmidi.Returned
  ∧ ∃ L : ascii,
      L ∈ note_letters ∧ diatonicIndex L = (3 - 6) mod 7
      ∧ grokmidi.on_click 60 1 3 ["C"; "D"; "K"]
        = (if (3 <? 2) || (10 <? 3) then ["C"; "D"; "K"]
           else if 1 <? Z.of_nat (length ["C"; "D"; "K"])
                then <[Z.to_nat 1 := String L ""]> ["C"; "D"; "K"]
                else ["C"; "D"; "K"] ++ [String L ""],
           grokmidi.Returned).
Proof.
  assert (H1 : 0 ≤ 1) by lia.
  assert (H2 : grokmidi.editor_draw 60 ["C"; "D"; "K"] = grokmidi.Returned)
    by reflexivity.
  split; [exact H1|]. split; [exact H2|].
  exact (on_click_writes_letter 60 1 3 ["C"; "D"; "K"] H1 H2).
Defined.

(** ** Grokify *)

Lemma choice_in {A} (d : A) (l : list A) (k : nat) :
  l ≠ [] → grokmidi.choice d l k ∈ l.
Proof.
  intros H. unfold grokmidi.choice. apply list_elem_of_In, nth_In.
  apply Nat.mod_upper_bound. by destruct l.
Qed.

Lemma grokify_note_token (d : grokmidi.Draw) :
  grokmidi.grokify_note d ∈ grokify_tokens.
Proof.
  unfold grokmidi.grokify_note.
  destruct (Qlt_le_dec _ _); [in_list|].
  destruct (Qlt_le_dec _ _).
  - pose proof (choice_in [] (map snd grokmidi.CHORD_LIB)
                  (grokmidi.chord_pick d)) as H.
    set (ch := grokmidi.choice _ _ _) in *. clearbody ch.
    specialize (H ltac:(done)). cbn in H.
    repeat (apply elem_of_cons in H as [->|H]);
      try (by apply elem_of_nil in H); in_list.
  - pose proof (choice_in "C"%char (String.list_ascii_of_string "CDEFGAB")
                  (grokmidi.letter_pick d)) as H.
    set (L := grokmidi.choice _ _ (grokmidi.letter_pick d)) in *. clearbody L.
    specialize (H ltac:(done)). cbn in H.
    destruct (Qlt_le_dec _ _).
    + pose proof (choice_in "" ["#"; "b"] (grokmidi.acc_pick d)) as H'.
      set (ac := grokmidi.choice _ _ (grokmidi.acc_pick d)) in *. clearbody ac.
      specialize (H' ltac:(done)).
      repeat (apply elem_of_cons in H' as [->|H']);
        try (by apply elem_of_nil in H');
        repeat (apply elem_of_cons in H as [->|H]);
        try (by apply elem_of_nil in H); in_list.
    + repeat (apply elem_of_cons in H as [->|H]);
        try (by apply elem_of_nil in H); in_list.
Qed.

Lemma grokify_tokens_good :
  forallb (fun w => is_word w && known_token w) grokify_tokens = true.
Proof. vm_compute. reflexivity. Qed.

Lemma grokify_notes_good (draws : list grokmidi.Draw) :
  Forall (fun w => is_word w = true) (map grokmidi.grokify_note draws)
  ∧ forallb known_token (map grokmidi.grokify_note draws) = true.
Proof.
  pose proof grokify_tokens_good as G. rewrite forallb_forall in G.
  split.
  - apply Forall_forall. intros w Hw. apply list_elem_of_In, in_map_iff in Hw
      as (d & <- & _).
    pose proof (G _ (proj1 (list_elem_of_In _ _) (grokify_note_token d))) as Hd.
    by apply andb_true_iff in Hd as [Hd _].
  - apply forallb_forall. intros w Hw. apply in_map_iff in Hw as (d & <- & _).
    pose proof (G _ (proj1 (list_elem_of_In _ _) (grokify_note_token d))) as Hd.
    by apply andb_true_iff in Hd as [_ Hd].
Qed.

(** X13: Grokify, for every outcome of the random draws (at least one
    turn of the loop).  The riff ends with exactly the generated tokens as
    notes and the duration ["4s"]; the history has grown by two
    snapshots, the one [grokify] takes and the one of the [save_riff] it
    calls; and the MIDI writer returns on the generated notes for every
    track, anchor, duration and strum flag. *)
Theorem grokify_commits_playable (draws : list grokmidi.Draw)
    (a : grokmidi.App) :
  draws ≠ [] →
  let b := fst (grokmidi.grokify draws a) in
  let ns := map grokmidi.grokify_note draws in
  grokmidi.the_riff b !! "notes" = Some (VNotes ns)
  ∧ grokmidi.the_riff b !! "duration" = Some (VStr "4s")
  ∧ grokmidi.history (grokmidi.card b)
    = grokmidi.history (grokmidi.card a)
      ++ [grokmidi.snapshot a;
          grokmidi.snapshot
            (grokmidi.type_entry (grokmidi.grokify_riff draws) a)]
  ∧ ∀ (t : nat) (prog c : Z) (d : string) (c0 : Z) (sb : bool),
      ∃ (added : list Note) (tp : Q),
        grokmidi.export_track t prog c [mkRiff ns d c0 sb] = Ok (added, tp).
Proof.
  intros Hne b ns. destruct (grokify_notes_good draws) as [W K]. fold ns in W, K.
  set (a1 := grokmidi.type_entry (grokmidi.grokify_riff draws)
               (grokmidi.save_state a)).
  assert (E : Py.strip (grokmidi.entry (grokmidi.card a1)) = Py.join " " ns).
  { unfold a1. cbn [grokmidi.type_entry grokmidi.set_card grokmidi.card
                    grokmidi.entry].
    unfold grokmidi.grokify_riff. fold ns. by apply strip_join. }
  assert (N : Py.strip (grokmidi.entry (grokmidi.card a1)) ≠ "").
  { rewrite E. destruct draws as [|d0 draws]; [done|]. unfold ns. cbn [map].
    inversion W as [|w ws Hw _]; subst.
    apply is_word_spec in Hw as [Hw _].
    destruct (join_head _ (map grokmidi.grokify_note draws) Hw)
      as (c & r & _ & r' & ->). done. }
  assert (R : grokmidi.the_riff b
              = <["strum" := VBool (grokmidi.strum_var (grokmidi.card a1))]>
                  (<["duration" := VStr "4s"]>
                     (<["notes" := VNotes ns]> (grokmidi.the_riff a1)))).
  { unfold b, grokmidi.grokify. fold a1.
    rewrite (save_riff_writes a1 N), E. by rewrite (split_join ns W). }
  split; [rewrite R; by simplify_map_eq|].
  split; [rewrite R; by simplify_map_eq|].
  split.
  { unfold b, grokmidi.grokify. fold a1. rewrite save_riff_card.
    unfold a1. cbn [grokmidi.save_state grokmidi.set_card grokmidi.card
                    grokmidi.history grokmidi.type_entry].
    by rewrite <- app_assoc. }
  intros t prog c d c0 sb.
  assert (WF : forallb well_formed [mkRiff ns d c0 sb] = true).
  { cbn. by rewrite andb_true_r. }
  destruct (riffs_cursor t prog c _ WF [] 0%Q) as (added & tp & Ex & _).
  by exists added, tp.
Qed.

Lemma grokify_commits_playable_witness :
  [grokmidi.mkDraw 1 0 3 0 0 0; grokmidi.mkDraw 1 1 0 8 0 1] ≠ []
  ∧ (let b := fst (grokmidi.grokify
                     [grokmidi.mkDraw 1 0 3 0 0 0; grokmidi.mkDraw 1 1 0 8 0 1]
                     (grokmidi.init_app 0 0 false)) in
     let ns := map grokmidi.grokify_note
                 [grokmidi.mkDraw 1 0 3 0 0 0; grokmidi.mkDraw 1 1 0 8 0 1] in
     grokmidi.the_riff b !! "notes" = Some (VNotes ns)
     ∧ grokmidi.the_riff b !! "duration" = Some (VStr "4s")
     ∧ grokmidi.history (grokmidi.card b)
       = grokmidi.history (grokmidi.card (grokmidi.init_app 0 0 false))
         ++ [grokmidi.snapshot (grokmidi.init_app 0 0 false);
             grokmidi.snapshot
               (grokmidi.type_entry
                  (grokmidi.grokify_riff
                     [grokmidi.mkDraw 1 0 3 0 0 0;
                      grokmidi.mkDraw 1 1 0 8 0 1])
                  (grokmidi.init_app 0 0 false))]
     ∧ ∀ (t : nat) (prog c : Z) (d : string) (c0 : Z) (sb : bool),
         ∃ (added : list Note) (tp : Q),
           grokmidi.export_track t prog c [mkRiff ns d c0 sb] = Ok (added, tp)).
Proof.
  assert (H : [grokmidi.mkDraw 1 0 3 0 0 0; grokmidi.mkDraw 1 1 0 8 0 1] ≠ [])
    by discriminate.
  split; [exact H|].
  exact (grokify_commits_playable _ (grokmidi.init_app 0 0 false) H).
Defined.

(** ** New song *)

Section new_song.
Import grokmidi.

Lemma alloc_row_spec (ds : list (gmap string val)) :
  ∀ (st st' : gmap nat (gmap string val)) (ls : list nat),
    alloc_row st ds = (st', ls) →
    (∀ l, is_Some (st !! l) → st' !! l = st !! l)
    ∧ Forall2 (fun l d => st !! l = None ∧ st' !! l = Some d) ls ds.
Proof.
  induction ds as [|d ds IH]; intros st st' ls H; cbn in H.
  - injection H as <- <-. split; [done|constructor].
  - set (l := fresh (dom st)) in *.
    assert (Hl : st !! l = None) by (apply not_elem_of_dom, is_fresh).
    destruct (alloc_row (<[l := d]> st) ds) as [st1 ls1] eqn:E.
    injection H as <- <-. destruct (IH _ _ _ E) as [K F].
    assert (K' : ∀ l', is_Some (st !! l') → st1 !! l' = st !! l').
    { intros l' Hs. assert (l ≠ l') by (intros ->; rewrite Hl in Hs; by destruct Hs).
      rewrite K; rewrite lookup_insert_ne; done. }
    split; [exact K'|]. constructor.
    + split; [done|]. rewrite K; rewrite lookup_insert_eq; [done|by eexists].
    + eapply Forall2_impl; [exact F|]. intros l' d' [N S]. split; [|done].
      apply lookup_insert_None in N. tauto.
Qed.

Lemma alloc_rows_spec (rows : list (list (gmap string val))) :
  ∀ (st st' : gmap nat (gmap string val)) (lss : list (list nat)),
    alloc_rows st rows = (st', lss) →
    (∀ l, is_Some (st !! l) → st' !! l = st !! l)
    ∧ Forall2 (Forall2 (fun l d => st !! l = None ∧ st' !! l = Some d))
        lss rows.
Proof.
  induction rows as [|r rows IH]; intros st st' lss H; cbn in H.
  - injection H as <- <-. split; [done|constructor].
  - destruct (alloc_row st r) as [st1 ls] eqn:E1.
    destruct (alloc_rows st1 rows) as [st2 lss2] eqn:E2.
    injection H as <- <-.
    destruct (alloc_row_spec _ _ _ _ E1) as [K1 F1].
    destruct (IH _ _ _ E2) as [K2 F2].
    assert (K : ∀ l, is_Some (st !! l) → st2 !! l = st !! l).
    { intros l Hs. rewrite K2; rewrite K1; done. }
    split; [exact K|]. constructor.
    + eapply Forall2_impl; [exact F1|]. intros l d [N S]. split; [done|].
      rewrite K2; [done|]. by rewrite S.
    + eapply Forall2_impl; [exact F2|]. intros ls' ds' F.
      eapply Forall2_impl; [exact F|]. intros l d [N S]. split; [|done].
      destruct (st !! l) as [x|] eqn:Ex; [|done].
      rewrite K1 in N by (by eexists). by rewrite Ex in N.
Qed.

Lemma update_twice (d st : gmap string val) :
  update (update d st) st = update d st.
Proof. unfold update. by rewrite (assoc_L (∪)), (idemp_L (∪)). Qed.

Lemma update_self (d : gmap string val) : update d d = d.
Proof. unfold update. by rewrite (idemp_L (∪)). Qed.

Lemma Forall2_replicate_eq {A B} (P : A → B → Prop) (x : B) (n : nat)
    (l : list A) :
  Forall2 P l (replicate n x) →
  Forall2 (fun a b => P a b ∧ b = x) l (replicate n x).
Proof.
  revert l. induction n as [|n IH]; intros l H; cbn in *;
    inversion H; subst; constructor; auto.
Qed.

Lemma fmap_rows_total (m : gmap nat (gmap string val))
    (sd : list (list nat)) (rows : list (list (gmap string val))) :
  Forall2 (Forall2 (fun l d => m !!! l = d)) sd rows →
  (fun row : list nat => (fun l => m !!! l) <$> row) <$> sd = rows.
Proof.
  induction 1 as [|ls ds sd rows H _ IH]; [done|]. cbn. rewrite IH. f_equal.
  clear -H. induction H as [|l d ls ds H _ IH]; [done|]. cbn.
  by rewrite H, IH.
Qed.

Lemma row_riffs_length (a : App) : length (row_riffs a) = 3%nat.
Proof.
  unfold row_riffs. destruct (others a) as [o1 o2].
  by destruct (idx (card a)) as [|[|[|k]]].
Qed.

Lemma row_riffs_own (a : App) : riff (card a) ∈ row_riffs a.
Proof.
  unfold row_riffs. destruct (others a) as [o1 o2].
  apply elem_of_app. right. apply list_elem_of_here.
Qed.

(** Resetting the cards of a track whose slots all hold the record [D]:
    every riff among [cards] is updated with [D], the others stay. *)
Lemma reset_cards_spec (D : gmap string val) (cards : list nat) :
  ∀ (t k : nat) (a : App),
    (∀ j : nat, (j < length cards)%nat →
                is_Some (song_data a !! t ≫= (.!! (k + j)%nat))) →
    (∀ (t' k' s : nat),
        song_data a !! t' ≫= (.!! k') = Some s → store a !!! s = D) →
    snd (reset_cards t k cards a) = Returned
    ∧ song_data (fst (reset_cards t k cards a)) = song_data a
    ∧ card (fst (reset_cards t k cards a)) = card a
    ∧ (∀ l, l ∈ cards →
            store (fst (reset_cards t k cards a)) !!! l
            = update (store a !!! l) D)
    ∧ (∀ l, l ∉ cards →
            store (fst (reset_cards t k cards a)) !!! l = store a !!! l).
Proof.
  induction cards as [|l cards IH]; intros t k a H1 H2; cbn [reset_cards].
  { repeat split; try done. intros l Hl. by apply elem_of_nil in Hl. }
  destruct (H1 0%nat) as [s Hs]; [cbn; lia|].
  rewrite Nat.add_0_r in Hs. rewrite Hs.
  rewrite (H2 _ _ _ Hs).
  set (a1 := set_at a l (update (store a !!! l) D)).
  assert (H1' : ∀ j : nat, (j < length cards)%nat →
                  is_Some (song_data a1 !! t ≫= (.!! (S k + j)%nat))).
  { intros j Hj. replace (S k + j)%nat with (k + S j)%nat by lia.
    apply H1. cbn. lia. }
  assert (H2' : ∀ (t' k' s' : nat),
             song_data a1 !! t' ≫= (.!! k') = Some s' → store a1 !!! s' = D).
  { intros t' k' s' E. unfold a1, set_at. cbn.
    destruct (decide (l = s')) as [->|Hne].
    - rewrite lookup_total_insert_eq.
      rewrite (H2 _ _ _ E). apply update_self.
    - rewrite lookup_total_insert_ne by done. by eapply H2. }
  destruct (IH t (S k) a1 H1' H2') as (R1 & R2 & R3 & R4 & R5).
  split; [exact R1|]. split; [exact R2|]. split; [exact R3|]. split.
  - intros l' Hl'. destruct (decide (l' ∈ cards)) as [Hin|Hnin].
    + rewrite (R4 _ Hin). unfold a1, set_at. cbn.
      destruct (decide (l = l')) as [->|Hne].
      * rewrite lookup_total_insert_eq. apply update_twice.
      * by rewrite lookup_total_insert_ne.
    + rewrite (R5 _ Hnin). unfold a1, set_at. cbn.
      apply elem_of_cons in Hl' as [->|Hl']; [|done].
      by rewrite lookup_total_insert_eq.
  - intros l' Hl'. apply not_elem_of_cons in Hl' as [Hne Hnin].
    rewrite (R5 _ Hnin). unfold a1, set_at. cbn.
    by rewrite lookup_total_insert_ne.
Qed.

End new_song.

(** X14: New song, confirmed, with at most four tracks, on a card of the
    first four tracks.  What [save_song] would write afterwards is four
    rows of three default records; the card's history, redo stack and
    entry are empty and its riff has the default notes, duration, anchor
    and strum flag, the other entries of the riff staying; the strum box
    is not reset. *)
Theorem new_song_resets (n : nat) (a : grokmidi.App) :
  grokmidi.riff (grokmidi.card a) ∈ dom (grokmidi.store a) →
  (grokmidi.track (grokmidi.card a) < 4)%nat →
  (grokmidi.idx (grokmidi.card a) < 3)%nat →
  (n ≤ 4)%nat →
  let r := grokmidi.new_song true n a in
  snd r = grokmidi.Returned
  ∧ grokmidi.tracks (grokmidi.save_song (fst r))
    = replicate 4 (replicate 3 (grokmidi.riff_dict grokmidi.empty_riff))
  ∧ grokmidi.the_riff (fst r)
    = grokmidi.update (grokmidi.the_riff a)
        (grokmidi.riff_dict grokmidi.empty_riff)
  ∧ grokmidi.history (grokmidi.card (fst r)) = []
  ∧ grokmidi.redo_stack (grokmidi.card (fst r)) = []
  ∧ grokmidi.entry (grokmidi.card (fst r)) = ""
  ∧ grokmidi.strum_var (grokmidi.card (fst r))
    = grokmidi.strum_var (grokmidi.card a).
Proof.
  intros Hr Ht Hi Hn r. subst r. unfold grokmidi.new_song.
  set (D := grokmidi.riff_dict grokmidi.empty_riff).
  destruct (grokmidi.alloc_rows (grokmidi.store a) (replicate 4 (replicate 3 D)))
    as [st sd] eqn:E.
  destruct (alloc_rows_spec _ _ _ _ E) as [K F].
  cbn [grokmidi.card grokmidi.track grokmidi.idx].
  set (a0 := grokmidi.mkApp st sd (grokmidi.global_bpm a) (grokmidi.is_drum a)
               (grokmidi.card a) (grokmidi.others a)).
  apply Forall2_replicate_eq in F.
  assert (H2 : ∀ (t' k' s : nat),
             grokmidi.song_data a0 !! t' ≫= (.!! k') = Some s →
             grokmidi.store a0 !!! s = D).
  { intros t' k' s Es. cbn in Es |- *.
    destruct (sd !! t') as [row|] eqn:Erow; [|done]. cbn in Es.
    destruct (Forall2_lookup_l _ _ _ _ _ F Erow) as (ds & _ & Fr & ->).
    apply Forall2_replicate_eq in Fr.
    destruct (Forall2_lookup_l _ _ _ _ _ Fr Es) as (d & _ & [_ Sd] & ->).
    by apply lookup_total_correct. }
  assert (H1 : ∀ j : nat,
             (j < length (grokmidi.row_riffs a0))%nat →
             is_Some (grokmidi.song_data a0
                        !! grokmidi.track (grokmidi.card a)
                        ≫= (.!! (0 + j)%nat))).
  { intros j Hj. rewrite row_riffs_length in Hj. cbn.
    destruct (Forall2_lookup_r _ _ _ _ _ F
                (lookup_replicate_2 4 (replicate 3 D) _ Ht))
      as (row & -> & Fr & _).
    destruct (Forall2_lookup_r _ _ _ _ _ Fr (lookup_replicate_2 3 D _ Hj))
      as (l & Hl & _).
    cbn. rewrite Hl. by eexists. }
  destruct (reset_cards_spec D (grokmidi.row_riffs a0)
              (grokmidi.track (grokmidi.card a)) 0 a0 H1 H2)
    as (R1 & R2 & R3 & R4 & R5).
  destruct (grokmidi.reset_cards (grokmidi.track (grokmidi.card a)) 0
              (grokmidi.row_riffs a0) a0) as [a1 o] eqn:Ereset.
  cbn [fst snd] in R1, R2, R3, R4, R5. subst o.
  rewrite decide_True by done. cbn [fst snd].
  apply elem_of_dom in Hr as Hs.
  assert (Er : st !!! grokmidi.riff (grokmidi.card a)
               = grokmidi.the_riff a).
  { unfold grokmidi.the_riff. rewrite !lookup_total_alt. by rewrite (K _ Hs). }
  split; [done|]. split.
  { unfold grokmidi.save_song.
    cbn [grokmidi.tracks grokmidi.song_data grokmidi.store grokmidi.set_card].
    rewrite R2. cbn [grokmidi.song_data a0].
    apply fmap_rows_total.
    eapply Forall2_impl; [exact F|]. intros ls ds [Fl ->].
    apply Forall2_replicate_eq in Fl.
    eapply Forall2_impl; [exact Fl|]. intros l0 d [[N S] ->].
    pose proof (lookup_total_correct _ _ _ S) as S'.
    destruct (decide (l0 ∈ grokmidi.row_riffs a0)) as [Hin|Hnin].
    - rewrite (R4 _ Hin). cbn [grokmidi.store a0]. rewrite S'.
      apply update_self.
    - by rewrite (R5 _ Hnin). }
  split.
  { etrans; [exact (R4 _ (row_riffs_own a0))|].
    change (grokmidi.store a0 !!! grokmidi.riff (grokmidi.card a0))
      with (st !!! grokmidi.riff (grokmidi.card a)).
    by rewrite Er. }
  done.
Qed.

Lemma new_song_resets_witness :
  grokmidi.riff (grokmidi.card three_commits) ∈ dom (grokmidi.store three_commits)
  ∧ (grokmidi.track (grokmidi.card three_commits) < 4)%nat
  ∧ (grokmidi.idx (grokmidi.card three_commits) < 3)%nat
  ∧ (4 ≤ 4)%nat
  ∧ (let r := grokmidi.new_song true 4 three_commits in
     snd r = grokmidi.Returned
     ∧ grokmidi.tracks (grokmidi.save_song (fst r))
       = replicate 4 (replicate 3 (grokmidi.riff_dict grokmidi.empty_riff))
     ∧ grokmidi.the_riff (fst r)
       = grokmidi.update (grokmidi.the_riff three_commits)
           (grokmidi.riff_dict grokmidi.empty_riff)
     ∧ grokmidi.history (grokmidi.card (fst r)) = []
     ∧ grokmidi.redo_stack (grokmidi.card (fst r)) = []
     ∧ grokmidi.entry (grokmidi.card (fst r)) = ""
     ∧ grokmidi.strum_var (grokmidi.card (fst r))
       = grokmidi.strum_var (grokmidi.card three_commits)).
Proof.
  assert (H1 : grokmidi.riff (grokmidi.card three_commits)
               ∈ dom (grokmidi.store three_commits)).
  { destruct (grokmidi.store three_commits
                !! grokmidi.riff (grokmidi.card three_commits)) eqn:E;
      [by eapply elem_of_dom_2|vm_compute in E; discriminate E]. }
  assert (H2 : (grokmidi.track (grokmidi.card three_commits) < 4)%nat)
    by (vm_compute; lia).
  assert (H3 : (grokmidi.idx (grokmidi.card three_commits) < 3)%nat)
    by (vm_compute; lia).
  assert (H4 : (4 ≤ 4)%nat) by lia.
  split; [exact H1|]. split; [exact H2|]. split; [exact H3|].
  split; [exact H4|].
  exact (new_song_resets 4 three_commits H1 H2 H3 H4).
Defined.

(** ** One object or two: the riff and its record *)

Section aliasing.
Import grokmidi.

(** The record [save_song] writes for a slot is the dictionary the slot
    names. *)
Lemma record_at_slot (a : App) (t i l : nat) :
  song_data a !! t ≫= (.!! i) = Some l →
  record_at (save_song a) t i = Some (store a !!! l).
Proof.
  intros H. unfold record_at, save_song. cbn [tracks].
  rewrite list_lookup_fmap.
  destruct (song_data a !! t) as [row|]; [|done]. cbn in H |- *.
  by rewrite list_lookup_fmap, H.
Qed.

(** What the loop of [update_c_scale] leaves: the slots are not touched,
    a riff object that is none of [cards] keeps its content, and when no
    drawing raised every one of [cards] holds the new anchor. *)
Lemma update_cards_spec (c : Z) (cards : list nat) :
  ∀ a : App,
    song_data (fst (update_cards c cards a)) = song_data a
    ∧ card (fst (update_cards c cards a)) = card a
    ∧ (∀ l, l ∉ cards →
            store (fst (update_cards c cards a)) !!! l = store a !!! l)
    ∧ (snd (update_cards c cards a) = Returned →
       ∀ l, l ∈ cards →
            store (fst (update_cards c cards a)) !!! l
            = <["c_scale" := VInt c]> (store a !!! l)).
Proof.
  induction cards as [|l cards IH]; intros a; cbn [update_cards].
  { repeat split; try done. intros _ l Hl. by apply elem_of_nil in Hl. }
  set (a1 := set_at a l (<["c_scale" := VInt c]> (store a !!! l))).
  assert (Hl : store a1 !!! l = <["c_scale" := VInt c]> (store a !!! l)).
  { unfold a1, set_at. cbn. by rewrite lookup_total_insert_eq. }
  assert (Hne : ∀ l', l ≠ l' → store a1 !!! l' = store a !!! l').
  { intros l' N. unfold a1, set_at. cbn. by rewrite lookup_total_insert_ne. }
  destruct (IH a1) as (R1 & R2 & R3 & R4).
  destruct (draw_riff (is_drum a1) (store a1 !!! l)) as [|e].
  - split; [exact R1|]. split; [exact R2|]. split.
    + intros l' Hl'. apply not_elem_of_cons in Hl' as [N Hnin].
      rewrite (R3 _ Hnin). by apply Hne.
    + intros Hret l' Hl'.
      destruct (decide (l' ∈ cards)) as [Hin|Hnin].
      * rewrite (R4 Hret _ Hin).
        destruct (decide (l = l')) as [<-|N].
        -- rewrite Hl. apply insert_insert_eq.
        -- by rewrite (Hne _ N).
      * rewrite (R3 _ Hnin).
        apply elem_of_cons in Hl' as [->|Hl']; [exact Hl|done].
  - cbn [fst snd]. split; [done|]. split; [done|]. split; [|done].
    intros l' Hl'. apply not_elem_of_cons in Hl' as [N _]. by apply Hne.
Qed.

(** The records of the save file after a change of the track's scale. *)
Lemma scale_change_records (a : App) (c : Z) (t i l : nat) :
  song_data a !! t ≫= (.!! i) = Some l →
  (l ∉ row_riffs a →
   record_at (save_song (fst (update_c_scale c a))) t i
   = record_at (save_song a) t i)
  ∧ (l ∈ row_riffs a →
     snd (update_c_scale c a) = Returned →
     field_at (save_song (fst (update_c_scale c a))) t i "c_scale"
     = Some (VInt c)).
Proof.
  intros H. unfold update_c_scale.
  destruct (update_cards_spec c (row_riffs a) a) as (R1 & _ & R3 & R4).
  assert (H' : song_data (fst (update_cards c (row_riffs a) a)) !! t
                 ≫= (.!! i) = Some l) by (by rewrite R1).
  split.
  - intros Hnin.
    rewrite (record_at_slot _ _ _ _ H'), (record_at_slot _ _ _ _ H).
    by rewrite (R3 _ Hnin).
  - intros Hin Hret. unfold field_at.
    rewrite (record_at_slot _ _ _ _ H'), (R4 Hret _ Hin).
    apply lookup_insert_eq.
Qed.

(** A commit that reaches the slot assignment: the card's slot names a new
    object, the card and the row keep their riff objects. *)
Lemma save_riff_slot (a : App) :
  Py.strip (entry (card a)) ≠ "" →
  is_Some (song_data a !! track (card a) ≫= (.!! idx (card a))) →
  ∃ l0 : nat,
    song_data (fst (save_riff a)) !! track (card a) ≫= (.!! idx (card a))
    = Some l0
    ∧ (l0 ∉ dom (store a))
    ∧ row_riffs (fst (save_riff a)) = row_riffs a
    ∧ riff (card (fst (save_riff a))) = riff (card a).
Proof.
  intros Hne Hslot. unfold save_riff.
  change (entry (card (save_state a))) with (entry (card a)).
  change (track (card (save_state a))) with (track (card a)).
  change (idx (card (save_state a))) with (idx (card a)).
  destruct (String.eqb_spec (Py.strip (entry (card a))) "") as [E|_]; [done|].
  match goal with
  | |- context [set_slot ?sd ?t ?i ?l] =>
      set (l0 := l); change sd with (song_data a)
  end.
  assert (Hl : l0 ∉ dom (store a)).
  { unfold l0.
    match goal with
    | |- fresh (dom ?m) ∉ _ =>
        pose proof (is_fresh (dom m)) as Hf;
        assert (Hsub : ∀ x, x ∈ dom (store a) → x ∈ dom m)
    end.
    { intros x Hx. unfold set_riff. cbn. rewrite !dom_insert_L.
      do 3 (apply elem_of_union; right). exact Hx. }
    intros E. apply Hf. by apply Hsub. }
  unfold set_slot.
  destruct (song_data a !! track (card a)) as [row|] eqn:Er;
    [|by destruct Hslot].
  cbn in Hslot. destruct Hslot as [x Hx].
  rewrite decide_True by (by eapply lookup_lt_Some).
  cbn [fst]. exists l0. split.
  - cbn [song_data].
    rewrite list_lookup_insert_eq by (by eapply lookup_lt_Some). cbn.
    by rewrite list_lookup_insert_eq by (by eapply lookup_lt_Some).
  - split; [exact Hl|]. by split.
Qed.

End aliasing.

(** X15: which records of the save file a change of the track's scale
    reaches.  [update_c_scale] writes the new anchor into the riff of every
    card of the track; a record of [song_data] shows it exactly when it is
    still the riff object of one of these cards.  So a record that is none
    of the track's riff objects is written as before, in every case; when
    no drawing raised, a record that is one of them carries the new
    anchor.  A commit with a non-blank text puts a copy into the card's
    slot: after it the card's record keeps its anchor, while the card's
    riff takes the new one. *)
Theorem scale_change_and_save_file (a : grokmidi.App) (c : Z) :
  (∀ t i l : nat,
      grokmidi.song_data a !! t ≫= (.!! i) = Some l →
      (l ∉ grokmidi.row_riffs a →
       record_at (grokmidi.save_song (fst (grokmidi.update_c_scale c a))) t i
       = record_at (grokmidi.save_song a) t i)
      ∧ (l ∈ grokmidi.row_riffs a →
         snd (grokmidi.update_c_scale c a) = grokmidi.Returned →
         field_at (grokmidi.save_song (fst (grokmidi.update_c_scale c a)))
           t i "c_scale"
         = Some (VInt c)))
  ∧ (Forall (.∈ dom (grokmidi.store a)) (grokmidi.row_riffs a) →
     Py.strip (grokmidi.entry (grokmidi.card a)) ≠ "" →
     is_Some (grokmidi.song_data a !! grokmidi.track (grokmidi.card a)
                ≫= (.!! grokmidi.idx (grokmidi.card a))) →
     let a1 := fst (grokmidi.save_riff a) in
     record_at (grokmidi.save_song (fst (grokmidi.update_c_scale c a1)))
       (grokmidi.track (grokmidi.card a)) (grokmidi.idx (grokmidi.card a))
     = record_at (grokmidi.save_song a1)
         (grokmidi.track (grokmidi.card a)) (grokmidi.idx (grokmidi.card a))
     ∧ (snd (grokmidi.update_c_scale c a1) = grokmidi.Returned →
        grokmidi.the_riff (fst (grokmidi.update_c_scale c a1)) !! "c_scale"
        = Some (VInt c))).
Proof.
  split; [intros t i l; apply scale_change_records|].
  intros Hdom Hne Hslot a1.
  destruct (save_riff_slot a Hne Hslot) as (l0 & Hs & Hl & Hrow & Hriff).
  fold a1 in Hs, Hrow, Hriff. split.
  - apply (proj1 (scale_change_records a1 c _ _ l0 Hs)).
    rewrite Hrow. intros Hin. apply Hl.
    rewrite Forall_forall in Hdom. by apply Hdom.
  - intros Hret. unfold grokmidi.update_c_scale in *.
    destruct (update_cards_spec c (grokmidi.row_riffs a1) a1)
      as (_ & R2 & _ & R4).
    unfold grokmidi.the_riff. rewrite R2.
    rewrite (R4 Hret _ (row_riffs_own a1)). apply lookup_insert_eq.
Qed.

Lemma scale_change_and_save_file_witness :
  (grokmidi.song_data (grokmidi.init_app 2 1 false) !! 2%nat ≫= (.!! 0%nat)
   = Some 6%nat
   ∧ 6%nat ∈ grokmidi.row_riffs (grokmidi.init_app 2 1 false)
   ∧ snd (grokmidi.update_c_scale 48 (grokmidi.init_app 2 1 false))
     = grokmidi.Returned
   ∧ field_at
       (grokmidi.save_song
          (fst (grokmidi.update_c_scale 48 (grokmidi.init_app 2 1 false))))
       2 0 "c_scale"
     = Some (VInt 48))
  ∧ (Forall (.∈ dom (grokmidi.store
                       (grokmidi.type_entry "C" (grokmidi.init_app 2 1 false))))
       (grokmidi.row_riffs
          (grokmidi.type_entry "C" (grokmidi.init_app 2 1 false)))
     ∧ Py.strip "C" ≠ ""
     ∧ is_Some (grokmidi.song_data (grokmidi.init_app 2 1 false) !! 2%nat
                  ≫= (.!! 1%nat))
     ∧ (let a1 := fst (grokmidi.save_riff
                         (grokmidi.type_entry "C"
                            (grokmidi.init_app 2 1 false))) in
        record_at (grokmidi.save_song (fst (grokmidi.update_c_scale 48 a1)))
          2 1
        = record_at (grokmidi.save_song a1) 2 1
        ∧ (snd (grokmidi.update_c_scale 48 a1) = grokmidi.Returned →
           grokmidi.the_riff (fst (grokmidi.update_c_scale 48 a1)) !! "c_scale"
           = Some (VInt 48)))).
Proof.
  assert (H1 : grokmidi.song_data (grokmidi.init_app 2 1 false)
                 !! 2%nat ≫= (.!! 0%nat) = Some 6%nat) by reflexivity.
  assert (H2 : 6%nat ∈ grokmidi.row_riffs (grokmidi.init_app 2 1 false))
    by in_list.
  assert (H3 : snd (grokmidi.update_c_scale 48 (grokmidi.init_app 2 1 false))
               = grokmidi.Returned) by (vm_compute; reflexivity).
  assert (H4 : Forall (.∈ dom (grokmidi.store
                                 (grokmidi.type_entry "C"
                                    (grokmidi.init_app 2 1 false))))
                 (grokmidi.row_riffs
                    (grokmidi.type_entry "C" (grokmidi.init_app 2 1 false)))).
  { repeat constructor;
      eapply (elem_of_dom_2 _ _ (grokmidi.riff_dict grokmidi.empty_riff));
      vm_compute; reflexivity. }
  assert (H5 : Py.strip "C" ≠ "") by (vm_compute; discriminate).
  assert (H6 : is_Some (grokmidi.song_data (grokmidi.init_app 2 1 false)
                          !! 2%nat ≫= (.!! 1%nat))) by (by eexists).
  split.
  - split; [exact H1|]. split; [exact H2|]. split; [exact H3|].
    exact (proj2 (proj1 (scale_change_and_save_file
                           (grokmidi.init_app 2 1 false) 48) 2%nat 0%nat 6%nat
                    H1) H2 H3).
  - split; [exact H4|]. split; [exact H5|]. split; [exact H6|].
    exact (proj2 (scale_change_and_save_file
                    (grokmidi.type_entry "C" (grokmidi.init_app 2 1 false)) 48)
             H4 H5 H6).
Defined.

(** The session of the sample: card 1 of track 2 commits "C", then the
    scale box of the track is set to 48.  The committed card's record keeps
    anchor 60; the records of the two other cards of the track, still their
    riff objects, are written with 48. *)
Example scale_change_sample :
  let a := fst (grokmidi.update_c_scale 48
                  (fst (grokmidi.save_riff
                          (grokmidi.type_entry "C"
                             (grokmidi.init_app 2 1 false))))) in
  field_at (grokmidi.save_song a) 2 0 "c_scale" = Some (VInt 48)
  ∧ field_at (grokmidi.save_song a) 2 1 "c_scale" = Some (VInt 60)
  ∧ field_at (grokmidi.save_song a) 2 2 "c_scale" = Some (VInt 48)
  ∧ grokmidi.the_riff a !! "c_scale" = Some (VInt 48)
  ∧ field_at (grokmidi.save_song a) 1 1 "c_scale" = Some (VInt 60).
Proof. cbv zeta. repeat split; vm_compute; reflexivity. Qed.

(** * [midigimp.py]: validation, editing and export *)

Lemma in_letters_cases (u : ascii) :
  midigimp.in_letters u = true → u ∈ note_letters.
Proof.
  destruct u as [[] [] [] [] [] [] [] []]; vm_compute; intros H;
    first [discriminate H | in_list].
Qed.

Lemma two_chars_not_modifier (c1 c2 : ascii) (r : string) :
  midigimp.in_modifiers (String c1 (String c2 r)) = false.
Proof.
  unfold midigimp.in_modifiers. cbn.
  by destruct (Ascii.eqb c1 "#"), (Ascii.eqb c1 "b"), (Ascii.eqb c1 "%").
Qed.

(** A subnote that passes the checks resolves, and to this pitch. *)
Lemma checked_sub_pitch (s : string) (o : Z) :
  midigimp.check_sub s = None →
  ∃ (c0 : ascii) (rest : string) (base : Z),
    s = String c0 rest ∧ Py.upper_char c0 ∈ note_letters
    ∧ (rest = "" ∨ ∃ c1, rest = String c1 ""
                         ∧ midigimp.in_modifiers (String (Py.lower_char c1) "")
                           = true)
    ∧ midigimp.get_midi_note s o = Ok (Some ((o + 1) * 12 + base)).
Proof.
  destruct s as [|c0 rest]; [discriminate|]. unfold midigimp.check_sub.
  destruct (midigimp.in_letters (Py.upper_char c0)) eqn:EL; [|discriminate].
  cbn [negb]. pose proof (in_letters_cases _ EL) as HL.
  assert (G : ∀ m : string,
             Py.lower rest = m →
             (m = "" ∨ midigimp.in_modifiers m = true) →
             ∃ base, midigimp.get_midi_note (String c0 rest) o
                     = Ok (Some ((o + 1) * 12 + base))).
  { intros m Hm Hmod. unfold midigimp.get_midi_note.
    cbn [Py.upper Py.index0 bind Py.tail]. rewrite EL, Hm. cbn [negb].
    set (u := Py.upper_char c0) in *. clearbody u.
    unfold note_letters in HL.
    assert (Hc : negb (String.eqb m "") && negb (midigimp.in_modifiers m) = false).
    { destruct Hmod as [->| ->]; [done|]. by rewrite andb_false_r. }
    rewrite Hc.
    repeat (apply elem_of_cons in HL as [->|HL]);
      try (by apply elem_of_nil in HL); cbn; by eexists. }
  destruct rest as [|c1 [|c2 r]].
  - intros _. destruct (G "" eq_refl (or_introl eq_refl)) as [base Hb].
    exists c0, "", base. repeat split; [done|by left|done].
  - destruct (midigimp.in_modifiers (String (Py.lower_char c1) "")) eqn:EM;
      [|discriminate].
    intros _. destruct (G _ eq_refl (or_intror EM)) as [base Hb].
    exists c0, (String c1 ""), base. repeat split; [done| |done].
    right. by exists c1.
  - by destruct (negb (midigimp.in_modifiers _)).
Qed.

(** X16: in [midigimp.py] the checks of the commit accept exactly the
    subnotes that [get_midi_note] resolves to a pitch: a subnote passes
    [check_sub] if and only if [get_midi_note] returns a pitch on it,
    whatever the octave. *)
Theorem validation_is_resolution (s : string) (o : Z) :
  midigimp.check_sub s = None
  ↔ ∃ p : Z, midigimp.get_midi_note s o = Ok (Some p).
Proof.
  split.
  - intros H. destruct (checked_sub_pitch s o H) as (_ & _ & base & _ & _ & _ & E).
    by eexists.
  - intros [p Hp]. destruct s as [|c0 rest]; [discriminate Hp|].
    unfold midigimp.get_midi_note in Hp.
    destruct (String.eqb _ "R"); [discriminate Hp|].
    cbn [Py.index0 bind Py.tail] in Hp. unfold midigimp.check_sub.
    destruct (midigimp.in_letters (Py.upper_char c0)); [|discriminate Hp].
    cbn [negb] in Hp |- *.
    destruct rest as [|c1 [|c2 r]]; [done| |].
    + cbn [Py.lower] in Hp.
      destruct (midigimp.in_modifiers (String (Py.lower_char c1) ""));
        [done|discriminate Hp].
    + cbn [Py.lower] in Hp. rewrite two_chars_not_modifier in Hp.
      discriminate Hp.
Qed.

(** ** The writer loop of [midigimp.py] *)

Lemma inject_Z_S (n : nat) :
  (inject_Z (Z.of_nat (S n)) == inject_Z (Z.of_nat n) + 1)%Q.
Proof. rewrite Nat2Z.inj_succ. unfold Z.succ. by rewrite inject_Z_plus. Qed.

Lemma mg_groups_time (o : Z) (dur : Q) (ngs : list string) :
  ∀ (evs evs' : list midigimp.event) (tp tp' : Q),
    grokmidi.foldR (midigimp.group_step o dur) (evs, tp) ngs = Ok (evs', tp') →
    (tp' == tp + dur * inject_Z (Z.of_nat (length ngs)))%Q.
Proof.
  induction ngs as [|ng ngs IH]; intros evs evs' tp tp' H.
  - cbn in H. injection H as <- <-. cbn. ring.
  - cbn [grokmidi.foldR] in H.
    destruct (midigimp.group_step o dur (evs, tp) ng) as [[e1 t1]|x] eqn:E;
      [|discriminate H].
    cbn [bind] in H. apply IH in H. rewrite H.
    assert (t1 = (tp + dur)%Q) as ->.
    { unfold midigimp.group_step in E.
      destruct (String.eqb _ "R"); [by injection E|].
      destruct (mapR _ _); [by injection E|discriminate E]. }
    cbn [length]. rewrite inject_Z_S. ring.
Qed.

Lemma mg_riffs_time (rs : list midigimp.Riff) :
  ∀ (st st' : list midigimp.event * Q * option Z) (acc : Q),
    (snd (fst st) == acc)%Q →
    grokmidi.foldR midigimp.riff_step st rs = Ok st' →
    (snd (fst st')
     == fold_left
          (fun acc r =>
             acc + midigimp.get_duration (midigimp.duration r)
                   * inject_Z (Z.of_nat (length (midigimp.notes r))))
          rs acc)%Q.
Proof.
  induction rs as [|r rs IH]; intros [[evs tp] cur] st' acc Hacc H.
  - cbn in H. injection H as <-. exact Hacc.
  - cbn [grokmidi.foldR] in H.
    destruct (midigimp.riff_step (evs, tp, cur) r) as [st1|x] eqn:E;
      [|discriminate H].
    cbn [bind] in H. cbn [fold_left]. eapply IH; [|exact H].
    unfold midigimp.riff_step in E.
    destruct (grokmidi.foldR _ _ _) as [[e1 t1]|x] eqn:G; [|discriminate E].
    cbn in E. injection E as <-. cbn [fst snd].
    apply mg_groups_time in G. cbn in Hacc. rewrite G, Hacc. reflexivity.
Qed.

(** X17: the time [_play_preview] waits for matches what it wrote.
    Whenever the writer loop returns, its final [time_pos] is the
    [total_beats] the preview computes, the sum over the riffs of the
    duration times the number of note groups. *)
Theorem preview_total_beats (rs : list midigimp.Riff)
    (evs : list midigimp.event) (tp : Q) (cur : option Z) :
  midigimp.write_riffs rs = Ok (evs, tp, cur) →
  (tp == midigimp.total_beats rs)%Q.
Proof.
  intros H. unfold midigimp.write_riffs in H.
  apply (mg_riffs_time rs _ _ 0%Q) in H; [exact H|reflexivity].
Qed.

Lemma preview_total_beats_witness :
  midigimp.write_riffs [midigimp.mkRiff ["C"; "R"] "8s" 4 0]
  = Ok ([midigimp.ProgramChange 0 0; midigimp.AddNote (Some 60) 0 (1 # 2)],
        (4 # 4)%Q, Some 0)
  ∧ (4 # 4 == midigimp.total_beats [midigimp.mkRiff ["C"; "R"] "8s" 4 0])%Q.
Proof.
  assert (H : midigimp.write_riffs [midigimp.mkRiff ["C"; "R"] "8s" 4 0]
              = Ok ([midigimp.ProgramChange 0 0;
                     midigimp.AddNote (Some 60) 0 (1 # 2)],
                    (4 # 4)%Q, Some 0)) by (vm_compute; reflexivity).
  split; [exact H|]. exact (preview_total_beats _ _ _ _ H).
Defined.

Lemma first_stop_none {A} (f : A → option midigimp.outcome) (l : list A) :
  midigimp.first_stop f l = None → ∀ x, x ∈ l → f x = None.
Proof.
  induction l as [|a l IH]; intros H x Hx; [by apply elem_of_nil in Hx|].
  cbn in H. destruct (f a) eqn:E; [discriminate H|].
  apply elem_of_cons in Hx as [->|Hx]; [done|by apply IH].
Qed.

Lemma checked_subs_pitches (o : Z) (subs : list string) :
  (∀ s, s ∈ subs → midigimp.check_sub s = None) →
  ∃ ps : list (option Z),
    mapR (fun sub => midigimp.get_midi_note sub o) subs = Ok ps
    ∧ Forall is_Some ps.
Proof.
  induction subs as [|s subs IH]; intros H.
  - exists []. by split.
  - destruct (checked_sub_pitch s o) as (_ & _ & base & _ & _ & _ & E).
    { apply H, list_elem_of_here. }
    destruct IH as (ps & Hps & F).
    { intros s' Hs'. by apply H, list_elem_of_further. }
    eexists. cbn. rewrite E, Hps. cbn. split; [done|].
    constructor; [by eexists|done].
Qed.

Lemma mg_group_total (o : Z) (dur : Q) (evs : list midigimp.event) (tp : Q)
    (ng : string) :
  midigimp.check_group ng = None → Forall pitched evs →
  ∃ evs' tp',
    midigimp.group_step o dur (evs, tp) ng = Ok (evs', tp')
    ∧ Forall pitched evs'.
Proof.
  intros H F. unfold midigimp.group_step, midigimp.check_group in *.
  destruct (String.eqb _ "R"); [by eexists _, _|].
  destruct (checked_subs_pitches o (Py.split_on "+" ng)) as (ps & -> & Fp).
  { by apply first_stop_none. }
  cbn. eexists _, _. split; [done|]. apply Forall_app. split; [done|].
  clear -Fp. induction Fp as [|p ps Hp _ IH]; cbn; by constructor.
Qed.

Lemma mg_groups_total (o : Z) (dur : Q) (ngs : list string) :
  midigimp.validate ngs = None →
  ∀ (evs : list midigimp.event) (tp : Q),
    Forall pitched evs →
    ∃ evs' tp',
      grokmidi.foldR (midigimp.group_step o dur) (evs, tp) ngs
      = Ok (evs', tp')
      ∧ Forall pitched evs'.
Proof.
  unfold midigimp.validate.
  induction ngs as [|ng ngs IH]; intros H evs tp F; [by eexists _, _|].
  cbn in H. destruct (midigimp.check_group ng) eqn:E; [discriminate H|].
  destruct (mg_group_total o dur evs tp ng E F) as (e1 & t1 & E1 & F1).
  cbn [grokmidi.foldR]. rewrite E1. cbn [bind]. by apply IH.
Qed.

Lemma mg_write_total (rs : list midigimp.Riff) :
  Forall committed rs →
  ∀ st : list midigimp.event * Q * option Z,
    Forall pitched (fst (fst st)) →
    ∃ st', grokmidi.foldR midigimp.riff_step st rs = Ok st'
           ∧ Forall pitched (fst (fst st')).
Proof.
  induction 1 as [|r rs [V _] _ IH]; intros [[evs tp] cur] F; [by eexists|].
  cbn [grokmidi.foldR]. unfold midigimp.riff_step at 1.
  match goal with
  | |- context [grokmidi.foldR (midigimp.group_step ?o ?d) (?e, ?t) _] =>
      destruct (mg_groups_total o d _ V e t) as (e1 & t1 & E1 & F1)
  end.
  { cbn in F. destruct (bool_decide _); [done|].
    apply Forall_app. split; [done|]. by repeat constructor. }
  rewrite E1. cbn [bind]. by apply IH.
Qed.

(** What the two boxes give when their choices are read.  Every octave
    choice reads as its number; of the instruments, the third does not:
    the text after its first parenthesis is "clean) ", not a number. *)
Lemma parse_octave_option (s : string) :
  s ∈ midigimp.octave_options →
  ∃ o : Z,
    midigimp.parse_octave s = Ok o ∧ o ∈ stored_octaves
    ∧ midigimp.options_with o midigimp.octave_options = [s].
Proof.
  unfold midigimp.octave_options. intros H.
  repeat (apply elem_of_cons in H as [->|H]);
    try (by apply elem_of_nil in H);
    eexists; (split; [vm_compute; reflexivity|]);
    (split; [in_list|vm_compute; reflexivity]).
Qed.

Lemma parse_instrument_option (s : string) :
  s ∈ midigimp.instrument_options →
  (s = "Electric Guitar (clean) (27)"
   ∧ midigimp.parse_instrument s = Raise ValueError)
  ∨ ∃ p : Z,
      midigimp.parse_instrument s = Ok p ∧ p ∈ stored_instruments
      ∧ midigimp.options_with p midigimp.instrument_options = [s].
Proof.
  unfold midigimp.instrument_options. intros H.
  repeat (apply elem_of_cons in H as [->|H]);
    try (by apply elem_of_nil in H);
    first [ by left
          | right; eexists; (split; [vm_compute; reflexivity|]);
            (split; [in_list|vm_compute; reflexivity]) ].
Qed.

(** Back from a stored number to the choice [edit_riff] puts into the
    box. *)
Lemma stored_octave_option (o : Z) :
  o ∈ stored_octaves →
  ∃ s : string,
    midigimp.options_with o midigimp.octave_options = [s]
    ∧ midigimp.parse_octave s = Ok o.
Proof.
  unfold stored_octaves. intros H.
  repeat (apply elem_of_cons in H as [->|H]);
    try (by apply elem_of_nil in H);
    eexists; split; vm_compute; reflexivity.
Qed.

Lemma stored_instrument_option (p : Z) :
  p ∈ stored_instruments →
  ∃ s : string,
    midigimp.options_with p midigimp.instrument_options = [s]
    ∧ midigimp.parse_instrument s = Ok p.
Proof.
  unfold stored_instruments. intros H.
  repeat (apply elem_of_cons in H as [->|H]);
    try (by apply elem_of_nil in H);
    eexists; split; vm_compute; reflexivity.
Qed.

Lemma options_with_head (n : Z) (options : list string) (s : string)
    (rest : list string) :
  midigimp.options_with n options = s :: rest → s ∈ options.
Proof.
  unfold midigimp.options_with. intros H. apply list_elem_of_In.
  assert (Hin : In s (s :: rest)) by (by left).
  rewrite <- H in Hin. by apply filter_In in Hin as [Hin _].
Qed.

(** What a commit appends or puts in place of a riff: a checked riff with
    numbers the boxes can give. *)
Lemma saved_riffs (P : midigimp.Riff → Prop) (b : bool)
    (a : midigimp.MidiWriterApp) :
  (∀ (o p : Z),
      midigimp.parse_octave (midigimp.octave_combo a) = Ok o →
      midigimp.parse_instrument (midigimp.instrument_combo a) = Ok p →
      Py.strip (midigimp.notes_entry a) ≠ "" →
      midigimp.validate (Py.split (Py.strip (midigimp.notes_entry a))) = None →
      P (midigimp.mkRiff (Py.split (Py.strip (midigimp.notes_entry a)))
           (midigimp.duration_combo a) o p)) →
  Forall P (midigimp.riffs a) →
  Forall P (midigimp.riffs (fst (midigimp._save_or_update_riff b a))).
Proof.
  intros HP F. unfold midigimp._save_or_update_riff.
  destruct (String.eqb_spec (Py.strip (midigimp.notes_entry a)) "")
    as [|Hne]; [done|].
  destruct (midigimp.parse_octave _) as [o|] eqn:Eo; [|done].
  destruct (midigimp.parse_instrument _) as [p|] eqn:Ep; [|done].
  destruct (midigimp.validate _) eqn:V; [done|].
  specialize (HP o p eq_refl eq_refl Hne eq_refl).
  destruct b, (midigimp.editing_index a) as [i|]; cbn;
    try (apply Forall_app; split; [done|by constructor]).
  destruct (decide _); cbn; [by apply Forall_insert|done].
Qed.

Lemma save_keeps_boxes (b : bool) (a : midigimp.MidiWriterApp) :
  midigimp.octave_combo (fst (midigimp._save_or_update_riff b a))
  = midigimp.octave_combo a
  ∧ midigimp.instrument_combo (fst (midigimp._save_or_update_riff b a))
    = midigimp.instrument_combo a.
Proof.
  unfold midigimp._save_or_update_riff.
  destruct (String.eqb _ ""); [done|].
  destruct (midigimp.parse_octave _); [|done].
  destruct (midigimp.parse_instrument _); [|done].
  destruct (midigimp.validate _); [done|].
  destruct b, (midigimp.editing_index a) as [i|]; cbn; try done.
  by destruct (decide _).
Qed.

Lemma committed_step (a : midigimp.MidiWriterApp) (o : midigimp.op) :
  Forall committed (midigimp.riffs a) →
  Forall committed (midigimp.riffs (midigimp.step a o)).
Proof.
  assert (S : ∀ b, Forall committed (midigimp.riffs a) →
                   Forall committed
                     (midigimp.riffs (fst (midigimp._save_or_update_riff b a)))).
  { intros b. apply saved_riffs. intros o' p' _ _ Hne V.
    split; [exact V|]. split; [by apply split_strip_nonempty|].
    apply split_words. }
  intros F. destruct o as [| | |k|k| | |sel|sel]; cbn; try done;
    try (by apply S).
  - by destruct (midigimp.octave_options !! k).
  - by destruct (midigimp.instrument_options !! k).
  - unfold midigimp.edit_riff. destruct sel as [i|]; [|done].
    destruct (midigimp.riffs a !! i); [|done].
    destruct (midigimp.options_with _ _); [done|].
    by destruct (midigimp.options_with _ _).
  - unfold midigimp.delete_riff. destruct sel as [i|]; [|done].
    destruct (decide _); [|done]. cbn. by apply Forall_delete.
Qed.

(** The boxes always show choices of their lists, and so every riff in
    the list carries numbers read from such choices. *)
Lemma storable_step (a : midigimp.MidiWriterApp) (o : midigimp.op) :
  boxes_ok a ∧ Forall storable (midigimp.riffs a) →
  boxes_ok (midigimp.step a o)
  ∧ Forall storable (midigimp.riffs (midigimp.step a o)).
Proof.
  intros [[Bo Bi] F].
  assert (S : ∀ b,
             boxes_ok (fst (midigimp._save_or_update_riff b a))
             ∧ Forall storable
                 (midigimp.riffs (fst (midigimp._save_or_update_riff b a)))).
  { intros b. split.
    - unfold boxes_ok. destruct (save_keeps_boxes b a) as [-> ->]. by split.
    - apply saved_riffs; [|done]. intros o' p' Eo Ep _ _.
      destruct (parse_octave_option _ Bo) as (o2 & Eo2 & Ho2 & _).
      destruct (parse_instrument_option _ Bi)
        as [[_ Ep2]|(p2 & Ep2 & Hp2 & _)].
      { rewrite Ep2 in Ep. discriminate Ep. }
      rewrite Eo2 in Eo. injection Eo as <-.
      rewrite Ep2 in Ep. injection Ep as <-. by split. }
  destruct o as [| | |k|k| | |sel|sel]; cbn [midigimp.step];
    try (by apply S); try (by split).
  - split; [|done]. split; vm_compute;
      repeat first [apply list_elem_of_here | apply list_elem_of_further].
  - destruct (midigimp.octave_options !! k) as [opt|] eqn:E; [|by split].
    split; [|done]. split; [|done]. by eapply list_elem_of_lookup_2.
  - destruct (midigimp.instrument_options !! k) as [opt|] eqn:E; [|by split].
    split; [|done]. split; [done|]. by eapply list_elem_of_lookup_2.
  - unfold midigimp.edit_riff. destruct sel as [i|]; [|by split].
    destruct (midigimp.riffs a !! i) as [r|]; [|by split].
    destruct (midigimp.options_with (midigimp.octave r) _)
      as [|so ?] eqn:Eo; [by split|].
    apply options_with_head in Eo.
    destruct (midigimp.options_with (midigimp.instrument r) _)
      as [|si ?] eqn:Ei; [by split|].
    apply options_with_head in Ei. by split.
  - unfold midigimp.delete_riff. destruct sel as [i|]; [|by split].
    destruct (decide _); [|by split]. cbn. split; [by split|].
    by apply Forall_delete.
Qed.

Lemma reachable_riffs (ops : list midigimp.op) :
  Forall committed (midigimp.riffs (midigimp.run ops midigimp.init_app))
  ∧ Forall storable (midigimp.riffs (midigimp.run ops midigimp.init_app)).
Proof.
  assert (F : ∀ a,
             Forall committed (midigimp.riffs a)
             ∧ boxes_ok a ∧ Forall storable (midigimp.riffs a) →
             Forall committed (midigimp.riffs (midigimp.run ops a))
             ∧ Forall storable (midigimp.riffs (midigimp.run ops a))).
  { induction ops as [|o ops IH]; intros a (C & B); [by destruct B|].
    cbn. apply IH. split; [by apply committed_step|by apply storable_step]. }
  apply F. split; [constructor|]. split; [|constructor].
  split; vm_compute;
    repeat first [apply list_elem_of_here | apply list_elem_of_further].
Qed.

(** X18: whatever the user does in [midigimp.py], starting from the empty
    application, every riff in the list is a checked one, and the writer
    loop of [export_midi] and [_play_preview] returns on the list: no
    sequence of operations leads to a song whose export raises, and every
    note it writes has a pitch. *)
Theorem committed_riffs_export (ops : list midigimp.op) :
  Forall committed (midigimp.riffs (midigimp.run ops midigimp.init_app))
  ∧ ∃ (evs : list midigimp.event) (tp : Q) (cur : option Z),
      midigimp.write_riffs (midigimp.riffs (midigimp.run ops midigimp.init_app))
      = Ok (evs, tp, cur)
      ∧ Forall pitched evs.
Proof.
  assert (F : ∀ a, Forall committed (midigimp.riffs a) →
                   Forall committed (midigimp.riffs (midigimp.run ops a))).
  { induction ops as [|o ops IH]; intros a Fa; [done|].
    cbn. apply IH. by apply committed_step. }
  specialize (F midigimp.init_app ltac:(constructor)).
  split; [exact F|].
  destruct (mg_write_total _ F ([], 0%Q, None) ltac:(constructor))
    as ([[evs tp] cur] & E & P).
  by exists evs, tp, cur.
Qed.

(** ** Editing a riff *)

(** Edit Selected then Update Riff on a checked riff with numbers the
    boxes can give. *)
Lemma edit_update_round_trip (a : midigimp.MidiWriterApp) (i : nat)
    (r : midigimp.Riff) :
  midigimp.riffs a !! i = Some r → committed r → storable r →
  snd (midigimp.edit_riff (Some i) a) = midigimp.Done
  ∧ snd (midigimp.update_riff (fst (midigimp.edit_riff (Some i) a)))
    = midigimp.Saved
  ∧ midigimp.riffs
      (fst (midigimp.update_riff (fst (midigimp.edit_riff (Some i) a))))
    = midigimp.riffs a.
Proof.
  intros Hi (V & Hne & W) [Ho Hp]. unfold midigimp.edit_riff. rewrite Hi.
  destruct (stored_octave_option _ Ho) as (so & -> & Eo).
  destruct (stored_instrument_option _ Hp) as (si & -> & Ep).
  cbn [fst snd]. split; [done|].
  unfold midigimp.update_riff, midigimp._save_or_update_riff.
  cbn [midigimp.notes_entry midigimp.riffs midigimp.editing_index
       midigimp.duration_combo midigimp.octave_combo
       midigimp.instrument_combo].
  rewrite (strip_join _ W), (split_join _ W), V, Eo, Ep.
  assert (N : Py.join " " (midigimp.notes r) ≠ "").
  { destruct (midigimp.notes r) as [|w ws]; [done|].
    inversion W as [|? ? Hw _]; subst. apply is_word_spec in Hw as [Hw _].
    destruct (join_head w ws Hw) as (c & x & _ & x' & ->). done. }
  destruct (String.eqb_spec (Py.join " " (midigimp.notes r)) ""); [done|].
  rewrite decide_True by (by eapply lookup_lt_Some).
  cbn [fst snd midigimp.riffs]. split; [done|].
  apply list_insert_id. by destruct r.
Qed.

(** X19: Edit Selected followed by Update Riff, with nothing changed in
    between, is a round trip.  After any sequence of operations from the
    empty application, for any line of the list, [edit_riff] succeeds,
    [update_riff] saves, and the list of riffs is what it was before. *)
Theorem edit_then_update_same (ops : list midigimp.op) (i : nat)
    (r : midigimp.Riff) :
  midigimp.riffs (midigimp.run ops midigimp.init_app) !! i = Some r →
  snd (midigimp.edit_riff (Some i) (midigimp.run ops midigimp.init_app))
  = midigimp.Done
  ∧ snd (midigimp.update_riff
           (fst (midigimp.edit_riff (Some i)
                   (midigimp.run ops midigimp.init_app))))
    = midigimp.Saved
  ∧ midigimp.riffs
      (fst (midigimp.update_riff
              (fst (midigimp.edit_riff (Some i)
                      (midigimp.run ops midigimp.init_app)))))
    = midigimp.riffs (midigimp.run ops midigimp.init_app).
Proof.
  intros Hi. destruct (reachable_riffs ops) as [C S].
  rewrite Forall_lookup in C, S.
  apply (edit_update_round_trip _ i r Hi); [by eapply C|by eapply S].
Qed.

Lemma edit_then_update_same_witness :
  midigimp.riffs
    (midigimp.run
       [midigimp.NewRiff; midigimp.TypeNotes "C E+G#";
        midigimp.PickDuration "8s"; midigimp.PickOctave 3;
        midigimp.PickInstrument 3; midigimp.SaveRiff; midigimp.NewRiff;
        midigimp.TypeNotes " R  Bb "; midigimp.SaveRiff]
       midigimp.init_app) !! 0%nat
  = Some (midigimp.mkRiff ["C"; "E+G#"] "8s" 5 40)
  ∧ snd (midigimp.edit_riff (Some 0%nat)
           (midigimp.run
              [midigimp.NewRiff; midigimp.TypeNotes "C E+G#";
               midigimp.PickDuration "8s"; midigimp.PickOctave 3;
               midigimp.PickInstrument 3; midigimp.SaveRiff; midigimp.NewRiff;
               midigimp.TypeNotes " R  Bb "; midigimp.SaveRiff]
              midigimp.init_app))
    = midigimp.Done
  ∧ snd (midigimp.update_riff
           (fst (midigimp.edit_riff (Some 0%nat)
                   (midigimp.run
                      [midigimp.NewRiff; midigimp.TypeNotes "C E+G#";
                       midigimp.PickDuration "8s"; midigimp.PickOctave 3;
                       midigimp.PickInstrument 3; midigimp.SaveRiff;
                       midigimp.NewRiff; midigimp.TypeNotes " R  Bb ";
                       midigimp.SaveRiff]
                      midigimp.init_app))))
    = midigimp.Saved
  ∧ midigimp.riffs
      (fst (midigimp.update_riff
              (fst (midigimp.edit_riff (Some 0%nat)
                      (midigimp.run
                         [midigimp.NewRiff; midigimp.TypeNotes "C E+G#";
                          midigimp.PickDuration "8s"; midigimp.PickOctave 3;
                          midigimp.PickInstrument 3; midigimp.SaveRiff;
                          midigimp.NewRiff; midigimp.TypeNotes " R  Bb ";
                          midigimp.SaveRiff]
                         midigimp.init_app)))))
    = midigimp.riffs
        (midigimp.run
           [midigimp.NewRiff; midigimp.TypeNotes "C E+G#";
            midigimp.PickDuration "8s"; midigimp.PickOctave 3;
            midigimp.PickInstrument 3; midigimp.SaveRiff; midigimp.NewRiff;
            midigimp.TypeNotes " R  Bb "; midigimp.SaveRiff]
           midigimp.init_app).
Proof.
  assert (H : midigimp.riffs
                (midigimp.run
                   [midigimp.NewRiff; midigimp.TypeNotes "C E+G#";
                    midigimp.PickDuration "8s"; midigimp.PickOctave 3;
                    midigimp.PickInstrument 3; midigimp.SaveRiff;
                    midigimp.NewRiff; midigimp.TypeNotes " R  Bb ";
                    midigimp.SaveRiff]
                   midigimp.init_app) !! 0%nat
              = Some (midigimp.mkRiff ["C"; "E+G#"] "8s" 5 40))
    by (vm_compute; reflexivity).
  split; [exact H|].
  exact (edit_then_update_same _ 0 _ H).
Defined.

(** ** The instrument that cannot be saved *)

(** X23: the third choice of the instrument box cannot be saved.  With
    "Electric Guitar (clean) (27)" in the box and a text that is not
    blank in the entry, Add Riff and Update Riff raise [ValueError] where
    the number is read, before any note is checked, and leave the
    application as it was, whatever the text.  So in every list of riffs
    a session can build, each riff has instrument 0, 1, 40 or 118, and an
    octave from 2 to 7. *)
Theorem guitar_never_saved :
  (∀ (add_new : bool) (a : midigimp.MidiWriterApp),
      midigimp.instrument_combo a = "Electric Guitar (clean) (27)" →
      midigimp.octave_combo a ∈ midigimp.octave_options →
      Py.strip (midigimp.notes_entry a) ≠ "" →
      midigimp._save_or_update_riff add_new a
      = (a, midigimp.Raised ValueError))
  ∧ (∀ ops : list midigimp.op,
        Forall storable (midigimp.riffs (midigimp.run ops midigimp.init_app))).
Proof.
  split; [|intros ops; apply reachable_riffs].
  intros add_new a Hi Ho Hne. unfold midigimp._save_or_update_riff.
  destruct (String.eqb_spec (Py.strip (midigimp.notes_entry a)) "");
    [done|].
  destruct (parse_octave_option _ Ho) as (o & -> & _). by rewrite Hi.
Qed.

Lemma guitar_never_saved_witness :
  midigimp.instrument_combo
    (midigimp.run [midigimp.NewRiff; midigimp.TypeNotes "C E G";
                   midigimp.PickInstrument 2] midigimp.init_app)
  = "Electric Guitar (clean) (27)"
  ∧ midigimp.octave_combo
      (midigimp.run [midigimp.NewRiff; midigimp.TypeNotes "C E G";
                     midigimp.PickInstrument 2] midigimp.init_app)
    ∈ midigimp.octave_options
  ∧ Py.strip
      (midigimp.notes_entry
         (midigimp.run [midigimp.NewRiff; midigimp.TypeNotes "C E G";
                        midigimp.PickInstrument 2] midigimp.init_app))
    ≠ ""
  ∧ midigimp._save_or_update_riff true
      (midigimp.run [midigimp.NewRiff; midigimp.TypeNotes "C E G";
                     midigimp.PickInstrument 2] midigimp.init_app)
    = (midigimp.run [midigimp.NewRiff; midigimp.TypeNotes "C E G";
                     midigimp.PickInstrument 2] midigimp.init_app,
       midigimp.Raised ValueError).
Proof.
  assert (H1 : midigimp.instrument_combo
                 (midigimp.run [midigimp.NewRiff; midigimp.TypeNotes "C E G";
                                midigimp.PickInstrument 2] midigimp.init_app)
               = "Electric Guitar (clean) (27)") by reflexivity.
  assert (H2 : midigimp.octave_combo
                 (midigimp.run [midigimp.NewRiff; midigimp.TypeNotes "C E G";
                                midigimp.PickInstrument 2] midigimp.init_app)
               ∈ midigimp.octave_options) by in_list.
  assert (H3 : Py.strip
                 (midigimp.notes_entry
                    (midigimp.run [midigimp.NewRiff;
                                   midigimp.TypeNotes "C E G";
                                   midigimp.PickInstrument 2]
                       midigimp.init_app))
               ≠ "") by (vm_compute; discriminate).
  split; [exact H1|]. split; [exact H2|]. split; [exact H3|].
  exact (proj1 guitar_never_saved true _ H1 H2 H3).
Defined.

(** ** File names *)

Section file_names.
Local Open Scope string_scope.

Lemma substring_all (s : string) : String.substring 0 (String.length s) s = s.
Proof. induction s as [|c s IH]; [done|]. cbn. by rewrite IH. Qed.

Lemma substring_cut (s : string) :
  ∀ k : nat,
    (k ≤ String.length s)%nat →
    String.substring 0 k s ++ String.substring k (String.length s - k) s = s.
Proof.
  induction s as [|c s IH]; intros k Hk.
  - cbn in Hk. by replace k with 0%nat by lia.
  - destruct k as [|k].
    + rewrite Nat.sub_0_r, substring_all. reflexivity.
    + cbn in Hk. cbn [String.substring String.length Nat.sub].
      rewrite sapp_cons. f_equal. apply IH. lia.
Qed.

Lemma endswith_cut (s suffix : string) :
  Py.endswith s suffix = true →
  s = Py.drop_last (String.length suffix) s ++ suffix.
Proof.
  unfold Py.endswith, Py.drop_last.
  destruct (Nat.ltb_spec (String.length s) (String.length suffix)) as [|Hle];
    [discriminate|].
  intros H. apply String.eqb_eq in H.
  rewrite <- H at 2.
  rewrite <- (substring_cut s (String.length s - String.length suffix))
    at 1 by lia.
  do 2 f_equal. lia.
Qed.

End file_names.

(** X20: the names the two exports compute.  For every text of the name
    entry there is one base name such that [file_name], which
    [export_midi] opens, is the base followed by ".mid", and [pdf_name],
    which [export_sheet] hands to [fig.savefig] and reports, is the base
    followed by ".pdf"; the base is the stripped text without a final
    ".mid".  So [file_name] is never empty, and an empty entry gives
    ".mid": the default "song.mid" is never used. *)
Theorem export_file_names (entry : string) :
  ∃ base : string,
    midigimp.midi_file_name entry = (base ++ ".mid")%string
    ∧ midigimp.sheet_file_name entry = (base ++ ".pdf")%string
    ∧ (if Py.endswith (Py.strip entry) ".mid"
       then Py.strip entry = (base ++ ".mid")%string
       else Py.strip entry = base)
    ∧ (Py.strip entry = "" → midigimp.midi_file_name entry = ".mid").
Proof.
  unfold midigimp.midi_file_name, midigimp.sheet_file_name.
  destruct (Py.endswith (Py.strip entry) ".mid") eqn:E; cbn [negb].
  - pose proof (endswith_cut _ _ E) as C. cbn [String.length] in C.
    exists (Py.drop_last 4 (Py.strip entry)).
    destruct (String.eqb_spec (Py.strip entry) "") as [Z|_].
    { rewrite Z in E. discriminate E. }
    repeat split; try done. intros Z. rewrite Z in E. discriminate E.
  - exists (Py.strip entry).
    destruct (String.eqb_spec (Py.strip entry ++ ".mid")%string "") as [Z|_].
    { exfalso. revert Z. by apply sapp_nonempty_r. }
    repeat split; try done. by intros ->.
Qed.

Lemma export_file_names_witness :
  ∃ base : string,
    midigimp.midi_file_name "  " = (base ++ ".mid")%string
    ∧ midigimp.sheet_file_name "  " = (base ++ ".pdf")%string
    ∧ (if Py.endswith (Py.strip "  ") ".mid"
       then Py.strip "  " = (base ++ ".mid")%string
       else Py.strip "  " = base)
    ∧ Py.strip "  " = ""
    ∧ midigimp.midi_file_name "  " = ".mid".
Proof.
  destruct (export_file_names "  ") as (base & H1 & H2 & H3 & H4).
  assert (E : Py.strip "  " = "") by reflexivity.
  exists base. split; [exact H1|]. split; [exact H2|]. split; [exact H3|].
  split; [exact E|]. exact (H4 E).
Defined.

Lemma validation_is_resolution_witness :
  midigimp.check_sub "g%" = None
  ∧ (∃ p : Z, midigimp.get_midi_note "g%" 4 = Ok (Some p)).
Proof.
  assert (H : midigimp.check_sub "g%" = None) by reflexivity.
  split; [exact H|]. exact (proj1 (validation_is_resolution "g%" 4) H).
Defined.

(** ** The two programs side by side *)

Lemma modifier_cases (c1 : ascii) :
  midigimp.in_modifiers (String (Py.lower_char c1) "") = true →
  c1 ∈ ["#"; "b"; "B"; "%"]%char.
Proof.
  destruct c1 as [[] [] [] [] [] [] [] []]; vm_compute; intros H;
    first [discriminate H | in_list].
Qed.

(** X21: on every subnote that the checks of [midigimp.py] accept and that
    is not written with [%], the two programs compute the same pitch,
    [grokmidi.py] taking as anchor the C of the octave, [(octave + 1) *
    12].  With [%], [midigimp.py] flattens the note and [grokmidi.py]
    plays it natural. *)
Theorem programs_agree_on_pitch (s : string) (o : Z) :
  midigimp.check_sub s = None →
  ((∀ c0 : ascii, s ≠ String c0 "%") →
   midigimp.get_midi_note s o = grokmidi.midi_from_str s ((o + 1) * 12))
  ∧ (∀ c0 : ascii,
        s = String c0 "%" →
        midigimp.get_midi_note s o
        = grokmidi.midi_from_str (String c0 "b") ((o + 1) * 12)
        ∧ grokmidi.midi_from_str s ((o + 1) * 12)
          = grokmidi.midi_from_str (String c0 "") ((o + 1) * 12)).
Proof.
  intros H.
  destruct (checked_sub_pitch s o H) as (c0 & rest & _ & -> & HL & Hr & _).
  change (is_note_letter c0) in HL.
  assert (Wn : "" ∈ written Natural) by in_list.
  assert (Ws : "#" ∈ written Sharp) by in_list.
  assert (Wb : "b" ∈ written Flat) by in_list.
  assert (WB : "B" ∈ written Flat) by in_list.
  destruct Hr as [->|(c1 & -> & Hm)].
  - split; [|by intros c [= _ ?]]. intros _.
    by rewrite (get_midi_note_note c0 Natural "" o HL Wn),
               (midi_from_str_note c0 Natural "" _ HL Wn).
  - apply modifier_cases in Hm.
    repeat (apply elem_of_cons in Hm as [->|Hm]);
      try (by apply elem_of_nil in Hm).
    + split; [|by intros c [= _ ?]]. intros _.
      by rewrite (get_midi_note_note c0 Sharp "#" o HL Ws),
                 (midi_from_str_note c0 Sharp "#" _ HL Ws).
    + split; [|by intros c [= _ ?]]. intros _.
      by rewrite (get_midi_note_note c0 Flat "b" o HL Wb),
                 (midi_from_str_note c0 Flat "b" _ HL Wb).
    + split; [|by intros c [= _ ?]]. intros _.
      by rewrite (get_midi_note_note c0 Flat "B" o HL WB),
                 (midi_from_str_note c0 Flat "B" _ HL WB).
    + split; [intros Hc; by destruct (Hc c0)|].
      intros c [= <-].
      rewrite (midi_from_str_note c0 Flat "b" _ HL Wb),
              (midi_from_str_note c0 Natural "" _ HL Wn).
      rewrite (midi_from_str_second c0 "%" "" _ HL).
      split; [|reflexivity].
      apply note_letter_cases in HL.
      repeat (apply elem_of_cons in HL as [->|HL]);
        try (by apply elem_of_nil in HL); reflexivity.
Qed.

Lemma programs_agree_on_pitch_witness :
  midigimp.check_sub "a#" = None
  ∧ (∀ c0 : ascii, "a#" ≠ String c0 "%")
  ∧ midigimp.get_midi_note "a#" 3 = grokmidi.midi_from_str "a#" ((3 + 1) * 12).
Proof.
  assert (H : midigimp.check_sub "a#" = None) by reflexivity.
  assert (N : ∀ c0 : ascii, "a#" ≠ String c0 "%") by (intros c0; discriminate).
  split; [exact H|]. split; [exact N|].
  exact (proj1 (programs_agree_on_pitch "a#" 3 H) N).
Defined.

(** ** The sheet of [midigimp.py] *)

Lemma diatonicIndex_bounds (L : ascii) : 0 ≤ diatonicIndex L ≤ 6.
Proof.
  unfold diatonicIndex.
  destruct (Py.upper_char L) as [[] [] [] [] [] [] [] []]; cbn; lia.
Qed.

Lemma checked_sub_position (s : string) (o : Z) :
  midigimp.check_sub s = None →
  ∃ c0 rest y,
    s = String c0 rest
    ∧ midigimp.get_staff_position (Py.upper_char c0) o = Ok y
    ∧ 0 ≤ y - (o - 4) * 7 ≤ 6.
Proof.
  intros H. destruct (checked_sub_pitch s 0 H) as (c0 & rest & _ & -> & HL & _).
  exists c0, rest, (diatonicIndex c0 + (o - 4) * 7). split; [done|].
  split; [|pose proof (diatonicIndex_bounds c0); lia].
  change (is_note_letter c0) in HL. apply note_letter_cases in HL.
  repeat (apply elem_of_cons in HL as [->|HL]);
    try (by apply elem_of_nil in HL); reflexivity.
Qed.

(** X22: whatever the user does in [midigimp.py], the sheet can be laid
    out: for every riff in the list [get_staff_position] returns on every
    subnote, and each position lies within the seven steps of the riff's
    octave, from [(octave - 4) * 7] to [(octave - 4) * 7 + 6]. *)
Theorem committed_riffs_sheet (ops : list midigimp.op) :
  ∃ pos : list (list (list Z)),
    midigimp.sheet_positions
      (midigimp.riffs (midigimp.run ops midigimp.init_app)) = Ok pos
    ∧ Forall2
        (fun r ys =>
           Forall (Forall (fun y =>
                     0 ≤ y - (midigimp.octave r - 4) * 7 ≤ 6)) ys)
        (midigimp.riffs (midigimp.run ops midigimp.init_app)) pos.
Proof.
  assert (F : ∀ a, Forall committed (midigimp.riffs a) →
                   Forall committed (midigimp.riffs (midigimp.run ops a))).
  { induction ops as [|o ops IH]; intros a Fa; [done|].
    cbn. apply IH. by apply committed_step. }
  specialize (F midigimp.init_app ltac:(constructor)).
  unfold midigimp.sheet_positions.
  induction F as [|r rs [V _] _ (pos & E & P)]; [exists []; by split|].
  assert (G : ∀ o ng, midigimp.check_group ng = None →
                ∃ ys, midigimp.sheet_group o ng = Ok ys
                      ∧ Forall (fun y => 0 ≤ y - (o - 4) * 7 ≤ 6) ys).
  { intros o ng Hg. unfold midigimp.sheet_group, midigimp.check_group in *.
    destruct (String.eqb _ "R"); [by exists []|].
    pose proof (first_stop_none _ _ Hg) as Hs. clear Hg.
    induction (Py.split_on "+" ng) as [|s subs IH]; [by exists []|].
    destruct (checked_sub_position s o) as (c0 & rest & y & -> & Ep & By).
    { apply Hs, list_elem_of_here. }
    destruct IH as (ys & Ey & Fy).
    { intros x Hx. by apply Hs, list_elem_of_further. }
    exists (y :: ys). cbn [mapR Py.index0 bind]. rewrite Ep, Ey.
    split; [done|]. by constructor. }
  assert (R : ∃ ys, midigimp.sheet_riff r = Ok ys
                    ∧ Forall (Forall (fun y =>
                                0 ≤ y - (midigimp.octave r - 4) * 7 ≤ 6)) ys).
  { unfold midigimp.sheet_riff. unfold midigimp.validate in V.
    pose proof (first_stop_none _ _ V) as Hs. clear V.
    induction (midigimp.notes r) as [|ng ngs IH]; [by exists []|].
    destruct (G (midigimp.octave r) ng) as (y & Ey & Fy).
    { apply Hs, list_elem_of_here. }
    destruct IH as (ys & Eys & Fys).
    { intros x Hx. by apply Hs, list_elem_of_further. }
    eexists. cbn. rewrite Ey, Eys. cbn. split; [done|]. by constructor. }
  destruct R as (ys & Ey & Fy).
  eexists. cbn. rewrite Ey, E. cbn. split; [done|]. by constructor.
Qed.
